(** * Flip Radar: the buyer-activity query of [src/app/flip-radar/page.tsx]

    A shallow embedding of the helpers [monthsAgo], [distanceMiles] and
    [circlePolygon], of the core computation [computeResults] and of its two
    callers in the page, the map update [updateMapData] and the in-page tests
    [testResults]; followed by the properties of the query that the
    specification states, and by further properties that the code shows.

    Conventions of the embedding.
    - A JavaScript [number] is a binary64 value, Rocq's primitive [float];
      array lengths and loop counters are [nat]; the time value of a [Date]
      (milliseconds since the epoch, an integer) is a [Z], and a [Date] is an
      [option Z] where [None] is the Invalid Date.
    - What the engine supplies and ECMAScript leaves open ([Math.sin] and its
      companions, the date-string parser, the local time zone) is a [Host];
      the wall clock read by [new Date()] is the explicit argument [now].
    - The module-level constants [buyers], [properties] and [events] are the
      fields of a [Dataset]; [Seed.data] holds the values of the source.
    - An exception is a [Throw] of the [result] type. *)

From Stdlib Require Import ZArith NArith List String Ascii Bool Lia DecimalString.
From Stdlib Require Import Floats Uint63 Permutation Sorted.
Import ListNotations.

Set Warnings "-inexact-float".

(* ------------------------------------------------------------------ *)
(** ** Exceptions *)

Inductive exn : Type :=
| TypeError.

Inductive result (A : Type) : Type :=
| Ok (a : A)
| Throw (e : exn).

Arguments Ok {A} a.
Arguments Throw {A} e.

Definition bind {A B : Type} (r : result A) (k : A -> result B) : result B :=
  match r with
  | Ok a => k a
  | Throw e => Throw e
  end.

Notation "x <- r ;; k" := (bind r (fun x => k))
  (at level 61, r at next level, right associativity).

Definition is_Throw {A : Type} (r : result A) : bool :=
  match r with
  | Ok _ => false
  | Throw _ => true
  end.

(** [Array.prototype.filter] with a callback that may throw: the callback runs
    on the elements from left to right and the first exception ends the call. *)
Fixpoint Array_filter {A : Type} (f : A -> result bool) (l : list A)
  : result (list A) :=
  match l with
  | [] => Ok []
  | x :: l' =>
      keep <- f x ;;
      rest <- Array_filter f l' ;;
      Ok (if keep then x :: rest else rest)
  end.

(** A [for ... of] loop whose body updates an accumulator and may throw. *)
Fixpoint for_of {A S : Type} (body : S -> A -> result S) (l : list A) (s : S)
  : result S :=
  match l with
  | [] => Ok s
  | x :: l' => s' <- body s x ;; for_of body l' s'
  end.

(** [Array.prototype.sort] with a comparator.  [gt a b] tells whether the
    comparator returns a positive number on [(a, b)].  The sort is stable
    (ECMAScript 2019): an element moves behind the elements it is compared
    greater than, and never passes another one. *)
Fixpoint sort_insert {A : Type} (gt : A -> A -> bool) (x : A) (l : list A)
  : list A :=
  match l with
  | [] => [x]
  | y :: l' => if gt x y then y :: sort_insert gt x l' else x :: y :: l'
  end.

Fixpoint Array_sort {A : Type} (gt : A -> A -> bool) (l : list A) : list A :=
  match l with
  | [] => []
  | x :: l' => sort_insert gt x (Array_sort gt l')
  end.

(* ------------------------------------------------------------------ *)
(** ** Numbers *)

Module Num.

Definition of_Z (z : Z) : float :=
  match z with
  | Z0 => 0%float
  | Zpos _ => PrimFloat.of_uint63 (Uint63.of_Z z)
  | Zneg p => (- PrimFloat.of_uint63 (Uint63.of_Z (Zpos p)))%float
  end.

Definition of_nat (n : nat) : float := of_Z (Z.of_nat n).

(** [Math.PI], the binary64 number nearest to pi. *)
Definition PI : float := 0x1.921fb54442d18p+1%float.

(** [x ** 2] *)
Definition sq (x : float) : float := (x * x)%float.

End Num.

(* ------------------------------------------------------------------ *)
(** ** The host environment *)

Class Host : Type := {
  Math_sin : float -> float;
  Math_cos : float -> float;
  Math_asin : float -> float;
  Math_sqrt : float -> float;
  Math_atan2 : float -> float -> float;
  (** [new Date(s).getTime()], [None] for an Invalid Date *)
  Date_parse : string -> option Z;
  (** [LocalTZA(t, isUTC)], the offset of local time in milliseconds *)
  LocalTZA : Z -> bool -> Z
}.

(* ------------------------------------------------------------------ *)
(** ** Dates (ECMAScript 21.4.1) *)

Module JSDate.
Local Open Scope Z_scope.

Definition msPerDay : Z := 86400000.

Definition Day (t : Z) : Z := t / msPerDay.
Definition TimeWithinDay (t : Z) : Z := t mod msPerDay.

Definition DayFromYear (y : Z) : Z :=
  365 * (y - 1970) + (y - 1969) / 4 - (y - 1901) / 100 + (y - 1601) / 400.

Definition TimeFromYear (y : Z) : Z := msPerDay * DayFromYear y.

Definition DaysInYear (y : Z) : Z :=
  if negb (y mod 4 =? 0) then 365
  else if negb (y mod 100 =? 0) then 366
  else if negb (y mod 400 =? 0) then 365
  else 366.

(** [InLeapYear] as a function of the year. *)
Definition leap_of_year (y : Z) : Z :=
  if DaysInYear y =? 365 then 0 else 1.

(** The largest [y] with [TimeFromYear y <= t]: an estimate from the mean
    length of a year, corrected by one year either way. *)
Definition YearFromTime (t : Z) : Z :=
  let d := Day t in
  let y := 1970 + (d * 400) / 146097 in
  if d <? DayFromYear y then y - 1
  else if DayFromYear (y + 1) <=? d then y + 1
  else y.

Definition InLeapYear (t : Z) : Z := leap_of_year (YearFromTime t).

Definition DayWithinYear (t : Z) : Z := Day t - DayFromYear (YearFromTime t).

(** Day number within the year on which month [m] (0 to 11) starts. *)
Definition month_start (m leap : Z) : Z :=
  if m <=? 0 then 0
  else if m =? 1 then 31
  else if m =? 2 then 59 + leap
  else if m =? 3 then 90 + leap
  else if m =? 4 then 120 + leap
  else if m =? 5 then 151 + leap
  else if m =? 6 then 181 + leap
  else if m =? 7 then 212 + leap
  else if m =? 8 then 243 + leap
  else if m =? 9 then 273 + leap
  else if m =? 10 then 304 + leap
  else 334 + leap.

Definition MonthFromTime (t : Z) : Z :=
  let d := DayWithinYear t in
  let leap := InLeapYear t in
  if d <? month_start 1 leap then 0
  else if d <? month_start 2 leap then 1
  else if d <? month_start 3 leap then 2
  else if d <? month_start 4 leap then 3
  else if d <? month_start 5 leap then 4
  else if d <? month_start 6 leap then 5
  else if d <? month_start 7 leap then 6
  else if d <? month_start 8 leap then 7
  else if d <? month_start 9 leap then 8
  else if d <? month_start 10 leap then 9
  else if d <? month_start 11 leap then 10
  else 11.

Definition DateFromTime (t : Z) : Z :=
  DayWithinYear t - month_start (MonthFromTime t) (InLeapYear t) + 1.

(** [MakeDay(year, month, date)]: the day number of the first of the month
    [month mod 12] of the year [year + floor(month / 12)], plus [date - 1];
    a [date] beyond the length of the month rolls over into the next one. *)
Definition MakeDay (year month date : Z) : Z :=
  let ym := year + month / 12 in
  let mn := month mod 12 in
  DayFromYear ym + month_start mn (leap_of_year ym) + date - 1.

Definition MakeDate (day time : Z) : Z := day * msPerDay + time.

Definition maxTime : Z := 8640000000000000.

Definition TimeClip (t : Z) : option Z :=
  if Z.abs t <=? maxTime then Some t else None.

Section WithHost.
Context {H : Host}.

Definition LocalTime (t : Z) : Z := t + LocalTZA t true.
Definition UTC (t : Z) : Z := t - LocalTZA t false.

(** [d.getMonth()] *)
Definition getMonth (t : Z) : Z := MonthFromTime (LocalTime t).

(** [d.setMonth(month)], the new time value of [d] *)
Definition setMonth (t : Z) (month : Z) : option Z :=
  let lt := LocalTime t in
  let newDate :=
    MakeDate (MakeDay (YearFromTime lt) month (DateFromTime lt))
             (TimeWithinDay lt) in
  TimeClip (UTC newDate).

(** [a >= b] on two [Date]s: false as soon as one is invalid. *)
Definition Date_ge (a b : option Z) : bool :=
  match a, b with
  | Some x, Some y => y <=? x
  | _, _ => false
  end.

End WithHost.

(** The date-only form [YYYY-MM-DD] of the ECMAScript date-time string
    format, which denotes midnight UTC. *)
Definition digit (c : ascii) : option Z :=
  let n := Z.of_nat (nat_of_ascii c) in
  if (48 <=? n) && (n <=? 57) then Some (n - 48) else None.

Fixpoint digits (acc : Z) (l : list ascii) : option Z :=
  match l with
  | [] => Some acc
  | c :: l' =>
      match digit c with
      | Some d => digits (10 * acc + d) l'
      | None => None
      end
  end.

Definition parse_date_only (s : string) : option Z :=
  match list_ascii_of_string s with
  | [y1; y2; y3; y4; "-"%char; m1; m2; "-"%char; d1; d2] =>
      match digits 0 [y1; y2; y3; y4], digits 0 [m1; m2], digits 0 [d1; d2] with
      | Some y, Some m, Some d =>
          if (1 <=? m) && (m <=? 12) && (1 <=? d) && (d <=? 31)
          then TimeClip (MakeDate (MakeDay y (m - 1) d) 0)
          else None
      | _, _, _ => None
      end
  | _ => None
  end.

End JSDate.

(* ------------------------------------------------------------------ *)
(** ** A reference host

    Binary64 approximations of the [Math] functions (ECMAScript calls them
    implementation-approximated): argument reduction by multiples of pi/2
    carried by a two-part constant, then a truncated series.  Dates are
    parsed in the date-only format and the local time zone is UTC. *)

Module RefMath.
Local Open Scope float_scope.

(** Nearest integer, for [|x| < 2^51]. *)
Definition rint (x : float) : float := (x + 0x1.8p52) - 0x1.8p52.

Definition pio2_hi : float := 0x1.921fb54442d18p+0.
Definition pio2_lo : float := 0x1.1a62633145c07p-54.

(** [x = k * pi/2 + r] with [|r| <= pi/4]; returns [(k mod 4, r)]. *)
Definition reduce (x : float) : float * float :=
  let k := rint (x / pio2_hi) in
  let r := (x - k * pio2_hi) - k * pio2_lo in
  let q := k - 4 * rint (k / 4 - 0.375) in
  (q, r).

Definition sin_kernel (r : float) : float :=
  let z := r * r in
  r * (1 - z / 6 * (1 - z / 20 * (1 - z / 42 * (1 - z / 72 * (1 - z / 110 *
      (1 - z / 156 * (1 - z / 210 * (1 - z / 272)))))))).

Definition cos_kernel (r : float) : float :=
  let z := r * r in
  1 - z / 2 * (1 - z / 12 * (1 - z / 30 * (1 - z / 56 * (1 - z / 90 *
      (1 - z / 132 * (1 - z / 182 * (1 - z / 240 * (1 - z / 306)))))))).

Definition sin (x : float) : float :=
  let '(q, r) := reduce x in
  if q =? 0 then sin_kernel r
  else if q =? 1 then cos_kernel r
  else if q =? 2 then - sin_kernel r
  else - cos_kernel r.

Definition cos (x : float) : float :=
  let '(q, r) := reduce x in
  if q =? 0 then cos_kernel r
  else if q =? 1 then - sin_kernel r
  else if q =? 2 then - cos_kernel r
  else sin_kernel r.

Definition sqrt (x : float) : float := PrimFloat.sqrt x.

(** Arc tangent on [[-1, 1]]: two halvings of the angle, then the series. *)
Definition half_angle (z : float) : float := z / (1 + sqrt (1 + z * z)).

Definition atan_series (z : float) : float :=
  let w := z * z in
  z * (1 - w * (1 / 3 - w * (1 / 5 - w * (1 / 7 - w * (1 / 9 - w * (1 / 11 -
      w * (1 / 13 - w * (1 / 15 - w * (1 / 17 - w * (1 / 19 - w * (1 / 21 -
      w * (1 / 23)))))))))))).

Definition atan_unit (z : float) : float :=
  4 * atan_series (half_angle (half_angle z)).

Definition atan (z : float) : float :=
  if abs z <=? 1 then atan_unit z
  else if 0 <? z then pio2_hi - atan_unit (1 / z)
  else - pio2_hi - atan_unit (1 / z).

Definition atan2 (y x : float) : float :=
  if 0 <? x then atan (y / x)
  else if x <? 0 then
    (if y <? 0 then atan (y / x) - Num.PI else atan (y / x) + Num.PI)
  else if 0 <? y then pio2_hi
  else if y <? 0 then - pio2_hi
  else y.

Definition asin (x : float) : float :=
  atan2 x (sqrt ((1 - x) * (1 + x))).

End RefMath.

#[export] Instance ref_host : Host := {|
  Math_sin := RefMath.sin;
  Math_cos := RefMath.cos;
  Math_asin := RefMath.asin;
  Math_sqrt := RefMath.sqrt;
  Math_atan2 := RefMath.atan2;
  Date_parse := JSDate.parse_date_only;
  LocalTZA := fun _ _ => 0%Z
|}.

(* ------------------------------------------------------------------ *)
(** ** Types *)

Inductive BuyerType : Type :=
| flipper
| landlord
| cash
| unknown.

(** The parameter type [BuyerType | "all"]. *)
Inductive BuyerTypeFilter : Type :=
| all
| only (t : BuyerType).

Definition BuyerType_eqb (a b : BuyerType) : bool :=
  match a, b with
  | flipper, flipper | landlord, landlord | cash, cash | unknown, unknown => true
  | _, _ => false
  end.

Record Contact : Type := {
  phone : option string;
  email : option string
}.

Module Buyer.
Record t : Type := {
  id : string;
  name : string;
  buyer_type : BuyerType;
  contacts : list Contact
}.
End Buyer.

Module LatLon.
Record t : Type := {
  lat : float;
  lon : float
}.
End LatLon.

Module Property.
Record t : Type := {
  id : string;
  addr1 : string;
  city : string;
  state : string;
  zip : string;
  lat : float;
  lon : float
}.
End Property.

Inductive EventType : Type :=
| purchase
| sale.

Inductive EventSource : Type :=
| county
| mls
| manual.

Module BuyerEvent.
Record t : Type := {
  id : string;
  buyer_id : string;
  property_id : string;
  event_type : EventType;
  event_date : string;
  price : float;
  source : EventSource
}.
End BuyerEvent.

Module ResultRow.
Record t : Type := {
  id : string;
  name : string;
  buyer_type : BuyerType;
  contacts : list Contact;
  deals_count : nat;
  last_deal : Z;
  median_price : float
}.
End ResultRow.

Record Dataset : Type := {
  buyers : list Buyer.t;
  properties : list Property.t;
  events : list BuyerEvent.t
}.

(* ------------------------------------------------------------------ *)
(** ** Objects used as maps

    The own properties of an object literal [{}] that is filled by
    assignments [o[k] = v], in the order of their creation. *)

Module JSObject.

Definition t (V : Type) : Type := list (string * V).

Definition empty {V : Type} : t V := [].

Fixpoint get_own {V : Type} (o : t V) (k : string) : option V :=
  match o with
  | [] => None
  | (k', v) :: o' => if String.eqb k' k then Some v else get_own o' k
  end.

(** [o[k] = v]: an existing property keeps its place. *)
Fixpoint set {V : Type} (o : t V) (k : string) (v : V) : t V :=
  match o with
  | [] => [(k, v)]
  | (k', v') :: o' =>
      if String.eqb k' k then (k', v) :: o' else (k', v') :: set o' k v
  end.

(** The properties every object inherits from [Object.prototype]; reading
    one of them through [o[k]] yields a function or an object, never
    [undefined]. *)
Definition prototype_keys : list string :=
  [ "constructor"; "__defineGetter__"; "__defineSetter__"; "hasOwnProperty";
    "__lookupGetter__"; "__lookupSetter__"; "isPrototypeOf";
    "propertyIsEnumerable"; "toString"; "valueOf"; "__proto__";
    "toLocaleString" ]%string.

Definition inherited (k : string) : bool :=
  existsb (String.eqb k) prototype_keys.

(** An array index is a string that is the canonical decimal form
    ([ToString]) of an integer between 0 and 2^32 - 2. *)
Definition digit (c : ascii) : option N :=
  let n := N_of_ascii c in
  if (48 <=? n)%N && (n <=? 57)%N then Some (n - 48)%N else None.

Fixpoint digits (acc : N) (s : string) : option N :=
  match s with
  | EmptyString => Some acc
  | String c s' =>
      match digit c with
      | Some d => digits (10 * acc + d)%N s'
      | None => None
      end
  end.

Definition ToString (n : N) : string :=
  NilZero.string_of_uint (N.to_uint n).

Definition array_index (k : string) : option N :=
  match digits 0 k with
  | Some n =>
      if (n <=? 4294967294)%N && String.eqb (ToString n) k
      then Some n else None
  | None => None
  end.

Definition is_array_index (k : string) : bool :=
  match array_index k with
  | Some _ => true
  | None => false
  end.

Definition index_of (k : string) : N :=
  match array_index k with
  | Some n => n
  | None => 0%N
  end.

(** [OrdinaryOwnPropertyKeys]: the array indices in ascending numeric
    order, then the other strings in the order of their creation. *)
Definition own_properties {V : Type} (o : t V) : t V :=
  Array_sort (fun a b => (index_of (fst b) <? index_of (fst a))%N)
             (filter (fun kv => is_array_index (fst kv)) o)
  ++ filter (fun kv => negb (is_array_index (fst kv))) o.

(** [Object.values(o)] *)
Definition values {V : Type} (o : t V) : list V :=
  map snd (own_properties o).

Definition keys {V : Type} (o : t V) : list string :=
  map fst (own_properties o).

End JSObject.

(* ------------------------------------------------------------------ *)
(** ** Helpers *)

Record Polygon : Type := {
  coordinates : list (list (float * float))
}.

(** The GeoJSON feature returned by [circlePolygon]; its constant fields
    ([type], [properties]) carry no information and are left out. *)
Record Feature : Type := {
  geometry : Polygon
}.

Section Helpers.
Context {H : Host}.
Local Open Scope float_scope.

(** [monthsAgo(n)], called when the clock reads [now]. *)
Definition monthsAgo (now : Z) (n : Z) : option Z :=
  JSDate.setMonth now (JSDate.getMonth now - n)%Z.

Definition earth_radius : float := 3958.8.

Definition toRad (x : float) : float := (x * Num.PI) / 180.
Definition toDeg (r : float) : float := (r * 180) / Num.PI.

Definition distanceMiles (a b : LatLon.t) : float :=
  let R := earth_radius in
  let dLat := toRad (LatLon.lat b - LatLon.lat a) in
  let dLon := toRad (LatLon.lon b - LatLon.lon a) in
  let lat1 := toRad (LatLon.lat a) in
  let lat2 := toRad (LatLon.lat b) in
  let h := Num.sq (Math_sin (dLat / 2))
           + Math_cos lat1 * Math_cos lat2 * Num.sq (Math_sin (dLon / 2)) in
  2 * R * Math_asin (Math_sqrt h).

(** The point pushed by the loop body of [circlePolygon] at counter [i]. *)
Definition circle_point (lonR latR angDist : float) (points i : nat)
  : float * float :=
  let brng := (Num.of_nat i / Num.of_nat points) * 2 * Num.PI in
  let lat2 := Math_asin (Math_sin latR * Math_cos angDist
                         + Math_cos latR * Math_sin angDist * Math_cos brng) in
  let lon2 := lonR
              + Math_atan2 (Math_sin brng * Math_sin angDist * Math_cos latR)
                           (Math_cos angDist - Math_sin latR * Math_sin lat2) in
  (toDeg lon2, toDeg lat2).

(** The array [coords] after the loop [for (let i = 0; i <= points; i++)]. *)
Definition circle_coords (lon lat radiusMiles : float) (points : nat)
  : list (float * float) :=
  let R := earth_radius in
  let latR := toRad lat in
  let lonR := toRad lon in
  let angDist := radiusMiles / R in
  map (circle_point lonR latR angDist points) (seq 0 (S points)).

Definition circlePolygon (lon lat radiusMiles : float) (points : nat)
  : Feature :=
  {| geometry := {| coordinates := [circle_coords lon lat radiusMiles points] |} |}.

End Helpers.

(* ------------------------------------------------------------------ *)
(** ** Core computation *)

(** The values of [byBuyer]. *)
Module Group.
Record t : Type := {
  buyer : Buyer.t;
  deals : list BuyerEvent.t;
  last : Z
}.
End Group.

Section Core.
Context {H : Host}.
Variable db : Dataset.

Definition find_property (e : BuyerEvent.t) : option Property.t :=
  find (fun pp => String.eqb (Property.id pp) (BuyerEvent.property_id e))
       (properties db).

Definition find_buyer (ev : BuyerEvent.t) : option Buyer.t :=
  find (fun b => String.eqb (Buyer.id b) (BuyerEvent.buyer_id ev))
       (buyers db).

Definition is_purchase (e : BuyerEvent.t) : bool :=
  match BuyerEvent.event_type e with
  | purchase => true
  | sale => false
  end.

(** The callback of [events.filter]: reading [p.lat] throws when the
    property is not found. *)
Definition retained (center : LatLon.t) (radiusMiles : float)
           (since : option Z) (e : BuyerEvent.t) : result bool :=
  match find_property e with
  | None => Throw TypeError
  | Some p =>
      let withinTime :=
        JSDate.Date_ge (Date_parse (BuyerEvent.event_date e)) since in
      let withinDist :=
        (distanceMiles center {| LatLon.lat := Property.lat p;
                                 LatLon.lon := Property.lon p |}
         <=? radiusMiles)%float in
      Ok (is_purchase e && withinTime && withinDist)
  end.

(** The constant [filtered]. *)
Definition filtered (now : Z) (center : LatLon.t) (radiusMiles : float)
           (months : Z) : result (list BuyerEvent.t) :=
  let since := monthsAgo now months in
  Array_filter (retained center radiusMiles since) (events db).

(** [buyerType !== "all" && buyer.buyer_type !== buyerType] *)
Definition skipped (buyerType : BuyerTypeFilter) (buyer : Buyer.t) : bool :=
  match buyerType with
  | all => false
  | only c => negb (BuyerType_eqb (Buyer.buyer_type buyer) c)
  end.

(** [g.deals.push(ev)] followed by the update of [g.last]. *)
Definition add_deal (g : Group.t) (ev : BuyerEvent.t) : Group.t :=
  {| Group.buyer := Group.buyer g;
     Group.deals := Group.deals g ++ [ev];
     Group.last :=
       match Date_parse (BuyerEvent.event_date ev) with
       | Some d => if (Group.last g <? d)%Z then d else Group.last g
       | None => Group.last g
       end |}.

(** The group created by [{ buyer, deals: [], last: new Date("1970-01-01") }]. *)
Definition new_group (buyer : Buyer.t) : Group.t :=
  {| Group.buyer := buyer; Group.deals := []; Group.last := 0%Z |}.

(** The body of the loop over [filtered].  Reading a field of [buyer]
    throws when the buyer is not found; when [byBuyer[buyer.id]] is an
    inherited property, no group is created and [.deals.push] throws. *)
Definition group_step (buyerType : BuyerTypeFilter)
           (byBuyer : JSObject.t Group.t) (ev : BuyerEvent.t)
  : result (JSObject.t Group.t) :=
  match find_buyer ev with
  | None => Throw TypeError
  | Some buyer =>
      if skipped buyerType buyer then Ok byBuyer
      else
        match JSObject.get_own byBuyer (Buyer.id buyer) with
        | Some g => Ok (JSObject.set byBuyer (Buyer.id buyer) (add_deal g ev))
        | None =>
            if JSObject.inherited (Buyer.id buyer) then Throw TypeError
            else Ok (JSObject.set byBuyer (Buyer.id buyer)
                                  (add_deal (new_group buyer) ev))
        end
  end.

(** [a - b] of the comparator of [prices.sort] is positive. *)
Definition price_gt (a b : float) : bool := (0 <? a - b)%float.

Definition median (prices : list float) : float :=
  let mid := Nat.div (List.length prices) 2 in
  if Nat.eqb (Nat.modulo (List.length prices) 2) 0
  then ((nth (mid - 1) prices nan + nth mid prices nan) / 2)%float
  else nth mid prices nan.

Definition sorted_prices (v : Group.t) : list float :=
  Array_sort price_gt (map BuyerEvent.price (Group.deals v)).

(** The callback of [Object.values(byBuyer).map]. *)
Definition row_of (v : Group.t) : ResultRow.t :=
  {| ResultRow.id := Buyer.id (Group.buyer v);
     ResultRow.name := Buyer.name (Group.buyer v);
     ResultRow.buyer_type := Buyer.buyer_type (Group.buyer v);
     ResultRow.contacts := Buyer.contacts (Group.buyer v);
     ResultRow.deals_count := List.length (Group.deals v);
     ResultRow.last_deal := Group.last v;
     ResultRow.median_price := median (sorted_prices v) |}.

(** The comparator of [out.sort]. *)
Definition compare_rows (a b : ResultRow.t) : Z :=
  let c := (Z.of_nat (ResultRow.deals_count b)
            - Z.of_nat (ResultRow.deals_count a))%Z in
  if (c =? 0)%Z
  then (ResultRow.last_deal b - ResultRow.last_deal a)%Z
  else c.

Definition row_gt (a b : ResultRow.t) : bool := (0 <? compare_rows a b)%Z.

Definition grouped (buyerType : BuyerTypeFilter) (evs : list BuyerEvent.t)
  : result (JSObject.t Group.t) :=
  for_of (group_step buyerType) evs JSObject.empty.

Definition computeResults (now : Z) (center : LatLon.t) (radiusMiles : float)
           (months : Z) (buyerType : BuyerTypeFilter)
  : result (list ResultRow.t) :=
  evs <- filtered now center radiusMiles months ;;
  byBuyer <- grouped buyerType evs ;;
  let out := map row_of (JSObject.values byBuyer) in
  Ok (Array_sort row_gt out).

End Core.

(* ------------------------------------------------------------------ *)
(** ** Seeded demo data *)

Module Seed.
Local Open Scope string_scope.
Local Open Scope float_scope.

Definition tel (s : string) : Contact := {| phone := Some s; email := None |}.
Definition mail (s : string) : Contact := {| phone := None; email := Some s |}.

Definition buyers : list Buyer.t :=
  [ Buyer.Build_t "b1" "Evergreen Residential LLC" flipper [tel "210-555-0187"];
    Buyer.Build_t "b2" "Alamo Rentals Group" landlord [tel "210-555-0142"];
    Buyer.Build_t "b3" "River City Capital" cash [tel "210-555-0199"];
    Buyer.Build_t "b4" "Hill Country Flips" flipper [mail "offers@hillcountryflips.com"] ].

Definition properties : list Property.t :=
  [ Property.Build_t "p1" "112 Blanco Rd" "San Antonio" "TX" "78212" 29.462 (-98.501);
    Property.Build_t "p2" "2744 Briarhurst Dr #38" "Houston" "TX" "77057" 29.741 (-95.483);
    Property.Build_t "p3" "501 Woodlawn Ave" "San Antonio" "TX" "78201" 29.458 (-98.514);
    Property.Build_t "p4" "2803 W Martin St" "San Antonio" "TX" "78207" 29.422 (-98.514);
    Property.Build_t "p5" "133 King William St" "San Antonio" "TX" "78204" 29.410 (-98.495);
    Property.Build_t "p6" "845 S Presa St" "San Antonio" "TX" "78210" 29.411 (-98.487) ].

Definition events : list BuyerEvent.t :=
  [ BuyerEvent.Build_t "e1" "b1" "p1" purchase "2025-07-21" 275000 county;
    BuyerEvent.Build_t "e2" "b1" "p3" purchase "2025-05-10" 245000 county;
    BuyerEvent.Build_t "e3" "b1" "p5" purchase "2024-12-19" 310000 mls;
    BuyerEvent.Build_t "e4" "b2" "p4" purchase "2025-03-02" 190000 county;
    BuyerEvent.Build_t "e5" "b2" "p6" purchase "2024-10-11" 215000 county;
    BuyerEvent.Build_t "e6" "b3" "p1" purchase "2024-09-20" 260000 county;
    BuyerEvent.Build_t "e7" "b4" "p6" purchase "2025-08-05" 330000 mls ].

Definition data : Dataset :=
  Build_Dataset buyers properties events.

(** The default center of the page, San Antonio. *)
Definition san_antonio : LatLon.t :=
  {| LatLon.lat := 29.4241; LatLon.lon := -98.4936 |}.

End Seed.

(* ------------------------------------------------------------------ *)
(** ** The map layers ([updateMapData]) *)

(** A point feature of the [buyers] source: its [geometry.coordinates]
    ([lon] first) and its [properties]. *)
Module Marker.
Record t : Type := {
  coordinates : float * float;
  id : string;
  name : string;
  type : BuyerType
}.
End Marker.

(** [Math.max] of two numbers: [NaN] when one of them is, and [+0] above
    [-0]. *)
Definition Math_max (x y : float) : float :=
  if is_nan x || is_nan y then nan
  else if (x <? y)%float then y
  else if (y <? x)%float then x
  else if PrimFloat.is_zero x && PrimFloat.get_sign x then y
  else x.

(** The calls that [updateMapData] makes on the map. *)
Inductive MapCall : Type :=
| setData_buyers (features : list Marker.t)
| setData_radius (data : Feature)
| flyTo (lon lat zoom : float).

Section MapLayers.
Context {H : Host}.
Variable db : Dataset.

(** The comparator of the sort of [updateMapData],
    [+new Date(b.event_date) - +new Date(a.event_date)], is positive.  The
    difference of two time values has the sign of their order; with an
    Invalid Date it is [NaN], which is not positive. *)
Definition date_gt (a b : BuyerEvent.t) : bool :=
  match Date_parse (BuyerEvent.event_date b),
        Date_parse (BuyerEvent.event_date a) with
  | Some tb, Some ta => (0 <? tb - ta)%Z
  | _, _ => false
  end.

(** The constant [lastDeal] of the row of buyer [id]: element 0 of the
    sorted array, [undefined] when the array is empty. *)
Definition lastDeal (id : string) : option BuyerEvent.t :=
  hd_error
    (Array_sort date_gt
       (filter (fun e => String.eqb (BuyerEvent.buyer_id e) id) (events db))).

(** [properties.find((p) => p.id === lastDeal?.property_id)] *)
Definition marker_property (id : string) : option Property.t :=
  match lastDeal id with
  | Some e =>
      find (fun p => String.eqb (Property.id p) (BuyerEvent.property_id e))
           (properties db)
  | None => None
  end.

(** The callback of [results.map]. *)
Definition marker (center : LatLon.t) (r : ResultRow.t) : Marker.t :=
  let coord :=
    match marker_property (ResultRow.id r) with
    | Some prop => (Property.lon prop, Property.lat prop)
    | None => (LatLon.lon center, LatLon.lat center)
    end in
  {| Marker.coordinates := coord;
     Marker.id := ResultRow.id r;
     Marker.name := ResultRow.name r;
     Marker.type := ResultRow.buyer_type r |}.

(** [updateMapData()] on a map whose [getSource] finds the sources
    [has_source] and whose [getZoom] returns [zoom]: the calls made on the
    map, in order.  A missing source is passed over by [?.]. *)
Definition updateMapData (has_source : string -> bool) (zoom : float)
           (results : list ResultRow.t) (center : LatLon.t) (radius : float)
  : list MapCall :=
  let features := map (marker center) results in
  (if has_source "buyers"%string then [setData_buyers features] else [])
  ++ (if has_source "radius"%string
      then [setData_radius
              (circlePolygon (LatLon.lon center) (LatLon.lat center) radius 64)]
      else [])
  ++ [flyTo (LatLon.lon center) (LatLon.lat center) (Math_max zoom 11)].

End MapLayers.

(* ------------------------------------------------------------------ *)
(** ** The in-page tests ([testResults]) *)

Module TestResult.
Record t : Type := {
  name : string;
  passed : bool;
  detail : string
}.
End TestResult.

Section Tests.
Context {H : Host}.
Variable db : Dataset.

(** The reading of the clock by the [k]-th call of [computeResults]. *)
Variable clock : nat -> Z.

(** The [message] of the error that ends the [try] block, the engine's
    wording. *)
Variable message : string.

Local Open Scope string_scope.

(** A template literal's rendering of an array length. *)
Definition show (n : nat) : string := JSObject.ToString (N.of_nat n).

(** The entry pushed by the [catch] clause; an error with an empty message
    is rendered by its name. *)
Definition crashed : TestResult.t :=
  {| TestResult.name := "Tests crashed";
     TestResult.passed := false;
     TestResult.detail := if String.eqb message "" then "TypeError" else message |}.

(** One statement of the [try] block that may throw: on an exception the
    [catch] clause adds its entry to what [out] holds so far. *)
Definition attempt {A : Type} (r : result A) (out : list TestResult.t)
           (k : A -> list TestResult.t) : list TestResult.t :=
  match r with
  | Ok a => k a
  | Throw _ => (out ++ [crashed])%list
  end.

Definition every_type (c : BuyerType) (rows : list ResultRow.t) : bool :=
  forallb (fun x => BuyerType_eqb (ResultRow.buyer_type x) c) rows.

Definition T1 (r1 : list ResultRow.t) : TestResult.t :=
  {| TestResult.name := "T1: Default (2mi/12mo) returns >= 1 row";
     TestResult.passed := (1 <=? List.length r1)%nat;
     TestResult.detail := "count:" ++ show (List.length r1) |}.

Definition T2 (r2 : list ResultRow.t) : TestResult.t :=
  {| TestResult.name := "T2: Flippers-only filter";
     TestResult.passed := every_type flipper r2;
     TestResult.detail := "count:" ++ show (List.length r2) |}.

Definition T3 (r3 r4 : list ResultRow.t) : TestResult.t :=
  {| TestResult.name := "T3: 0.5mi vs 5mi reduces results";
     TestResult.passed := (List.length r3 <=? List.length r4)%nat;
     TestResult.detail :=
       show (List.length r3) ++ " <= " ++ show (List.length r4) |}.

Definition T4 (r5 r6 : list ResultRow.t) : TestResult.t :=
  {| TestResult.name := "T4: 24mo returns at least as many as 12mo";
     TestResult.passed := (List.length r6 <=? List.length r5)%nat;
     TestResult.detail :=
       show (List.length r5) ++ " >= " ++ show (List.length r6) |}.

Definition T5 (r7 : list ResultRow.t) : TestResult.t :=
  {| TestResult.name := "T5: Landlords-only filter";
     TestResult.passed := every_type landlord r7;
     TestResult.detail := "count:" ++ show (List.length r7) |}.

(** The value of the [useMemo] callback of [testResults]. *)
Definition testResults (center : LatLon.t) : list TestResult.t :=
  let out := [] in
  attempt (computeResults db (clock 0) center 2 12 all) out (fun r1 =>
  let out := (out ++ [T1 r1])%list in
  attempt (computeResults db (clock 1) center 10 24 (only flipper)) out (fun r2 =>
  let out := (out ++ [T2 r2])%list in
  attempt (computeResults db (clock 2) center 0.5 12 all) out (fun r3 =>
  attempt (computeResults db (clock 3) center 5 12 all) out (fun r4 =>
  let out := (out ++ [T3 r3 r4])%list in
  attempt (computeResults db (clock 4) center 5 24 all) out (fun r5 =>
  attempt (computeResults db (clock 5) center 5 12 all) out (fun r6 =>
  let out := (out ++ [T4 r5 r6])%list in
  attempt (computeResults db (clock 6) center 10 24 (only landlord)) out (fun r7 =>
  (out ++ [T5 r7])%list))))))).

End Tests.

(* ================================================================== *)
(** * Properties *)

(* ------------------------------------------------------------------ *)
(** ** Exceptions, [filter] and [for ... of] *)

Lemma Throw_TypeError {A : Type} (e : exn) : @Throw A e = Throw TypeError.
Proof. destruct e; reflexivity. Qed.

(** The pure predicate computed by a callback that does not throw. *)
Definition keeps {A : Type} (f : A -> result bool) (x : A) : bool :=
  match f x with
  | Ok true => true
  | _ => false
  end.

Section ArrayFacts.
Context {A : Type}.
Implicit Types (f g : A -> result bool) (l : list A).

Lemma Array_filter_Ok f l r :
  Array_filter f l = Ok r ->
  r = filter (keeps f) l /\ Forall (fun x => exists k, f x = Ok k) l.
Proof.
  revert r; induction l as [|x l IH]; simpl; intros r Hr.
  - inversion Hr; auto.
  - unfold keeps at 1.
    destruct (f x) as [k|e] eqn:Hx; simpl in Hr; [|discriminate].
    destruct (Array_filter f l) as [rest|e] eqn:Hl; simpl in Hr; [|discriminate].
    destruct (IH rest eq_refl) as [-> Hall].
    inversion Hr; subst; split.
    + destruct k; reflexivity.
    + constructor; eauto.
Qed.

Lemma Array_filter_total f l :
  Forall (fun x => exists k, f x = Ok k) l ->
  Array_filter f l = Ok (filter (keeps f) l).
Proof.
  induction 1 as [|x l [k Hx] _ IH]; simpl; auto.
  unfold keeps at 1; rewrite Hx, IH; simpl; destruct k; reflexivity.
Qed.


Lemma Array_filter_ext f g l :
  (forall x, In x l -> f x = g x) -> Array_filter f l = Array_filter g l.
Proof.
  induction l as [|x l IH]; simpl; intros Hfg; auto.
  rewrite (Hfg x), IH; auto.
Qed.

Lemma filter_length_mono (p q : A -> bool) l :
  (forall x, In x l -> p x = true -> q x = true) ->
  (List.length (filter p l) <= List.length (filter q l))%nat.
Proof.
  induction l as [|x l IH]; simpl; intros Hpq; auto.
  assert (Hl := IH (fun y Hy => Hpq y (or_intror Hy))).
  destruct (p x) eqn:Hp.
  - rewrite (Hpq x (or_introl eq_refl) Hp); simpl; lia.
  - destruct (q x); simpl; lia.
Qed.

End ArrayFacts.

Section ForOfFacts.
Context {A S : Type}.
Variable body : S -> A -> result S.

Lemma for_of_app l1 l2 s :
  for_of body (l1 ++ l2) s = (s' <- for_of body l1 s ;; for_of body l2 s').
Proof.
  revert s; induction l1 as [|x l1 IH]; simpl; intros s; auto.
  destruct (body s x); simpl; auto.
Qed.

(** An invariant indexed by the elements processed so far. *)
Lemma for_of_invariant (I : list A -> S -> Prop) l s0 s :
  I [] s0 ->
  (forall p x s s', I p s -> body s x = Ok s' -> I (p ++ [x]) s') ->
  for_of body l s0 = Ok s -> I l s.
Proof.
  intros H0 Hstep.
  assert (G : forall l p s1 s2, I p s1 -> for_of body l s1 = Ok s2 -> I (p ++ l) s2).
  { clear l s0 s H0. induction l as [|x l IH]; simpl; intros p s1 s2 Hp Hl.
    - rewrite app_nil_r; inversion Hl; subst; auto.
    - destruct (body s1 x) as [s'|] eqn:Hb; simpl in Hl; [|discriminate].
      replace (p ++ x :: l) with ((p ++ [x]) ++ l)
        by (rewrite <- app_assoc; reflexivity).
      eapply IH; eauto. }
  intros Hl; apply (G l [] s0 s H0 Hl).
Qed.

Lemma for_of_Throw l s x :
  In x l -> (forall s', is_Throw (body s' x) = true) ->
  for_of body l s = Throw TypeError.
Proof.
  revert s; induction l as [|y l IH]; simpl; [tauto|].
  intros s [->|Hin] Hx.
  - specialize (Hx s); destruct (body s x); [discriminate|apply Throw_TypeError].
  - destruct (body s y); simpl; [|apply Throw_TypeError]; auto.
Qed.

Lemma for_of_total l s :
  (forall x s', In x l -> exists s'', body s' x = Ok s'') ->
  exists s', for_of body l s = Ok s'.
Proof.
  revert s; induction l as [|x l IH]; simpl; intros s Hb; eauto.
  destruct (Hb x s (or_introl eq_refl)) as [s'' ->]; simpl.
  apply IH; intros; apply Hb; auto.
Qed.

End ForOfFacts.

(* ------------------------------------------------------------------ *)
(** ** The stable sort *)

Section SortFacts.
Context {A : Type}.
Variable gt : A -> A -> bool.

Lemma sort_insert_perm x l : Permutation (sort_insert gt x l) (x :: l).
Proof.
  induction l as [|y l IH]; simpl; auto.
  destruct (gt x y); auto.
  rewrite IH; apply perm_swap.
Qed.

Lemma Array_sort_perm l : Permutation (Array_sort gt l) l.
Proof.
  induction l as [|x l IH]; simpl; auto.
  rewrite sort_insert_perm; auto.
Qed.

Lemma Array_sort_length l : List.length (Array_sort gt l) = List.length l.
Proof. apply Permutation_length, Array_sort_perm. Qed.

Lemma Array_sort_In x l : In x (Array_sort gt l) <-> In x l.
Proof.
  split; apply Permutation_in;
    [apply Array_sort_perm | apply Permutation_sym, Array_sort_perm].
Qed.

(** On elements satisfying [P] the comparator is a strict weak order, and
    the input is ordered by [T]: in the output, of two elements the first
    is not greater than the second, and they keep their [T] order unless
    the comparator separates them. *)
Variable P : A -> Prop.
Variable T : A -> A -> Prop.
Hypothesis gt_asym :
  forall a b, P a -> P b -> gt a b = true -> gt b a = false.
Hypothesis gt_negtrans :
  forall a b c, P a -> P b -> P c ->
                gt a b = false -> gt b c = false -> gt a c = false.

Definition precedes (a b : A) : Prop :=
  gt a b = false /\ (gt b a = true \/ T a b).

Lemma sort_insert_sorted x l :
  P x -> Forall P l -> Forall (T x) l ->
  StronglySorted precedes l ->
  StronglySorted precedes (sort_insert gt x l).
Proof.
  intros Px HP HT Hs; induction Hs as [|y l Hs IH Hy]; simpl.
  - repeat constructor.
  - inversion HP as [|? ? Py HPl]; subst.
    inversion HT as [|? ? Txy HTl]; subst.
    destruct (gt x y) eqn:Hxy.
    + constructor; [apply IH; auto|].
      apply Forall_forall; intros z Hz.
      apply (Permutation_in _ (sort_insert_perm x l)) in Hz.
      destruct Hz as [<-|Hz].
      * split; auto.
      * rewrite Forall_forall in Hy; auto.
    + constructor; [constructor; auto|].
      constructor; [split; auto|].
      apply Forall_forall; intros z Hz.
      rewrite Forall_forall in Hy, HPl, HTl.
      split; [|right; auto].
      destruct (Hy z Hz) as [Hyz _]; eauto.
Qed.

Lemma Array_sort_stable l :
  Forall P l -> StronglySorted T l ->
  StronglySorted precedes (Array_sort gt l).
Proof.
  intros HP Hs; induction Hs as [|x l Hs IH Hx]; simpl; [constructor|].
  inversion HP as [|? ? Px HPl]; subst.
  apply sort_insert_sorted.
  - exact Px.
  - apply Forall_forall; intros z Hz; apply (proj1 (Array_sort_In _ _)) in Hz.
    rewrite Forall_forall in HPl; auto.
  - apply Forall_forall; intros z Hz; apply (proj1 (Array_sort_In _ _)) in Hz.
    rewrite Forall_forall in Hx; auto.
  - apply IH; exact HPl.
Qed.

End SortFacts.

Lemma StronglySorted_impl {A : Type} (R R' : A -> A -> Prop) (l : list A) :
  (forall a b, In a l -> In b l -> R a b -> R' a b) ->
  StronglySorted R l -> StronglySorted R' l.
Proof.
  intros Himp Hs; induction Hs as [|x l Hs IH Hx]; constructor.
  - apply IH; intros; apply Himp; simpl; auto.
  - rewrite Forall_forall in *; intros z Hz; apply Himp; simpl; auto.
Qed.

Lemma StronglySorted_map {A B : Type} (R : B -> B -> Prop) (f : A -> B) l :
  StronglySorted (fun a b => R (f a) (f b)) l -> StronglySorted R (map f l).
Proof.
  induction 1 as [|x l Hs IH Hx]; simpl; constructor; auto.
  rewrite Forall_map; auto.
Qed.

Lemma StronglySorted_filter {A : Type} (R : A -> A -> Prop) (p : A -> bool) l :
  StronglySorted R l -> StronglySorted R (filter p l).
Proof.
  induction 1 as [|x l Hs IH Hx]; simpl; [constructor|].
  destruct (p x); auto; constructor; auto.
  rewrite Forall_forall in *; intros z Hz; apply filter_In in Hz; apply Hx, Hz.
Qed.

Lemma StronglySorted_app {A : Type} (R : A -> A -> Prop) l1 l2 :
  StronglySorted R l1 -> StronglySorted R l2 ->
  (forall a b, In a l1 -> In b l2 -> R a b) ->
  StronglySorted R (l1 ++ l2).
Proof.
  induction 1 as [|x l1 Hs IH Hx]; simpl; intros H2 H12; auto.
  constructor; [apply IH; auto|].
  apply Forall_app; split; auto.
  apply Forall_forall; intros; apply H12; auto.
Qed.

(** In a strongly sorted list the element at a smaller position is related
    to the element at a larger one. *)
Lemma StronglySorted_nth {A : Type} (R : A -> A -> Prop) l d i j :
  StronglySorted R l -> (i < j)%nat -> (j < List.length l)%nat ->
  R (nth i l d) (nth j l d).
Proof.
  intros Hs; revert i j; induction Hs as [|x l Hs IH Hx]; simpl; intros i j Hij Hj.
  - lia.
  - destruct j as [|j]; [lia|]. destruct i as [|i].
    + rewrite Forall_forall in Hx; apply Hx, nth_In; lia.
    + apply IH; lia.
Qed.

(* ------------------------------------------------------------------ *)
(** ** The order of binary64 numbers *)

Module FloatOrder.

Ltac sf_step :=
  match goal with
  | s : bool |- _ => destruct s
  | |- context [Z.compare ?a ?b] => destruct (Z.compare_spec a b)
  | H : context [Z.compare ?a ?b] |- _ => destruct (Z.compare_spec a b)
  | |- context [Pos.compare ?a ?b] => destruct (Pos.compare_spec a b)
  | H : context [Pos.compare ?a ?b] |- _ => destruct (Pos.compare_spec a b)
  | |- context [PosDef.Pos.compare_cont Eq ?a ?b] =>
      change (PosDef.Pos.compare_cont Eq a b) with (Pos.compare a b)
  | H : context [PosDef.Pos.compare_cont Eq ?a ?b] |- _ =>
      change (PosDef.Pos.compare_cont Eq a b) with (Pos.compare a b) in H
  end.

Ltac sf_order :=
  unfold SFleb, SFltb, SFeqb, SFcompare; intros;
  repeat sf_step; simpl in *; repeat sf_step; simpl in *;
  subst; try congruence; try lia.

Lemma SFleb_ltb_trans x y z :
  SFleb x y = true -> SFltb y z = true -> SFleb x z = true.
Proof.
  destruct x as [sx|sx| |sx mx ex], y as [sy|sy| |sy my ey],
           z as [sz|sz| |sz mz ez]; sf_order.
Qed.

Lemma SFleb_trans x y z :
  SFleb x y = true -> SFleb y z = true -> SFleb x z = true.
Proof.
  destruct x as [sx|sx| |sx mx ex], y as [sy|sy| |sy my ey],
           z as [sz|sz| |sz mz ez]; sf_order.
Qed.

Lemma SFleb_total x y :
  SFeqb x x = true -> SFeqb y y = true -> SFltb y x = false ->
  SFleb x y = true.
Proof.
  destruct x as [sx|sx| |sx mx ex], y as [sy|sy| |sy my ey]; sf_order.
Qed.

Lemma SFltb_asym x y : SFltb x y = true -> SFltb y x = false.
Proof.
  destruct x as [sx|sx| |sx mx ex], y as [sy|sy| |sy my ey]; sf_order.
Qed.

Lemma SFleb_not_ltb x y : SFleb x y = true -> SFltb y x = false.
Proof.
  destruct x as [sx|sx| |sx mx ex], y as [sy|sy| |sy my ey]; sf_order.
Qed.

(** The sign of a difference.  The difference of two finite numbers is
    rounded from an exact integer mantissa at the smaller of the two
    exponents, and rounding keeps a positive mantissa positive. *)
Local Open Scope Z_scope.

Section Rounding.
Variables prec emax : Z.
Hypothesis prec_pos : 0 < prec.

Definition positive_sf (x : spec_float) : bool := SFltb (S754_zero false) x.

Lemma pow2_pred d : 0 < d -> 2 ^ d = 2 * 2 ^ (d - 1).
Proof.
  intros Hd; replace d with (Z.succ (d - 1)) at 1 by lia.
  rewrite Z.pow_succ_r by lia; reflexivity.
Qed.

Lemma digits2_pos_bounds p :
  2 ^ (Zpos (digits2_pos p) - 1) <= Zpos p < 2 ^ Zpos (digits2_pos p).
Proof.
  induction p as [p IH|p IH|]; simpl digits2_pos.
  - rewrite Pos2Z.inj_succ.
    replace (Z.succ (Z.pos (digits2_pos p)) - 1) with (Z.pos (digits2_pos p)) by lia.
    rewrite Z.pow_succ_r by lia.
    rewrite (pow2_pred (Z.pos (digits2_pos p))) in * by lia.
    change (Z.pos p~1) with (2 * Z.pos p + 1); lia.
  - rewrite Pos2Z.inj_succ.
    replace (Z.succ (Z.pos (digits2_pos p)) - 1) with (Z.pos (digits2_pos p)) by lia.
    rewrite Z.pow_succ_r by lia.
    rewrite (pow2_pred (Z.pos (digits2_pos p))) in * by lia.
    change (Z.pos p~0) with (2 * Z.pos p); lia.
  - simpl; lia.
Qed.

Lemma shr_1_m rec : 0 <= shr_m rec -> shr_m (shr_1 rec) = shr_m rec / 2.
Proof.
  destruct rec as [m r s]; simpl.
  destruct m as [|[p|p|]|p]; simpl; intros Hm; try lia.
  - reflexivity.
  - change (Z.pos p~1) with (2 * Z.pos p + 1); Z.div_mod_to_equations; lia.
  - change (Z.pos p~0) with (2 * Z.pos p); Z.div_mod_to_equations; lia.
  - reflexivity.
Qed.

Lemma iter_shr_1_m n : forall rec,
  0 <= shr_m rec ->
  shr_m (iter_pos shr_1 n rec) = shr_m rec / 2 ^ Zpos n.
Proof.
  induction n as [n IH|n IH|]; intros rec Hm; simpl iter_pos.
  - assert (H1 : 0 <= shr_m (shr_1 rec))
      by (rewrite shr_1_m by auto; apply Z.div_pos; lia).
    assert (H2 : 0 <= shr_m (iter_pos shr_1 n (shr_1 rec)))
      by (rewrite IH by auto; apply Z.div_pos; [auto|apply Z.pow_pos_nonneg; lia]).
    rewrite IH, IH, shr_1_m by auto.
    rewrite !Z.div_div by (try apply Z.pow_pos_nonneg; lia).
    f_equal. change (Z.pos n~1) with (2 * Z.pos n + 1).
    replace (2 * Z.pos n + 1) with (1 + Z.pos n + Z.pos n) by lia.
    rewrite !Z.pow_add_r by lia. rewrite Z.pow_1_r. lia.
  - assert (H2 : 0 <= shr_m (iter_pos shr_1 n rec))
      by (rewrite IH by auto; apply Z.div_pos; [auto|apply Z.pow_pos_nonneg; lia]).
    rewrite IH, IH by auto.
    rewrite !Z.div_div by (try apply Z.pow_pos_nonneg; lia).
    f_equal. change (Z.pos n~0) with (2 * Z.pos n).
    replace (2 * Z.pos n) with (Z.pos n + Z.pos n) by lia.
    rewrite !Z.pow_add_r by lia. lia.
  - rewrite shr_1_m by auto. reflexivity.
Qed.

Lemma shr_record_of_loc_m m l : shr_m (shr_record_of_loc m l) = m.
Proof. destruct l as [|[]]; reflexivity. Qed.

Lemma Zdigits2_bounds m : 0 < m -> 2 ^ (Zdigits2 m - 1) <= m /\ 0 < Zdigits2 m.
Proof.
  destruct m as [|p|p]; try lia; intros _; simpl.
  split; [apply digits2_pos_bounds|lia].
Qed.

Lemma shr_fexp_pos m e l :
  0 < m -> (SpecFloat.emin prec emax) <= e ->
  0 < shr_m (fst (shr_fexp prec emax m e l))
  /\ (SpecFloat.emin prec emax) <= snd (shr_fexp prec emax m e l).
Proof.
  intros Hm He; unfold shr_fexp, shr, SpecFloat.fexp.
  destruct (Zdigits2_bounds m Hm) as [Hd Hd0].
  destruct (Z.max (Zdigits2 m + e - prec) (SpecFloat.emin prec emax) - e) as [|n|n] eqn:Hn; simpl;
    rewrite ?shr_record_of_loc_m; try (split; lia).
  rewrite iter_shr_1_m by (rewrite shr_record_of_loc_m; lia).
  rewrite shr_record_of_loc_m; split; [|lia].
  apply Z.div_str_pos; split; [apply Z.pow_pos_nonneg; lia|].
  eapply Z.le_trans; [|exact Hd].
  apply Z.pow_le_mono_r; lia.
Qed.

Lemma round_nearest_even_ge m l : m <= round_nearest_even m l.
Proof.
  destruct l as [|[]]; simpl; try lia.
  destruct (Z.even m); lia.
Qed.

Lemma binary_round_aux_pos mx ex lx :
  0 < mx -> (SpecFloat.emin prec emax) <= ex ->
  positive_sf (binary_round_aux prec emax false mx ex lx) = true.
Proof.
  intros Hm He; unfold binary_round_aux.
  destruct (shr_fexp_pos mx ex lx Hm He) as [H1 H2].
  destruct (shr_fexp prec emax mx ex lx) as [mrs' e']; simpl in H1, H2.
  assert (Hr := round_nearest_even_ge (shr_m mrs') (loc_of_shr_record mrs')).
  destruct (shr_fexp_pos (round_nearest_even (shr_m mrs') (loc_of_shr_record mrs'))
              e' loc_Exact ltac:(lia) H2) as [H3 H4].
  destruct (shr_fexp prec emax _ e' loc_Exact) as [mrs'' e'']; simpl in H3.
  destruct (shr_m mrs''); try lia.
  destruct (e'' <=? emax - prec); reflexivity.
Qed.

Lemma binary_round_pos m e :
  (SpecFloat.emin prec emax) <= e -> positive_sf (binary_round prec emax false m e) = true.
Proof.
  intros He; unfold binary_round, shl_align.
  destruct (SpecFloat.fexp prec emax (Z.pos (digits2_pos m) + e) - e) eqn:Hn;
    apply binary_round_aux_pos; try lia.
  unfold SpecFloat.fexp; lia.
Qed.

Lemma binary_round_neg m e :
  positive_sf (binary_round prec emax true m e) = false.
Proof.
  unfold binary_round, binary_round_aux.
  destruct (shl_align _ _ _) as [mz ez].
  destruct (shr_fexp prec emax (Z.pos mz) ez loc_Exact) as [mrs' e'].
  destruct (shr_fexp prec emax _ e' loc_Exact) as [mrs'' e''].
  destruct (shr_m mrs''); try reflexivity.
  destruct (e'' <=? emax - prec); reflexivity.
Qed.

Lemma binary_normalize_positive m e :
  (SpecFloat.emin prec emax) <= e ->
  positive_sf (binary_normalize prec emax m e false) = (0 <? m).
Proof.
  intros He; destruct m; simpl binary_normalize.
  - reflexivity.
  - rewrite binary_round_pos by auto; reflexivity.
  - rewrite binary_round_neg; reflexivity.
Qed.

Lemma iter_xO p d : Zpos (Pos.iter xO p d) = Zpos p * 2 ^ Zpos d.
Proof.
  induction d as [|d IH] using Pos.peano_ind.
  - simpl; lia.
  - rewrite Pos.iter_succ, Pos2Z.inj_succ, Z.pow_succ_r by lia.
    change (Z.pos (Pos.iter xO p d)~0) with (2 * Z.pos (Pos.iter xO p d)).
    rewrite IH; lia.
Qed.

Lemma shl_align_fst m e e' :
  e' <= e -> Zpos (fst (shl_align m e e')) = Zpos m * 2 ^ (e - e').
Proof.
  intros He; unfold shl_align.
  destruct (e' - e) as [|d|d] eqn:Hd; cbn [fst]; try lia.
  - replace (e - e') with 0 by lia; rewrite Z.pow_0_r; lia.
  - rewrite iter_xO; f_equal; f_equal; lia.
Qed.

Lemma bounded_canonical m e :
  bounded prec emax m e = true ->
  (SpecFloat.emin prec emax) <= e /\ Zpos (digits2_pos m) <= prec
  /\ ((SpecFloat.emin prec emax) < e -> Zpos (digits2_pos m) = prec).
Proof.
  unfold bounded, canonical_mantissa, SpecFloat.fexp.
  intros Hb; apply andb_true_iff in Hb; destruct Hb as [Hc _].
  apply Z.eqb_eq in Hc; lia.
Qed.

(** A canonical number with the larger exponent is the larger one. *)
Lemma aligned_lt mx ex my ey :
  bounded prec emax mx ex = true -> bounded prec emax my ey = true ->
  ey < ex -> Zpos my < Zpos mx * 2 ^ (ex - ey).
Proof.
  intros Hx Hy Hlt.
  destruct (bounded_canonical _ _ Hx) as (Hex & _ & Hnx).
  destruct (bounded_canonical _ _ Hy) as (Hey & Hdy & _).
  assert (Hdx : Zpos (digits2_pos mx) = prec) by (apply Hnx; lia).
  destruct (digits2_pos_bounds mx) as [Hmx _].
  destruct (digits2_pos_bounds my) as [_ Hmy].
  rewrite Hdx in Hmx.
  assert (Hp : 2 ^ Zpos (digits2_pos my) <= 2 ^ prec)
    by (apply Z.pow_le_mono_r; lia).
  assert (Hk : 2 ^ 1 <= 2 ^ (ex - ey)) by (apply Z.pow_le_mono_r; lia).
  assert (Hpp : 2 ^ prec = 2 * 2 ^ (prec - 1)).
  { replace prec with (Z.succ (prec - 1)) at 1 by lia.
    rewrite Z.pow_succ_r by lia; reflexivity. }
  rewrite Z.pow_1_r in Hk.
  assert (0 < 2 ^ (prec - 1)) by (apply Z.pow_pos_nonneg; lia).
  nia.
Qed.

Definition finite_sf (x : spec_float) : bool :=
  match x with
  | S754_zero _ | S754_finite _ _ _ => true
  | _ => false
  end.

Lemma SFltb_finite sy my ey sx mx ex :
  SFltb (S754_finite sy my ey) (S754_finite sx mx ex)
  = match sy, sx with
    | true, false => true
    | false, true => false
    | false, false => (ey <? ex) || ((ey =? ex) && (Zpos my <? Zpos mx))
    | true, true => (ex <? ey) || ((ex =? ey) && (Zpos mx <? Zpos my))
    end.
Proof.
  unfold SFltb, SFcompare; destruct sy, sx; auto;
    change (PosDef.Pos.compare_cont Eq my mx) with (Pos.compare my mx);
    destruct (Z.compare_spec ey ex); destruct (Pos.compare_spec my mx);
    cbn [CompOpp]; symmetry;
    try (apply orb_true_iff; rewrite andb_true_iff, !Z.ltb_lt, Z.eqb_eq; lia);
    apply orb_false_iff; rewrite andb_false_iff, !Z.ltb_ge, Z.eqb_neq; lia.
Qed.

Lemma SFsub_positive x y :
  SpecFloat.valid_binary prec emax x = true ->
  SpecFloat.valid_binary prec emax y = true ->
  finite_sf x = true -> finite_sf y = true ->
  positive_sf (SFsub prec emax x y) = SFltb y x.
Proof.
  destruct x as [sx|sx| |sx mx ex], y as [sy|sy| |sy my ey];
    try discriminate; intros Hx Hy _ _.
  - destruct sx, sy; reflexivity.
  - destruct sy; reflexivity.
  - destruct sx; reflexivity.
  - simpl in Hx, Hy; unfold SFsub.
    destruct (bounded_canonical _ _ Hx) as (Hex & _).
    destruct (bounded_canonical _ _ Hy) as (Hey & _).
    rewrite binary_normalize_positive by lia.
    rewrite !shl_align_fst by lia.
    rewrite SFltb_finite.
    assert (Hlt := aligned_lt mx ex my ey Hx Hy).
    assert (Hgt := aligned_lt my ey mx ex Hy Hx).
    assert (Heq : ex = ey ->
                  Zpos mx * 2 ^ (ex - Z.min ex ey) = Zpos mx
                  /\ Zpos my * 2 ^ (ey - Z.min ex ey) = Zpos my).
    { intros ->; rewrite Z.min_id, Z.sub_diag, Z.pow_0_r; lia. }
    assert (Hl : ey < ex ->
                 Zpos my * 2 ^ (ey - Z.min ex ey)
                 < Zpos mx * 2 ^ (ex - Z.min ex ey)).
    { intros He; rewrite Z.min_r, Z.sub_diag, Z.pow_0_r by lia.
      specialize (Hlt He); lia. }
    assert (Hg : ex < ey ->
                 Zpos mx * 2 ^ (ex - Z.min ex ey)
                 < Zpos my * 2 ^ (ey - Z.min ex ey)).
    { intros He; rewrite Z.min_l, Z.sub_diag, Z.pow_0_r by lia.
      specialize (Hgt He); lia. }
    assert (Px : 0 < Zpos mx * 2 ^ (ex - Z.min ex ey))
      by (apply Z.mul_pos_pos; [lia|apply Z.pow_pos_nonneg; lia]).
    assert (Py : 0 < Zpos my * 2 ^ (ey - Z.min ex ey))
      by (apply Z.mul_pos_pos; [lia|apply Z.pow_pos_nonneg; lia]).
    clear Hlt Hgt.
    generalize dependent (Zpos mx * 2 ^ (ex - Z.min ex ey)).
    generalize dependent (Zpos my * 2 ^ (ey - Z.min ex ey)).
    intros Y Py X Heq Hl Hg Px.
    apply Bool.eq_iff_eq_true.
    destruct sx, sy; cbn [cond_Zopp];
      rewrite ?orb_true_iff, ?andb_true_iff, ?Z.ltb_lt, ?Z.eqb_eq;
      split; try discriminate; try reflexivity; try lia.
Qed.

End Rounding.

Local Open Scope float_scope.

Lemma leb_ltb_trans (x y z : float) :
  (x <=? y) = true -> (y <? z) = true -> (x <=? z) = true.
Proof.
  rewrite !FloatAxioms.leb_spec, FloatAxioms.ltb_spec.
  apply SFleb_ltb_trans.
Qed.

Lemma leb_trans (x y z : float) :
  (x <=? y) = true -> (y <=? z) = true -> (x <=? z) = true.
Proof. rewrite !FloatAxioms.leb_spec; apply SFleb_trans. Qed.

Lemma leb_total (x y : float) :
  is_nan x = false -> is_nan y = false ->
  (y <? x) = false -> (x <=? y) = true.
Proof.
  unfold is_nan; rewrite !negb_false_iff.
  rewrite !FloatAxioms.eqb_spec, FloatAxioms.ltb_spec, FloatAxioms.leb_spec.
  apply SFleb_total.
Qed.

Lemma ltb_asym (x y : float) : (x <? y) = true -> (y <? x) = false.
Proof. rewrite !FloatAxioms.ltb_spec; apply SFltb_asym. Qed.

Lemma leb_not_ltb (x y : float) : (x <=? y) = true -> (y <? x) = false.
Proof.
  rewrite FloatAxioms.ltb_spec, FloatAxioms.leb_spec; apply SFleb_not_ltb.
Qed.

Lemma is_finite_SF (a : float) :
  is_finite a = true -> finite_sf (Prim2SF a) = true.
Proof.
  unfold is_finite, is_nan, is_infinity.
  rewrite !FloatAxioms.eqb_spec, FloatAxioms.abs_spec.
  change (Prim2SF infinity) with (S754_infinity false).
  destruct (Prim2SF a) as [s|s| |s m e]; simpl; auto.
  destruct s; simpl; auto.
Qed.

Lemma sub_positive (a b : float) :
  is_finite a = true -> is_finite b = true ->
  (0 <? a - b) = (b <? a).
Proof.
  intros Ha Hb.
  rewrite !FloatAxioms.ltb_spec, FloatAxioms.sub_spec.
  change (Prim2SF 0) with (S754_zero false).
  apply (SFsub_positive prec emax); try reflexivity;
    auto using FloatAxioms.Prim2SF_valid, is_finite_SF.
Qed.

Lemma is_finite_not_nan (a : float) : is_finite a = true -> is_nan a = false.
Proof.
  unfold is_finite; intros Ha; apply negb_true_iff, orb_false_iff in Ha; tauto.
Qed.

End FloatOrder.

(* ------------------------------------------------------------------ *)
(** ** Objects used as maps *)

(** Position of the first occurrence of [k], the length of the list when
    there is none. *)
Fixpoint first_index (k : string) (l : list string) : nat :=
  match l with
  | [] => 0
  | x :: l' => if String.eqb x k then 0 else S (first_index k l')
  end.

(** The keys of an object after the assignments [o[k] = ...] for the [k] of
    a list, in turn. *)
Definition add_key (acc : list string) (k : string) : list string :=
  if existsb (String.eqb k) acc then acc else acc ++ [k].

Definition first_ids (l : list string) : list string :=
  fold_left add_key l [].

Lemma existsb_eqb_In (k : string) (l : list string) :
  existsb (String.eqb k) l = true <-> In k l.
Proof.
  rewrite existsb_exists; split.
  - intros [x [Hx He]]; apply String.eqb_eq in He; subst; auto.
  - intros Hk; exists k; split; auto; apply String.eqb_refl.
Qed.

Lemma first_index_app_In k l l' :
  In k l -> first_index k (l ++ l') = first_index k l.
Proof.
  induction l as [|x l IH]; simpl; [tauto|].
  destruct (String.eqb x k) eqn:He; auto.
  intros [->|Hk]; [rewrite String.eqb_refl in He; discriminate|].
  rewrite IH; auto.
Qed.

Lemma first_index_app_notin k l l' :
  ~ In k l -> first_index k (l ++ l') = (List.length l + first_index k l')%nat.
Proof.
  induction l as [|x l IH]; simpl; auto.
  intros Hk; destruct (String.eqb x k) eqn:He.
  - apply String.eqb_eq in He; tauto.
  - rewrite IH; auto.
Qed.

Lemma first_index_lt k l : In k l -> (first_index k l < List.length l)%nat.
Proof.
  induction l as [|x l IH]; simpl; [tauto|].
  destruct (String.eqb x k) eqn:He; [lia|].
  intros [->|Hk]; [rewrite String.eqb_refl in He; discriminate|].
  apply IH in Hk; lia.
Qed.

Lemma first_ids_snoc l k : first_ids (l ++ [k]) = add_key (first_ids l) k.
Proof. unfold first_ids; rewrite fold_left_app; reflexivity. Qed.

Lemma first_ids_In l : forall k, In k (first_ids l) <-> In k l.
Proof.
  induction l as [|x l IH] using rev_ind; intros k; [simpl; tauto|].
  rewrite first_ids_snoc, in_app_iff; unfold add_key.
  destruct (existsb (String.eqb x) (first_ids l)) eqn:He.
  - apply (proj1 (existsb_eqb_In _ _)) in He; apply (proj1 (IH _)) in He.
    rewrite IH; simpl.
    split; [tauto|]; intros [H|[<-|[]]]; auto.
  - rewrite in_app_iff, IH; tauto.
Qed.

Lemma first_ids_NoDup l : NoDup (first_ids l).
Proof.
  induction l as [|x l IH] using rev_ind; [constructor|].
  rewrite first_ids_snoc; unfold add_key.
  destruct (existsb (String.eqb x) (first_ids l)) eqn:He; auto.
  apply NoDup_app; [auto|repeat constructor; simpl; tauto|].
  intros y Hy [<-|[]].
  apply (proj2 (existsb_eqb_In _ _)) in Hy; congruence.
Qed.

(** The keys come in the order of their first occurrence. *)
Lemma first_ids_sorted l :
  StronglySorted (fun a b => (first_index a l < first_index b l)%nat)
                 (first_ids l).
Proof.
  induction l as [|x l IH] using rev_ind; [constructor|].
  assert (Hold : StronglySorted
            (fun a b => (first_index a (l ++ [x]) < first_index b (l ++ [x]))%nat)
            (first_ids l)).
  { eapply StronglySorted_impl; [|exact IH]; simpl.
    intros a b Ha Hb.
    apply (proj1 (first_ids_In _ _)) in Ha; apply (proj1 (first_ids_In _ _)) in Hb.
    rewrite !first_index_app_In; auto. }
  rewrite first_ids_snoc; unfold add_key.
  destruct (existsb (String.eqb x) (first_ids l)) eqn:He; auto.
  apply StronglySorted_app; auto; [repeat constructor|].
  intros a b Ha [<-|[]].
  assert (Hx : ~ In x l).
  { intros Hin; apply (proj2 (first_ids_In _ _)) in Hin.
    apply (proj2 (existsb_eqb_In _ _)) in Hin; congruence. }
  apply (proj1 (first_ids_In _ _)) in Ha.
  rewrite first_index_app_In, first_index_app_notin; auto.
  apply first_index_lt in Ha; lia.
Qed.

Module JSObjectFacts.
Import JSObject.

Section WithValues.
Context {V : Type}.
Implicit Types (o : t V) (k : string) (v : V).

Lemma get_own_In o k v : get_own o k = Some v -> In (k, v) o.
Proof.
  induction o as [|[k' v'] o IH]; simpl; [discriminate|].
  destruct (String.eqb k' k) eqn:He; auto.
  apply String.eqb_eq in He; subst; intros [= ->]; auto.
Qed.

Lemma get_own_None o k : get_own o k = None <-> ~ In k (map fst o).
Proof.
  induction o as [|[k' v'] o IH]; simpl; [tauto|].
  destruct (String.eqb k' k) eqn:He.
  - apply String.eqb_eq in He; split; [discriminate|tauto].
  - apply String.eqb_neq in He; rewrite IH; tauto.
Qed.

Lemma In_get_own o k v :
  NoDup (map fst o) -> In (k, v) o -> get_own o k = Some v.
Proof.
  induction o as [|[k' v'] o IH]; simpl; [tauto|].
  intros Hnd Hin; inversion Hnd as [|? ? Hk Hnd']; subst.
  destruct (String.eqb k' k) eqn:He.
  - apply String.eqb_eq in He; subst.
    destruct Hin as [[= ->]|Hin]; auto.
    exfalso; apply Hk; apply (in_map fst) in Hin; auto.
  - apply String.eqb_neq in He.
    destruct Hin as [[= -> ->]|Hin]; [tauto|auto].
Qed.

Lemma keys_set o k v : map fst (set o k v) = add_key (map fst o) k.
Proof.
  unfold add_key; induction o as [|[k' v'] o IH]; simpl; auto.
  rewrite (String.eqb_sym k k').
  destruct (String.eqb k' k) eqn:He; simpl; auto.
  rewrite IH; destruct (existsb (String.eqb k) (map fst o)); auto.
Qed.

Lemma get_own_set o k v k' :
  get_own (set o k v) k' = if String.eqb k k' then Some v else get_own o k'.
Proof.
  induction o as [|[k0 v0] o IH]; simpl; auto.
  destruct (String.eqb k0 k) eqn:He; simpl.
  - apply String.eqb_eq in He; subst; destruct (String.eqb k k'); auto.
  - rewrite IH; destruct (String.eqb k0 k') eqn:He'; auto.
    apply String.eqb_eq in He'; subst; rewrite String.eqb_sym, He; auto.
Qed.

Lemma array_index_inj k1 k2 n :
  array_index k1 = Some n -> array_index k2 = Some n -> k1 = k2.
Proof.
  unfold array_index; intros H1 H2.
  destruct (digits 0 k1) as [n1|]; [|discriminate].
  destruct (digits 0 k2) as [n2|]; [|discriminate].
  destruct ((n1 <=? 4294967294)%N && String.eqb (ToString n1) k1) eqn:E1;
    [|discriminate].
  destruct ((n2 <=? 4294967294)%N && String.eqb (ToString n2) k2) eqn:E2;
    [|discriminate].
  apply andb_true_iff in E1, E2; destruct E1 as [_ E1], E2 as [_ E2].
  apply String.eqb_eq in E1, E2; congruence.
Qed.

Lemma own_properties_perm o : Permutation (own_properties o) o.
Proof.
  unfold own_properties; rewrite Array_sort_perm.
  induction o as [|kv o IH]; simpl; auto.
  destruct (is_array_index (fst kv)); simpl; auto.
  rewrite <- Permutation_middle; auto.
Qed.

Lemma values_In o v :
  In v (values o) <-> exists k, In (k, v) o.
Proof.
  unfold values; rewrite in_map_iff; split.
  - intros [[k v'] [<- Hin]]; exists k.
    apply (Permutation_in _ (own_properties_perm o)); auto.
  - intros [k Hin]; exists (k, v); split; auto.
    apply (Permutation_in _ (Permutation_sym (own_properties_perm o))); auto.
Qed.

End WithValues.
End JSObjectFacts.

(** The order in which [Object.values] enumerates the keys of an object
    whose keys were created in the order of their first occurrence in [ids]:
    array indices first, by numeric value, then the other keys as created. *)
Definition enum_before (ids : list string) (a b : string) : Prop :=
  match JSObject.array_index a, JSObject.array_index b with
  | Some m, Some n => (m < n)%N
  | Some _, None => True
  | None, Some _ => False
  | None, None => (first_index a ids < first_index b ids)%nat
  end.

Lemma NoDup_StronglySorted {A B : Type} (f : A -> B) (l : list A) :
  NoDup (map f l) -> StronglySorted (fun a b => f a <> f b) l.
Proof.
  induction l as [|x l IH]; simpl; intros Hnd; [constructor|].
  inversion Hnd as [|? ? Hx Hnd']; subst; constructor; auto.
  apply Forall_forall; intros y Hy He; apply Hx; rewrite He; apply in_map; auto.
Qed.

Lemma StronglySorted_map_inv {A B : Type} (R : B -> B -> Prop) (f : A -> B) l :
  StronglySorted R (map f l) -> StronglySorted (fun a b => R (f a) (f b)) l.
Proof.
  induction l as [|x l IH]; simpl; intros Hs; [constructor|].
  inversion Hs as [|? ? Hs' Hx]; subst; constructor; auto.
  rewrite Forall_map in Hx; auto.
Qed.

Lemma own_properties_sorted {V : Type} (ids : list string) (o : JSObject.t V) :
  NoDup (map fst o) ->
  StronglySorted (fun a b => (first_index a ids < first_index b ids)%nat)
                 (map fst o) ->
  StronglySorted (fun x y => enum_before ids (fst x) (fst y))
                 (JSObject.own_properties o).
Proof.
  intros Hnd Hs; unfold JSObject.own_properties.
  apply StronglySorted_app.
  - pose (gt := fun a b : string * V =>
                  (JSObject.index_of (fst b) <? JSObject.index_of (fst a))%N).
    assert (Hsort := @Array_sort_stable _ gt (fun _ => True)
                       (fun a b => fst a <> fst b)).
    eapply StronglySorted_impl; [|apply Hsort].
    + intros a b Ha Hb [Hab Hba].
      apply (proj1 (Array_sort_In _ _ _)) in Ha.
      apply (proj1 (Array_sort_In _ _ _)) in Hb.
      apply filter_In in Ha, Hb; destruct Ha as [_ Ha], Hb as [_ Hb].
      unfold JSObject.is_array_index in Ha, Hb.
      unfold enum_before, gt, JSObject.index_of in *.
      destruct (JSObject.array_index (fst a)) as [m|] eqn:Em; [|discriminate].
      destruct (JSObject.array_index (fst b)) as [n|] eqn:En; [|discriminate].
      apply N.ltb_ge in Hab.
      destruct Hba as [Hba|Hne]; [apply N.ltb_lt in Hba; auto|].
      destruct (N.eq_dec m n) as [->|]; [|lia].
      exfalso; apply Hne; eapply JSObjectFacts.array_index_inj; eauto.
    + unfold gt; intros a b _ _ H; apply N.ltb_lt in H; apply N.ltb_ge; lia.
    + unfold gt; intros a b c _ _ _ H1 H2.
      apply N.ltb_ge in H1, H2; apply N.ltb_ge; lia.
    + apply Forall_forall; auto.
    + apply StronglySorted_filter, NoDup_StronglySorted; auto.
  - apply StronglySorted_map_inv in Hs.
    eapply StronglySorted_impl; [|apply StronglySorted_filter, Hs].
    intros a b Ha Hb Hab; simpl in Hab.
    apply filter_In in Ha, Hb; destruct Ha as [_ Ha], Hb as [_ Hb].
    unfold JSObject.is_array_index, enum_before in *.
    destruct (JSObject.array_index (fst a)); [discriminate|].
    destruct (JSObject.array_index (fst b)); [discriminate|]; auto.
  - intros a b Ha Hb.
    apply (proj1 (Array_sort_In _ _ _)) in Ha.
    apply filter_In in Ha, Hb; destruct Ha as [_ Ha], Hb as [_ Hb].
    unfold JSObject.is_array_index, enum_before in *.
    destruct (JSObject.array_index (fst a)); [|discriminate].
    destruct (JSObject.array_index (fst b)); [discriminate|]; auto.
Qed.

(* ------------------------------------------------------------------ *)
(** ** Calendar arithmetic *)

Module JSDateFacts.
Import JSDate.
Local Open Scope Z_scope.

Lemma mod_4_100 y : y mod 100 = 0 -> y mod 4 = 0.
Proof. intros; Z.div_mod_to_equations; lia. Qed.

Lemma mod_100_400 y : y mod 400 = 0 -> y mod 100 = 0.
Proof. intros; Z.div_mod_to_equations; lia. Qed.

Lemma DayFromYear_succ y : DayFromYear (y + 1) = DayFromYear y + DaysInYear y.
Proof.
  unfold DayFromYear, DaysInYear.
  assert (H4 : (y + 1 - 1969) / 4
               = (y - 1969) / 4 + (if y mod 4 =? 0 then 1 else 0))
    by (destruct (Z.eqb_spec (y mod 4) 0); Z.div_mod_to_equations; lia).
  assert (H100 : (y + 1 - 1901) / 100
                 = (y - 1901) / 100 + (if y mod 100 =? 0 then 1 else 0))
    by (destruct (Z.eqb_spec (y mod 100) 0); Z.div_mod_to_equations; lia).
  assert (H400 : (y + 1 - 1601) / 400
                 = (y - 1601) / 400 + (if y mod 400 =? 0 then 1 else 0))
    by (destruct (Z.eqb_spec (y mod 400) 0); Z.div_mod_to_equations; lia).
  rewrite H4, H100, H400.
  destruct (Z.eqb_spec (y mod 4) 0) as [E4|E4],
           (Z.eqb_spec (y mod 100) 0) as [E100|E100],
           (Z.eqb_spec (y mod 400) 0) as [E400|E400]; cbn [negb]; try lia;
    try (pose proof (mod_100_400 _ E400)); try (pose proof (mod_4_100 _ E100));
    try (pose proof (mod_4_100 _ (mod_100_400 _ E400))); tauto.
Qed.

(** [YearFromTime t] is the year that contains [t]: its estimate, once
    corrected, is exact. *)
Lemma YearFromTime_spec t :
  DayFromYear (YearFromTime t) <= Day t < DayFromYear (YearFromTime t + 1).
Proof.
  unfold YearFromTime.
  set (d := Day t); clearbody d.
  set (y := 1970 + d * 400 / 146097).
  assert (Hlo : DayFromYear (y - 1) <= d)
    by (unfold DayFromYear, y; Z.div_mod_to_equations; lia).
  assert (Hhi : d < DayFromYear (y + 2))
    by (unfold DayFromYear, y; Z.div_mod_to_equations; lia).
  destruct (Z.ltb_spec d (DayFromYear y)).
  - replace (y - 1 + 1) with y by lia; lia.
  - destruct (Z.leb_spec (DayFromYear (y + 1)) d); [|lia].
    replace (y + 1 + 1) with (y + 2) by lia; lia.
Qed.

Lemma DaysInYear_leap y : DaysInYear y = 365 + leap_of_year y.
Proof.
  unfold leap_of_year, DaysInYear.
  destruct (negb (y mod 4 =? 0)), (negb (y mod 100 =? 0)),
           (negb (y mod 400 =? 0)); reflexivity.
Qed.

Lemma leap_of_year_range y : 0 <= leap_of_year y <= 1.
Proof. unfold leap_of_year; destruct (DaysInYear y =? 365); lia. Qed.

(** Day number of the first day of the month [month] counted from January
    of [year]. *)
Definition month_day (year month : Z) : Z :=
  DayFromYear (year + month / 12)
  + month_start (month mod 12) (leap_of_year (year + month / 12)).

Lemma MakeDay_month_day year month date :
  MakeDay year month date = month_day year month + date - 1.
Proof. reflexivity. Qed.

(** Every month has at least 28 days. *)
Lemma month_day_succ year m : month_day year m + 28 <= month_day year (m + 1).
Proof.
  unfold month_day.
  assert (Hq : (m + 1) / 12 = m / 12 /\ (m + 1) mod 12 = m mod 12 + 1
               \/ (m + 1) / 12 = m / 12 + 1 /\ m mod 12 = 11
                  /\ (m + 1) mod 12 = 0)
    by (Z.div_mod_to_equations; lia).
  assert (Hm : 0 <= m mod 12 < 12) by (apply Z.mod_pos_bound; lia).
  assert (Hm' : 0 <= (m + 1) mod 12 < 12) by (apply Z.mod_pos_bound; lia).
  destruct Hq as [[Hq Hr]|[Hq [Hr Hr']]]; rewrite Hq; [rewrite Hr in *|rewrite Hr, Hr'].
  - assert (Hl := leap_of_year_range (year + m / 12)).
    unfold month_start.
    repeat match goal with
           | |- context [?a <=? ?b] => destruct (Z.leb_spec a b)
           | |- context [?a =? ?b] => destruct (Z.eqb_spec a b)
           end; lia.
  - replace (year + (m / 12 + 1)) with (year + m / 12 + 1) by lia.
    rewrite DayFromYear_succ, DaysInYear_leap.
    assert (Hl := leap_of_year_range (year + m / 12)).
    change (month_start 11 ?l) with (334 + l).
    change (month_start 0 ?l) with 0; lia.
Qed.

Lemma month_day_mono year m1 m2 :
  m1 < m2 -> month_day year m1 + 28 <= month_day year m2.
Proof.
  intros Hlt.
  assert (G : forall n : nat,
             month_day year m1 + 28 <= month_day year (m1 + 1 + Z.of_nat n)).
  { induction n as [|n IH].
    - rewrite Z.add_0_r; apply month_day_succ.
    - assert (Hs := month_day_succ year (m1 + 1 + Z.of_nat n)).
      replace (m1 + 1 + Z.of_nat (S n)) with (m1 + 1 + Z.of_nat n + 1) by lia.
      lia. }
  specialize (G (Z.to_nat (m2 - m1 - 1))).
  replace (m1 + 1 + Z.of_nat (Z.to_nat (m2 - m1 - 1))) with m2 in G by lia.
  exact G.
Qed.

Lemma TimeClip_Some t s : TimeClip t = Some s -> s = t.
Proof. unfold TimeClip; destruct (Z.abs t <=? maxTime); congruence. Qed.

Lemma mono_arith (a b d w : Z) :
  a + 28 <= b ->
  forall ta tb : Z,
    Z.abs tb <= msPerDay -> Z.abs ta <= msPerDay ->
    (a + d - 1) * msPerDay + w - ta < (b + d - 1) * msPerDay + w - tb.
Proof. unfold msPerDay; lia. Qed.

Section WithHost.
Context {H : Host}.

(** The local time zone is never further than a day from UTC. *)
Definition tza_bounded : Prop :=
  forall t b, Z.abs (LocalTZA t b) <= msPerDay.

(** Going back more months gives an earlier date, whatever the day of
    the month and the rollover. *)
Lemma setMonth_mono now m1 m2 s1 s2 :
  tza_bounded -> m1 < m2 ->
  setMonth now m1 = Some s1 -> setMonth now m2 = Some s2 -> s1 < s2.
Proof.
  unfold setMonth; intros Htz Hlt H1 H2.
  apply TimeClip_Some in H1, H2; subst s1 s2.
  assert (Hm := month_day_mono (YearFromTime (LocalTime now)) m1 m2 Hlt).
  unfold UTC.
  generalize (Htz (MakeDate (MakeDay (YearFromTime (LocalTime now)) m1
                                     (DateFromTime (LocalTime now)))
                            (TimeWithinDay (LocalTime now))) false).
  generalize (Htz (MakeDate (MakeDay (YearFromTime (LocalTime now)) m2
                                     (DateFromTime (LocalTime now)))
                            (TimeWithinDay (LocalTime now))) false).
  unfold MakeDate; rewrite !MakeDay_month_day.
  generalize dependent (month_day (YearFromTime (LocalTime now)) m1).
  generalize dependent (month_day (YearFromTime (LocalTime now)) m2).
  generalize (DateFromTime (LocalTime now)) (TimeWithinDay (LocalTime now)).
  intros d w b a Hab.
  generalize (LocalTZA ((b + d - 1) * msPerDay + w) false).
  generalize (LocalTZA ((a + d - 1) * msPerDay + w) false).
  apply mono_arith; exact Hab.
Qed.

End WithHost.

End JSDateFacts.

(* ------------------------------------------------------------------ *)
(** ** The grouping loop *)

Section CoreFacts.
Context {H : Host}.
Variable db : Dataset.
Variable buyerType : BuyerTypeFilter.

(** The events of the loop that are not skipped. *)
Definition qualifies (ev : BuyerEvent.t) : bool :=
  match find_buyer db ev with
  | Some b => negb (skipped buyerType b)
  | None => false
  end.

Definition qualifying (evs : list BuyerEvent.t) : list BuyerEvent.t :=
  filter qualifies evs.

Definition of_buyer (k : string) (ev : BuyerEvent.t) : bool :=
  String.eqb (BuyerEvent.buyer_id ev) k.

(** The buyer ids of the qualifying events, in the order of the events. *)
Definition group_ids (evs : list BuyerEvent.t) : list string :=
  map BuyerEvent.buyer_id (qualifying evs).

Definition group_ok (p : list BuyerEvent.t) (k : string) (g : Group.t) : Prop :=
  find (fun b => String.eqb (Buyer.id b) k) (buyers db) = Some (Group.buyer g)
  /\ skipped buyerType (Group.buyer g) = false
  /\ Group.deals g = filter (of_buyer k) (qualifying p)
  /\ Group.deals g <> [].

Definition grouping_inv (p : list BuyerEvent.t) (o : JSObject.t Group.t) : Prop :=
  map fst o = first_ids (group_ids p)
  /\ forall k g, JSObject.get_own o k = Some g -> group_ok p k g.

Lemma find_buyer_id ev b : find_buyer db ev = Some b -> Buyer.id b = BuyerEvent.buyer_id ev.
Proof.
  unfold find_buyer; intros Hf; apply find_some in Hf.
  apply String.eqb_eq, Hf.
Qed.

Lemma qualifying_snoc p ev :
  qualifying (p ++ [ev]) = qualifying p ++ (if qualifies ev then [ev] else []).
Proof. unfold qualifying; rewrite filter_app; reflexivity. Qed.

Lemma filter_of_buyer_nil k evs :
  ~ In k (map BuyerEvent.buyer_id evs) -> filter (of_buyer k) evs = [].
Proof.
  induction evs as [|e evs IH]; simpl; auto.
  intros Hk; unfold of_buyer at 1.
  destruct (String.eqb (BuyerEvent.buyer_id e) k) eqn:He.
  - apply String.eqb_eq in He; tauto.
  - apply IH; tauto.
Qed.

Lemma group_step_inv p ev o o' :
  grouping_inv p o -> group_step db buyerType o ev = Ok o' ->
  grouping_inv (p ++ [ev]) o'.
Proof.
  intros [Hkeys Hgroups]; unfold group_step.
  destruct (find_buyer db ev) as [b|] eqn:Hb; [|discriminate].
  assert (Hid := find_buyer_id _ _ Hb).
  destruct (skipped buyerType b) eqn:Hskip.
  { intros [= <-].
    assert (Hq : qualifying (p ++ [ev]) = qualifying p).
    { rewrite qualifying_snoc; unfold qualifies; rewrite Hb, Hskip.
      apply app_nil_r. }
    unfold grouping_inv, group_ids, group_ok in *; rewrite Hq; auto. }
  assert (Hfind : find (fun b0 => String.eqb (Buyer.id b0) (Buyer.id b)) (buyers db)
                  = Some b) by (rewrite Hid; exact Hb).
  assert (Hnew : forall g0,
             Group.buyer g0 = b ->
             Group.deals g0 = filter (of_buyer (Buyer.id b)) (qualifying p) ->
             grouping_inv (p ++ [ev])
               (JSObject.set o (Buyer.id b) (add_deal g0 ev))).
  { intros g0 Hg0 Hd0.
    assert (Hq : qualifying (p ++ [ev]) = qualifying p ++ [ev]).
    { rewrite qualifying_snoc; unfold qualifies; rewrite Hb, Hskip.
      reflexivity. }
    unfold grouping_inv, group_ids, group_ok; rewrite Hq; split.
    - rewrite JSObjectFacts.keys_set, Hkeys, map_app; simpl.
      rewrite first_ids_snoc, Hid; reflexivity.
    - intros k g; rewrite JSObjectFacts.get_own_set.
      destruct (String.eqb (Buyer.id b) k) eqn:Hk.
      + apply String.eqb_eq in Hk; subst k; intros [= <-].
        simpl; rewrite Hg0, Hd0, filter_app; simpl.
        assert (Hev : of_buyer (Buyer.id b) ev = true)
          by (unfold of_buyer; rewrite Hid; apply String.eqb_refl).
        rewrite Hev; repeat split; auto.
        destruct (filter _ _); discriminate.
      + intros Hg; destruct (Hgroups k g Hg) as (Hf & Hs & Hd & Hne).
        rewrite filter_app; simpl.
        assert (Hev : of_buyer k ev = false)
          by (unfold of_buyer; rewrite <- Hid; exact Hk).
        rewrite Hev, app_nil_r; auto. }
  destruct (JSObject.get_own o (Buyer.id b)) as [g|] eqn:Hg.
  - intros [= <-].
    destruct (Hgroups _ _ Hg) as (Hf & Hs & Hd & Hne).
    apply Hnew; auto; congruence.
  - destruct (JSObject.inherited (Buyer.id b)); [discriminate|].
    intros [= <-]; apply Hnew; auto; simpl.
    apply JSObjectFacts.get_own_None in Hg; rewrite Hkeys in Hg.
    symmetry; apply filter_of_buyer_nil.
    intros Hin; apply Hg, first_ids_In; exact Hin.
Qed.

Lemma grouped_inv evs o :
  grouped db buyerType evs = Ok o -> grouping_inv evs o.
Proof.
  unfold grouped; apply for_of_invariant with (I := grouping_inv).
  - split; [reflexivity|]; intros k g; discriminate.
  - intros p x s s' Hp Hs; eapply group_step_inv; eauto.
Qed.

Lemma filter_qualifying k b l :
  find (fun b0 => String.eqb (Buyer.id b0) k) (buyers db) = Some b ->
  skipped buyerType b = false ->
  filter (of_buyer k) (qualifying l) = filter (of_buyer k) l.
Proof.
  intros Hf Hs; unfold qualifying.
  induction l as [|e l IH]; simpl; auto.
  destruct (of_buyer k e) eqn:He.
  - assert (Hq : qualifies e = true).
    { unfold of_buyer in He; apply String.eqb_eq in He.
      unfold qualifies, find_buyer; rewrite He, Hf, Hs; reflexivity. }
    rewrite Hq; simpl; rewrite He, IH; reflexivity.
  - destruct (qualifies e); simpl; auto.
    rewrite He; auto.
Qed.

Section WithGroups.
Variables (evs : list BuyerEvent.t) (o : JSObject.t Group.t).
Hypothesis Hinv : grouping_inv evs o.

Lemma groups_NoDup : NoDup (map fst o).
Proof. destruct Hinv as [-> _]; apply first_ids_NoDup. Qed.

Lemma In_group_ok k g : In (k, g) o -> group_ok evs k g.
Proof.
  intros Hin; apply Hinv, JSObjectFacts.In_get_own; auto using groups_NoDup.
Qed.

Lemma group_buyer_id k g : In (k, g) o -> Buyer.id (Group.buyer g) = k.
Proof.
  intros Hin; destruct (In_group_ok _ _ Hin) as (Hf & _).
  apply find_some in Hf; apply String.eqb_eq, Hf.
Qed.

(** All the retained events of a buyer with a group are in the group. *)
Lemma group_deals k g :
  In (k, g) o -> Group.deals g = filter (of_buyer k) evs.
Proof.
  intros Hin; destruct (In_group_ok _ _ Hin) as (Hf & Hs & -> & _).
  eapply filter_qualifying; eauto.
Qed.

Lemma rows_In r :
  In r (map (row_of) (JSObject.values o)) ->
  exists g, In (ResultRow.id r, g) o /\ r = row_of g.
Proof.
  rewrite in_map_iff; intros [g [<- Hg]].
  apply JSObjectFacts.values_In in Hg; destruct Hg as [k Hin].
  exists g; split; auto; simpl.
  rewrite (group_buyer_id _ _ Hin); exact Hin.
Qed.

Lemma rows_ids :
  map ResultRow.id (map (row_of) (JSObject.values o)) = JSObject.keys o.
Proof.
  unfold JSObject.values, JSObject.keys; rewrite !map_map.
  apply map_ext_in; intros [k g] Hin; simpl.
  apply group_buyer_id.
  apply (Permutation_in _ (JSObjectFacts.own_properties_perm o)); auto.
Qed.

End WithGroups.

End CoreFacts.

(* ================================================================== *)
(** * The query *)

Lemma computeResults_Ok {H : Host} db now center radiusMiles months buyerType out :
  computeResults db now center radiusMiles months buyerType = Ok out ->
  exists evs o,
    filtered db now center radiusMiles months = Ok evs
    /\ grouped db buyerType evs = Ok o
    /\ out = Array_sort row_gt (map row_of (JSObject.values o)).
Proof.
  unfold computeResults; intros Hout.
  destruct (filtered db now center radiusMiles months) as [evs|] eqn:Hf;
    simpl in Hout; [|discriminate].
  destruct (grouped db buyerType evs) as [o|] eqn:Hg; simpl in Hout;
    [|discriminate].
  exists evs, o; inversion Hout; auto.
Qed.

Lemma filtered_incl {H : Host} db now center radiusMiles months evs :
  filtered db now center radiusMiles months = Ok evs ->
  incl evs (events db).
Proof.
  unfold filtered; intros Hf; apply Array_filter_Ok in Hf.
  destruct Hf as [-> _]; intros e He; apply filter_In in He; tauto.
Qed.

(** A clock reading and the rows of a query on the seeded data, used to
    exercise the statements below: 2025-09-15T12:00:00Z, ten miles around
    the default center, 24 months, every buyer type. *)
Definition demo_now : Z := 1757937600000.

Definition demo_events : list BuyerEvent.t :=
  Eval vm_compute in
    match filtered Seed.data demo_now Seed.san_antonio 10 24 with
    | Ok evs => evs
    | Throw _ => []
    end.

Definition demo_rows : list ResultRow.t :=
  Eval vm_compute in
    match computeResults Seed.data demo_now Seed.san_antonio 10 24 all with
    | Ok rows => rows
    | Throw _ => []
    end.

Definition demo_flippers : list ResultRow.t :=
  Eval vm_compute in
    match computeResults Seed.data demo_now Seed.san_antonio 10 24 (only flipper) with
    | Ok rows => rows
    | Throw _ => []
    end.

(* ------------------------------------------------------------------ *)
(** ** One row per buyer *)

(** C10. Each buyer id appears in at most one row of the returned sequence,
    however many retained events the buyer has. *)
Theorem buyer_ids_unique {H : Host} db now center radiusMiles months buyerType out :
  computeResults db now center radiusMiles months buyerType = Ok out ->
  NoDup (map ResultRow.id out).
Proof.
  intros Hout; apply computeResults_Ok in Hout.
  destruct Hout as (evs & o & _ & Hg & ->).
  apply grouped_inv in Hg.
  eapply Permutation_NoDup.
  - apply Permutation_map, Permutation_sym, Array_sort_perm.
  - rewrite (rows_ids db buyerType evs o Hg); unfold JSObject.keys.
    eapply Permutation_NoDup;
      [apply Permutation_map, Permutation_sym, JSObjectFacts.own_properties_perm|].
    eapply groups_NoDup; eauto.
Qed.

Lemma buyer_ids_unique_witness :
  computeResults Seed.data demo_now Seed.san_antonio 10 24 all = Ok demo_rows
  /\ NoDup (map ResultRow.id demo_rows).
Proof.
  assert (Hrun : computeResults Seed.data demo_now Seed.san_antonio 10 24 all
                 = Ok demo_rows) by (vm_compute; reflexivity).
  split; [exact Hrun|].
  exact (buyer_ids_unique Seed.data demo_now Seed.san_antonio 10 24 all
                          demo_rows Hrun).
Defined.

(* ------------------------------------------------------------------ *)
(** ** Filtering by buyer type *)

Lemma BuyerType_eqb_eq a b : BuyerType_eqb a b = true -> a = b.
Proof. destruct a, b; simpl; congruence. Qed.

(** C3. When the buyer type of the query is not "all", every returned row
    has that buyer type. *)
Theorem rows_have_requested_type {H : Host} db now center radiusMiles months c out :
  computeResults db now center radiusMiles months (only c) = Ok out ->
  forall r, In r out -> ResultRow.buyer_type r = c.
Proof.
  intros Hout r Hr; apply computeResults_Ok in Hout.
  destruct Hout as (evs & o & _ & Hg & ->).
  apply grouped_inv in Hg.
  apply (proj1 (Array_sort_In _ _ _)) in Hr.
  destruct (rows_In db (only c) evs o Hg r Hr) as (g & Hin & ->).
  destruct (In_group_ok db (only c) evs o Hg _ _ Hin) as (_ & Hs & _).
  simpl in *; apply negb_false_iff in Hs.
  apply BuyerType_eqb_eq; exact Hs.
Qed.

Lemma rows_have_requested_type_witness :
  computeResults Seed.data demo_now Seed.san_antonio 10 24 (only flipper)
  = Ok demo_flippers
  /\ Forall (fun r => ResultRow.buyer_type r = flipper) demo_flippers.
Proof.
  assert (Hrun : computeResults Seed.data demo_now Seed.san_antonio 10 24
                                (only flipper) = Ok demo_flippers)
    by (vm_compute; reflexivity).
  split; [exact Hrun|].
  apply Forall_forall.
  exact (rows_have_requested_type Seed.data demo_now Seed.san_antonio 10 24
                                  flipper demo_flippers Hrun).
Defined.

(* ------------------------------------------------------------------ *)
(** ** Monotonicity of the filter *)

Lemma retained_radius_mono {H : Host} db center r1 r2 since e :
  (r1 <? r2)%float = true ->
  keeps (retained db center r1 since) e = true ->
  keeps (retained db center r2 since) e = true.
Proof.
  unfold keeps, retained; intros Hr.
  destruct (find_property db e) as [p|]; [|discriminate].
  destruct (is_purchase e), (JSDate.Date_ge _ since); simpl; try discriminate.
  match goal with
  | |- context [(?d <=? r1)%float] => destruct (d <=? r1)%float eqn:Hd
  end; [|discriminate].
  rewrite (FloatOrder.leb_ltb_trans _ _ _ Hd Hr); reflexivity.
Qed.

(** C6. With the center, the months and the clock fixed, a larger radius
    retains at least as many events. *)
Theorem radius_monotone {H : Host} db now center r1 r2 months evs1 evs2 :
  (r1 <? r2)%float = true ->
  filtered db now center r1 months = Ok evs1 ->
  filtered db now center r2 months = Ok evs2 ->
  (List.length evs1 <= List.length evs2)%nat.
Proof.
  unfold filtered; intros Hr H1 H2.
  apply Array_filter_Ok in H1, H2.
  destruct H1 as [-> _], H2 as [-> _].
  apply filter_length_mono; intros e _.
  apply retained_radius_mono; exact Hr.
Qed.

Definition demo_near : list BuyerEvent.t :=
  Eval vm_compute in
    match filtered Seed.data demo_now Seed.san_antonio 0.5 12 with
    | Ok evs => evs
    | Throw _ => []
    end.

Definition demo_far : list BuyerEvent.t :=
  Eval vm_compute in
    match filtered Seed.data demo_now Seed.san_antonio 5 12 with
    | Ok evs => evs
    | Throw _ => []
    end.

Lemma radius_monotone_witness :
  (0.5 <? 5)%float = true
  /\ filtered Seed.data demo_now Seed.san_antonio 0.5 12 = Ok demo_near
  /\ filtered Seed.data demo_now Seed.san_antonio 5 12 = Ok demo_far
  /\ (List.length demo_near <= List.length demo_far)%nat.
Proof.
  assert (Hr : (0.5 <? 5)%float = true) by reflexivity.
  assert (H1 : filtered Seed.data demo_now Seed.san_antonio 0.5 12 = Ok demo_near)
    by (vm_compute; reflexivity).
  assert (H2 : filtered Seed.data demo_now Seed.san_antonio 5 12 = Ok demo_far)
    by (vm_compute; reflexivity).
  split; [exact Hr|split; [exact H1|split; [exact H2|]]].
  exact (radius_monotone Seed.data demo_now Seed.san_antonio 0.5 5 12
                         demo_near demo_far Hr H1 H2).
Defined.

Lemma retained_since_mono {H : Host} db center r s1 s2 e :
  (forall t, s1 = Some t -> exists t', s2 = Some t' /\ (t' <= t)%Z) ->
  keeps (retained db center r s1) e = true ->
  keeps (retained db center r s2) e = true.
Proof.
  unfold keeps, retained; intros Hs.
  destruct (find_property db e) as [p|]; [|discriminate].
  destruct (is_purchase e); simpl; [|discriminate].
  unfold JSDate.Date_ge.
  destruct (Date_parse (BuyerEvent.event_date e)) as [d|]; [|discriminate].
  destruct s1 as [t|]; [|discriminate].
  destruct (Hs t eq_refl) as (t' & -> & Hle).
  destruct (t <=? d)%Z eqn:Ht; simpl; [|discriminate].
  apply Z.leb_le in Ht.
  replace (t' <=? d)%Z with true by (symmetry; apply Z.leb_le; lia).
  auto.
Qed.

Lemma monthsAgo_mono {H : Host} now m1 m2 s1 s2 :
  JSDateFacts.tza_bounded -> (m1 < m2)%Z ->
  monthsAgo now m1 = Some s1 -> monthsAgo now m2 = Some s2 -> (s2 < s1)%Z.
Proof.
  unfold monthsAgo; intros Htz Hlt H1 H2.
  apply (JSDateFacts.setMonth_mono now (JSDate.getMonth now - m2)
           (JSDate.getMonth now - m1) s2 s1 Htz); auto; lia.
Qed.

(** C7, amended. With the center, the radius and the clock fixed, and month
    windows [m1 < m2] such that the clock minus [m2] months is a valid date,
    the window of [m1] starts later than the window of [m2] and retains at
    most as many events.  (On a host whose local time is within a day of
    UTC.) *)
Theorem months_monotone {H : Host} db now center radiusMiles m1 m2 evs1 evs2 :
  JSDateFacts.tza_bounded ->
  (m1 < m2)%Z ->
  monthsAgo now m2 <> None ->
  filtered db now center radiusMiles m1 = Ok evs1 ->
  filtered db now center radiusMiles m2 = Ok evs2 ->
  (forall s1 s2, monthsAgo now m1 = Some s1 -> monthsAgo now m2 = Some s2 ->
                 (s2 < s1)%Z)
  /\ (List.length evs1 <= List.length evs2)%nat.
Proof.
  unfold filtered; intros Htz Hlt Hvalid H1 H2.
  assert (Hmono := fun s1 s2 => monthsAgo_mono now m1 m2 s1 s2 Htz Hlt).
  split; [exact Hmono|].
  apply Array_filter_Ok in H1, H2.
  destruct H1 as [-> _], H2 as [-> _].
  apply filter_length_mono; intros e _.
  apply retained_since_mono; intros t Ht.
  destruct (monthsAgo now m2) as [t'|] eqn:Ht'; [|congruence].
  exists t'; split; auto.
  specialize (Hmono t t' Ht eq_refl); lia.
Qed.

Lemma ref_host_tza_bounded : JSDateFacts.tza_bounded (H := ref_host).
Proof. intros t b; simpl; unfold JSDate.msPerDay; lia. Qed.

Definition demo_year : list BuyerEvent.t :=
  Eval vm_compute in
    match filtered Seed.data demo_now Seed.san_antonio 10 12 with
    | Ok evs => evs
    | Throw _ => []
    end.

Lemma months_monotone_witness :
  filtered Seed.data demo_now Seed.san_antonio 10 12 = Ok demo_year
  /\ filtered Seed.data demo_now Seed.san_antonio 10 24 = Ok demo_events
  /\ (List.length demo_year <= List.length demo_events)%nat.
Proof.
  assert (H1 : filtered Seed.data demo_now Seed.san_antonio 10 12 = Ok demo_year)
    by (vm_compute; reflexivity).
  assert (H2 : filtered Seed.data demo_now Seed.san_antonio 10 24 = Ok demo_events)
    by (vm_compute; reflexivity).
  assert (Hlt : (12 < 24)%Z) by lia.
  assert (Hv : monthsAgo demo_now 24 <> None) by (vm_compute; discriminate).
  split; [exact H1|split; [exact H2|]].
  exact (proj2 (months_monotone Seed.data demo_now Seed.san_antonio 10 12 24
                                demo_year demo_events ref_host_tza_bounded
                                Hlt Hv H1 H2)).
Defined.

(** C7 as stated fails: four million months back from the clock is before
    the earliest time a [Date] can hold, the window start is the Invalid
    Date, and no event compares on or after it. *)
Lemma months_monotone_counterexample :
  (12 < 4000000)%Z
  /\ filtered Seed.data demo_now Seed.san_antonio 10 12 = Ok demo_year
  /\ filtered Seed.data demo_now Seed.san_antonio 10 4000000 = Ok []
  /\ (List.length (@nil BuyerEvent.t) < List.length demo_year)%nat.
Proof.
  split; [lia|].
  split; [vm_compute; reflexivity|].
  split; [vm_compute; reflexivity|].
  simpl; lia.
Qed.

(* ------------------------------------------------------------------ *)
(** ** The clock *)

(** C4, amended. The rows are a function of the reference data, the
    parameters and the clock reading taken by [monthsAgo]: two calls give
    the same rows, in the same order, whenever their clock readings put the
    same events inside the time window, in particular when the readings
    are equal. *)
Theorem same_window_same_rows {H : Host} db now1 now2 center radiusMiles months buyerType :
  (forall e, In e (events db) ->
             JSDate.Date_ge (Date_parse (BuyerEvent.event_date e)) (monthsAgo now1 months)
             = JSDate.Date_ge (Date_parse (BuyerEvent.event_date e)) (monthsAgo now2 months)) ->
  computeResults db now1 center radiusMiles months buyerType
  = computeResults db now2 center radiusMiles months buyerType.
Proof.
  intros Hsame; unfold computeResults, filtered.
  rewrite (Array_filter_ext
             (retained db center radiusMiles (monthsAgo now1 months))
             (retained db center radiusMiles (monthsAgo now2 months))
             (events db)); auto.
  intros e He; unfold retained.
  destruct (find_property db e); auto.
  rewrite (Hsame e He); reflexivity.
Qed.

(** An hour after [demo_now]. *)
Definition demo_later : Z := 1757941200000.

Lemma same_window_same_rows_witness :
  computeResults Seed.data demo_now Seed.san_antonio 10 24 all
  = computeResults Seed.data demo_later Seed.san_antonio 10 24 all.
Proof.
  apply (same_window_same_rows Seed.data demo_now demo_later).
  intros e He; simpl in He.
  repeat (destruct He as [<-|He]; [vm_compute; reflexivity|]).
  contradiction.
Defined.

(** Two years after [demo_now]. *)
Definition demo_two_years_on : Z := 1821009600000.

(** C4 as stated fails: the same call two years later returns no row. *)
Lemma clock_counterexample :
  computeResults Seed.data demo_now Seed.san_antonio 10 24 all = Ok demo_rows
  /\ computeResults Seed.data demo_two_years_on Seed.san_antonio 10 24 all = Ok []
  /\ List.length demo_rows = 4%nat.
Proof. repeat split; vm_compute; reflexivity. Qed.

(* ------------------------------------------------------------------ *)
(** ** Arguments outside the expected range *)

Lemma circle_coords_length {H : Host} lon lat radiusMiles points :
  List.length (circle_coords lon lat radiusMiles points) = S points.
Proof. unfold circle_coords; rewrite length_map, length_seq; reflexivity. Qed.

(** Every event refers to a property and to a buyer of the dataset. *)
Definition references_resolve (db : Dataset) : bool :=
  forallb (fun e =>
             match find_property db e, find_buyer db e with
             | Some _, Some _ => true
             | _, _ => false
             end)
          (events db).

(** No event names a buyer by an id that is the name of a property every
    object inherits from [Object.prototype] ([constructor], [toString],
    [__proto__], ...). *)
Definition plain_buyer_ids (db : Dataset) : bool :=
  forallb (fun e => negb (JSObject.inherited (BuyerEvent.buyer_id e)))
          (events db).

Lemma group_step_total {H : Host} db buyerType o ev b :
  find_buyer db ev = Some b -> JSObject.inherited (Buyer.id b) = false ->
  exists o', group_step db buyerType o ev = Ok o'.
Proof.
  unfold group_step; intros -> Hb.
  destruct (skipped buyerType b); eauto.
  destruct (JSObject.get_own o (Buyer.id b)); eauto.
  rewrite Hb; eauto.
Qed.

(** C8, amended. No argument is validated.  On a dataset in which every
    event refers to a property and to a buyer of the dataset, and names no
    buyer by an id that is a property name of [Object.prototype], the query
    returns rows for every radius (also zero or negative), every number of
    months (also negative) and every buyer type; and on every input the
    boundary generator returns a ring of [points + 1] coordinates, for every
    radius. *)
Theorem no_argument_is_rejected {H : Host} db now center radiusMiles months buyerType :
  (references_resolve db = true ->
   plain_buyer_ids db = true ->
   exists out,
     computeResults db now center radiusMiles months buyerType = Ok out)
  /\ (forall lon lat points,
        List.length (circle_coords lon lat radiusMiles points) = S points).
Proof.
  split; [|intros; apply circle_coords_length].
  unfold references_resolve, plain_buyer_ids; intros Hrefs Hplain.
  rewrite forallb_forall in Hrefs, Hplain.
  unfold computeResults, filtered.
  rewrite Array_filter_total.
  - simpl.
    destruct (for_of_total (A := BuyerEvent.t) (group_step db buyerType)
                (filter (keeps (retained db center radiusMiles
                                         (monthsAgo now months)))
                        (events db)) JSObject.empty) as [o Ho].
    + intros e o' He; apply filter_In in He; destruct He as [He _].
      specialize (Hrefs e He); specialize (Hplain e He).
      destruct (find_property db e); [|discriminate].
      destruct (find_buyer db e) as [b|] eqn:Hb; [|discriminate].
      apply negb_true_iff in Hplain.
      rewrite <- (find_buyer_id db e b Hb) in Hplain.
      eapply group_step_total; eauto.
    + unfold grouped; rewrite Ho; simpl; eauto.
  - apply Forall_forall; intros e He; specialize (Hrefs e He).
    unfold retained; destruct (find_property db e); [eauto|discriminate].
Qed.

Lemma no_argument_is_rejected_witness :
  exists out, computeResults Seed.data demo_now Seed.san_antonio (-1) (-3) all = Ok out.
Proof.
  assert (Hrefs : references_resolve Seed.data = true) by (vm_compute; reflexivity).
  assert (Hplain : plain_buyer_ids Seed.data = true) by (vm_compute; reflexivity).
  exact (proj1 (no_argument_is_rejected Seed.data demo_now Seed.san_antonio
                  (-1)%float (-3)%Z all) Hrefs Hplain).
Defined.

(** C8 as stated fails: a negative radius, a negative number of months and
    a zero radius are answered with an empty list, not with an error, and
    the boundary of a negative radius is an ordinary ring. *)
Lemma invalid_arguments_counterexample :
  is_Throw (computeResults Seed.data demo_now Seed.san_antonio (-1) 12 all) = false
  /\ is_Throw (computeResults Seed.data demo_now Seed.san_antonio 0 12 all) = false
  /\ is_Throw (computeResults Seed.data demo_now Seed.san_antonio 2 (-3) all) = false
  /\ List.length (circle_coords (-98.4936) 29.4241 (-1) 64) = 65%nat.
Proof. vm_compute; auto. Qed.

(* ------------------------------------------------------------------ *)
(** ** Dangling references *)



Module Dangling.
Local Open Scope string_scope.
Local Open Scope float_scope.


(** The seeded data and one more event, a sale by a buyer who is not in the
    dataset. *)
Definition no_buyer : Dataset :=
  Build_Dataset
    Seed.buyers Seed.properties
    (Seed.events
     ++ [BuyerEvent.Build_t "e8" "b9" "p1" sale "2025-06-01" 200000 county]).

End Dangling.



(* ------------------------------------------------------------------ *)
(** ** The boundary ring *)

(** The bearing of the loop at counter [i]. *)
Definition bearing (points i : nat) : float :=
  (Num.of_nat i / Num.of_nat points * 2 * Num.PI)%float.

(** The last point is computed at the bearing of [i = points] and the first
    at the bearing of [i = 0]; they are the same point on a host whose sine
    and cosine take the same values at both bearings. *)
Lemma ring_closed_when_periodic {H : Host} lon lat radiusMiles points :
  Math_sin (bearing points points) = Math_sin (bearing points 0) ->
  Math_cos (bearing points points) = Math_cos (bearing points 0) ->
  last (circle_coords lon lat radiusMiles points) (0, 0)%float
  = hd (0, 0)%float (circle_coords lon lat radiusMiles points).
Proof.
  intros Hsin Hcos.
  assert (Hlast : last (circle_coords lon lat radiusMiles points) (0, 0)%float
                  = circle_point (toRad lon) (toRad lat)
                                 (radiusMiles / earth_radius)%float points points).
  { unfold circle_coords; rewrite seq_S, map_app; cbn [map]; apply last_last. }
  rewrite Hlast; unfold circle_coords; cbn [seq map hd]; unfold circle_point.
  fold (bearing points points); fold (bearing points 0).
  rewrite Hsin, Hcos; reflexivity.
Qed.

(** The ring of two miles around the Royal Observatory, Greenwich. *)
Definition greenwich_ring : list (float * float) :=
  circle_coords (-0.0015) 51.4779 2 64.

(** C5. Every ring has [points + 1] points.  At a center next to the prime
    meridian the ring is not closed: its last point is computed afresh at
    the bearing [2 * Math.PI], whose sine is not zero in binary64, and its
    longitude is not the longitude of the first point. *)
Theorem greenwich_ring_not_closed :
  (forall (H : Host) lon lat radiusMiles points,
      List.length (circle_coords lon lat radiusMiles points) = S points)
  /\ List.length greenwich_ring = 65%nat
  /\ fst (hd (0, 0)%float greenwich_ring) = (-0.0015)%float
  /\ fst (last greenwich_ring (0, 0)%float) = (-0.0015000000000000115)%float
  /\ (fst (hd (0, 0) greenwich_ring)
      =? fst (last greenwich_ring (0, 0)))%float = false
  /\ Math_sin (bearing 64 64) = (-0x1.1a62633145c07p-52)%float
  /\ Math_sin (bearing 64 0) = 0%float.
Proof.
  split; [intros; apply circle_coords_length|].
  vm_compute; repeat split; reflexivity.
Qed.

(* ------------------------------------------------------------------ *)
(** ** Ranking *)

(** [a] is ranked before [b]: more deals, or as many deals and a later last
    deal, or a tie on both and [a] enumerated before [b] by [Object.values]. *)
Definition ranks (ids : list string) (a b : ResultRow.t) : Prop :=
  (ResultRow.deals_count b < ResultRow.deals_count a)%nat
  \/ (ResultRow.deals_count a = ResultRow.deals_count b
      /\ ((ResultRow.last_deal b < ResultRow.last_deal a)%Z
          \/ (ResultRow.last_deal a = ResultRow.last_deal b
              /\ enum_before ids (ResultRow.id a) (ResultRow.id b)))).

(** The ranking in the words of the specification: ties keep the order in
    which the groups were constructed. *)
Definition ranks_by_first_event (ids : list string) (a b : ResultRow.t) : Prop :=
  (ResultRow.deals_count b < ResultRow.deals_count a)%nat
  \/ (ResultRow.deals_count a = ResultRow.deals_count b
      /\ ((ResultRow.last_deal b < ResultRow.last_deal a)%Z
          \/ (ResultRow.last_deal a = ResultRow.last_deal b
              /\ (first_index (ResultRow.id a) ids
                  < first_index (ResultRow.id b) ids)%nat))).

Lemma row_gt_false a b :
  row_gt a b = false <->
  (ResultRow.deals_count b < ResultRow.deals_count a)%nat
  \/ (ResultRow.deals_count a = ResultRow.deals_count b
      /\ (ResultRow.last_deal b <= ResultRow.last_deal a)%Z).
Proof.
  unfold row_gt, compare_rows; rewrite Z.ltb_ge.
  destruct (Z.eqb_spec (Z.of_nat (ResultRow.deals_count b)
                        - Z.of_nat (ResultRow.deals_count a)) 0); lia.
Qed.

Lemma row_gt_true a b :
  row_gt a b = true <->
  (ResultRow.deals_count a < ResultRow.deals_count b)%nat
  \/ (ResultRow.deals_count a = ResultRow.deals_count b
      /\ (ResultRow.last_deal a < ResultRow.last_deal b)%Z).
Proof.
  unfold row_gt, compare_rows; rewrite Z.ltb_lt.
  destruct (Z.eqb_spec (Z.of_nat (ResultRow.deals_count b)
                        - Z.of_nat (ResultRow.deals_count a)) 0); lia.
Qed.

Lemma rows_enumerated {H : Host} db buyerType evs o :
  grouping_inv db buyerType evs o ->
  StronglySorted
    (fun a b => enum_before (group_ids db buyerType evs)
                            (ResultRow.id a) (ResultRow.id b))
    (map row_of (JSObject.values o)).
Proof.
  intros Hinv; unfold JSObject.values; rewrite map_map.
  apply StronglySorted_map
    with (R := fun a b => enum_before (group_ids db buyerType evs)
                                      (ResultRow.id a) (ResultRow.id b)).
  assert (Hid : forall kv, In kv (JSObject.own_properties o) ->
                           ResultRow.id (row_of (snd kv)) = fst kv).
  { intros [k g] Hin; simpl.
    apply (group_buyer_id db buyerType evs o Hinv).
    apply (Permutation_in _ (JSObjectFacts.own_properties_perm o)); auto. }
  eapply StronglySorted_impl;
    [|apply (own_properties_sorted (group_ids db buyerType evs) o)].
  - intros a b Ha Hb Hab; rewrite !Hid; auto.
  - eapply groups_NoDup; eauto.
  - destruct Hinv as [-> _]; apply first_ids_sorted.
Qed.

Lemma enum_before_first_index ids a b :
  JSObject.array_index a = None -> JSObject.array_index b = None ->
  enum_before ids a b -> (first_index a ids < first_index b ids)%nat.
Proof. unfold enum_before; intros -> ->; auto. Qed.

(** C2, amended. The rows are sorted by descending deal count, then by
    descending date of the last deal; rows tied on both keys come in the
    order in which [Object.values] enumerates the groups: the buyer ids that
    are array indices first, by ascending numeric value, then the other
    buyer ids in the order of each buyer's first qualifying event.  When no
    buyer id of the dataset is an array index, ties are in that
    group-construction order. *)
Theorem rows_ranked {H : Host} db now center radiusMiles months buyerType evs out :
  filtered db now center radiusMiles months = Ok evs ->
  computeResults db now center radiusMiles months buyerType = Ok out ->
  StronglySorted (ranks (group_ids db buyerType evs)) out
  /\ ((forall b, In b (buyers db) -> JSObject.array_index (Buyer.id b) = None) ->
      StronglySorted (ranks_by_first_event (group_ids db buyerType evs)) out).
Proof.
  intros Hf Hout; apply computeResults_Ok in Hout.
  destruct Hout as (evs' & o & Hf' & Hg & ->).
  assert (evs' = evs) by congruence; subst evs'.
  apply grouped_inv in Hg.
  assert (Hsorted : StronglySorted (ranks (group_ids db buyerType evs))
                      (Array_sort row_gt (map row_of (JSObject.values o)))).
  { eapply StronglySorted_impl;
      [|apply (Array_sort_stable row_gt (fun _ => True)
                 (fun a b => enum_before (group_ids db buyerType evs)
                                         (ResultRow.id a) (ResultRow.id b)))].
    - intros a b _ _ [Hab Hba]; unfold ranks.
      apply row_gt_false in Hab.
      destruct Hba as [Hba|Hba]; [apply row_gt_true in Hba; lia|].
      destruct Hab as [Hab|[Hc Hl]]; auto.
      right; split; auto.
      destruct (Z.eq_dec (ResultRow.last_deal a) (ResultRow.last_deal b)); auto.
      left; lia.
    - intros a b _ _ Hab; apply row_gt_true in Hab; apply row_gt_false; lia.
    - intros a b c _ _ _ Hab Hbc.
      apply row_gt_false in Hab, Hbc; apply row_gt_false; lia.
    - apply Forall_forall; auto.
    - apply rows_enumerated; auto. }
  split; [exact Hsorted|].
  intros Hids; eapply StronglySorted_impl; [|exact Hsorted].
  assert (Hrow : forall r,
             In r (Array_sort row_gt (map row_of (JSObject.values o))) ->
             JSObject.array_index (ResultRow.id r) = None).
  { intros r Hr; apply (proj1 (Array_sort_In _ _ _)) in Hr.
    destruct (rows_In db buyerType evs o Hg r Hr) as (g & Hin & _).
    destruct (In_group_ok db buyerType evs o Hg _ _ Hin) as (Hfind & _).
    assert (Hb := find_some _ _ Hfind); destruct Hb as [Hb He].
    apply String.eqb_eq in He; rewrite <- He; auto. }
  intros a b Ha Hb; unfold ranks, ranks_by_first_event.
  intros [Hc|[Hc [Hl|[Hl He]]]]; auto.
  right; split; auto; right; split; auto.
  apply enum_before_first_index; auto.
Qed.

Module Ties.
Local Open Scope string_scope.
Local Open Scope float_scope.

(** Two buyers whose ids are array indices, one purchase each on the same
    day; the purchase of buyer ["2"] comes first. *)
Definition data : Dataset :=
  Build_Dataset
    [ Buyer.Build_t "2" "Second Street Homes" flipper [];
      Buyer.Build_t "1" "First Avenue Holdings" flipper [] ]
    Seed.properties
    [ BuyerEvent.Build_t "e1" "2" "p5" purchase "2025-07-21" 275000 county;
      BuyerEvent.Build_t "e2" "1" "p6" purchase "2025-07-21" 245000 county ].

Definition retained_events : list BuyerEvent.t :=
  Eval vm_compute in
    match filtered data demo_now Seed.san_antonio 10 24 with
    | Ok evs => evs
    | Throw _ => []
    end.

Definition rows : list ResultRow.t :=
  Eval vm_compute in
    match computeResults data demo_now Seed.san_antonio 10 24 all with
    | Ok out => out
    | Throw _ => []
    end.

End Ties.

Lemma rows_ranked_witness :
  filtered Seed.data demo_now Seed.san_antonio 10 24 = Ok demo_events
  /\ computeResults Seed.data demo_now Seed.san_antonio 10 24 all = Ok demo_rows
  /\ StronglySorted (ranks (group_ids Seed.data all demo_events)) demo_rows.
Proof.
  assert (H1 : filtered Seed.data demo_now Seed.san_antonio 10 24 = Ok demo_events)
    by (vm_compute; reflexivity).
  assert (H2 : computeResults Seed.data demo_now Seed.san_antonio 10 24 all
               = Ok demo_rows) by (vm_compute; reflexivity).
  split; [exact H1|split; [exact H2|]].
  exact (proj1 (rows_ranked Seed.data demo_now Seed.san_antonio 10 24 all
                            demo_events demo_rows H1 H2)).
Defined.

(** C2 as stated fails: the two rows tie on both keys, the group of buyer
    ["2"] was constructed first, and the row of buyer ["1"] comes first. *)
Lemma tie_order_counterexample :
  filtered Ties.data demo_now Seed.san_antonio 10 24 = Ok Ties.retained_events
  /\ computeResults Ties.data demo_now Seed.san_antonio 10 24 all = Ok Ties.rows
  /\ ~ StronglySorted
         (ranks_by_first_event (group_ids Ties.data all Ties.retained_events))
         Ties.rows.
Proof.
  split; [vm_compute; reflexivity|].
  split; [vm_compute; reflexivity|].
  intros Hs; unfold Ties.rows in Hs.
  apply StronglySorted_inv in Hs; destruct Hs as [_ Hall].
  apply Forall_inv in Hall.
  unfold ranks_by_first_event in Hall; simpl in Hall.
  destruct Hall as [Hr|[_ [Hr|[_ Hr]]]]; [lia|lia|].
  vm_compute in Hr; lia.
Qed.

(* ------------------------------------------------------------------ *)
(** ** The median price *)

(** Every price is a finite number: neither [NaN] nor an infinity. *)
Definition finite_prices (ps : list float) : Prop :=
  Forall (fun p => is_finite p = true) ps.

(** The comparator [(a, b) => a - b] orders such prices: the difference is
    positive exactly when [b < a]. *)
Definition comparable (ps : list float) : Prop :=
  forall a b, In a ps -> In b ps ->
    is_nan a = false /\ price_gt a b = (b <? a)%float.

Lemma finite_comparable ps : finite_prices ps -> comparable ps.
Proof.
  unfold finite_prices, comparable; rewrite Forall_forall; intros Hf a b Ha Hb.
  split; [apply FloatOrder.is_finite_not_nan; auto|].
  apply FloatOrder.sub_positive; auto.
Qed.

Definition ascending (l : list float) : Prop :=
  StronglySorted (fun a b => (a <=? b)%float = true) l.

(** The median in the words of the specification: the middle value of a
    list of odd length, the mean of the two middle values of a list of even
    length. *)
Definition is_median (s : list float) (m : float) : Prop :=
  let n := List.length s in
  (n mod 2 = 1 -> m = nth (n / 2) s nan)%nat
  /\ (n mod 2 = 0 ->
      m = ((nth (n / 2 - 1) s nan + nth (n / 2) s nan) / 2)%float)%nat.

Lemma StronglySorted_True {A : Type} (l : list A) :
  StronglySorted (fun _ _ => True) l.
Proof.
  induction l; constructor; auto.
  apply Forall_forall; auto.
Qed.

Lemma sorted_prices_ascending ps :
  comparable ps -> ascending (Array_sort price_gt ps).
Proof.
  intros Hc; unfold ascending.
  eapply StronglySorted_impl;
    [|apply (Array_sort_stable price_gt (fun a => In a ps) (fun _ _ => True))].
  - intros a b Ha Hb [Hab _].
    apply (proj1 (Array_sort_In _ _ _)) in Ha.
    apply (proj1 (Array_sort_In _ _ _)) in Hb.
    destruct (Hc a b Ha Hb) as [Hna Hgt], (Hc b a Hb Ha) as [Hnb _].
    rewrite Hgt in Hab; apply FloatOrder.leb_total; auto.
  - intros a b Ha Hb Hab.
    destruct (Hc a b Ha Hb) as [_ Hgt], (Hc b a Hb Ha) as [_ Hgt'].
    rewrite Hgt in Hab; rewrite Hgt'; apply FloatOrder.ltb_asym; auto.
  - intros a b c Ha Hb Hc' Hab Hbc.
    destruct (Hc a b Ha Hb) as [Hna Hgt], (Hc b c Hb Hc') as [Hnb Hgt'],
             (Hc c a Hc' Ha) as [Hnc _], (Hc a c Ha Hc') as [_ Hgt''].
    rewrite Hgt in Hab; rewrite Hgt' in Hbc; rewrite Hgt''.
    apply FloatOrder.leb_not_ltb.
    apply FloatOrder.leb_trans with b; apply FloatOrder.leb_total; auto.
  - apply Forall_forall; auto.
  - apply StronglySorted_True.
Qed.

Lemma median_is_median s : is_median s (median s).
Proof.
  unfold is_median, median.
  assert (Hm : (List.length s mod 2 < 2)%nat) by (apply Nat.mod_upper_bound; lia).
  destruct (Nat.eqb_spec (List.length s mod 2) 0); split; intros; auto; lia.
Qed.

(** C1. The median price of a row is the median of the prices of the
    retained purchases of its buyer: when they are sorted in ascending
    order, the middle value of an odd number of prices and the mean of the
    two middle values of an even number.  The prices 100, 200, 300 give
    200 and the prices 100, 200 give 150. *)
Theorem median_price_is_median {H : Host} db now center radiusMiles months buyerType evs out :
  filtered db now center radiusMiles months = Ok evs ->
  computeResults db now center radiusMiles months buyerType = Ok out ->
  finite_prices (map BuyerEvent.price (events db)) ->
  (forall row, In row out ->
     let prices :=
       map BuyerEvent.price (filter (of_buyer (ResultRow.id row)) evs) in
     prices <> []
     /\ ResultRow.deals_count row = List.length prices
     /\ exists s,
          Permutation s prices /\ ascending s
          /\ is_median s (ResultRow.median_price row))
  /\ median (Array_sort price_gt [100; 200; 300]%float) = 200%float
  /\ median (Array_sort price_gt [100; 200]%float) = 150%float.
Proof.
  intros Hf Hout Hfin; split; [|split; reflexivity].
  assert (Hc := finite_comparable _ Hfin).
  apply computeResults_Ok in Hout.
  destruct Hout as (evs' & o & Hf' & Hg & ->).
  assert (evs' = evs) by congruence; subst evs'.
  apply grouped_inv in Hg.
  intros row Hrow; apply (proj1 (Array_sort_In _ _ _)) in Hrow.
  destruct (rows_In db buyerType evs o Hg row Hrow) as (g & Hin & ->).
  destruct (In_group_ok db buyerType evs o Hg _ _ Hin) as (_ & _ & _ & Hne).
  assert (Hd := group_deals db buyerType evs o Hg _ _ Hin).
  cbv zeta; rewrite <- Hd; simpl.
  split; [destruct (Group.deals g); [tauto|discriminate]|].
  split; [rewrite length_map; reflexivity|].
  exists (sorted_prices g); split; [apply Array_sort_perm|].
  split; [|apply median_is_median].
  apply sorted_prices_ascending.
  intros a b Ha Hb; apply Hc; apply in_map_iff.
  - apply in_map_iff in Ha; destruct Ha as (e & <- & He); exists e; split; auto.
    rewrite Hd in He; apply filter_In in He.
    eapply filtered_incl; [exact Hf|tauto].
  - apply in_map_iff in Hb; destruct Hb as (e & <- & He); exists e; split; auto.
    rewrite Hd in He; apply filter_In in He.
    eapply filtered_incl; [exact Hf|tauto].
Qed.

Lemma median_price_is_median_witness :
  exists s,
    Permutation s (map BuyerEvent.price (filter (of_buyer "b2") demo_events))
    /\ ascending s /\ is_median s 202500%float.
Proof.
  assert (H1 : filtered Seed.data demo_now Seed.san_antonio 10 24 = Ok demo_events)
    by (vm_compute; reflexivity).
  assert (H2 : computeResults Seed.data demo_now Seed.san_antonio 10 24 all
               = Ok demo_rows) by (vm_compute; reflexivity).
  assert (Hc : finite_prices (map BuyerEvent.price (events Seed.data)))
    by (repeat constructor).
  assert (Hrow : In (nth 1 demo_rows (row_of (new_group (Buyer.Build_t "" "" unknown []))))
                    demo_rows) by (simpl; auto).
  exact (proj2 (proj2 (proj1 (median_price_is_median
                                Seed.data demo_now Seed.san_antonio 10 24 all
                                demo_events demo_rows H1 H2 Hc) _ Hrow))).
Defined.

(* ================================================================== *)
(** * Further properties of the query *)

(* ------------------------------------------------------------------ *)
(** ** The rows in terms of the retained events *)

Section RowFacts.
Context {H : Host}.
Variable db : Dataset.
Variable buyerType : BuyerTypeFilter.

(** The update of [g.last] by one event, and the date it leaves after the
    events of a group. *)
Definition later (m : Z) (ev : BuyerEvent.t) : Z :=
  match Date_parse (BuyerEvent.event_date ev) with
  | Some d => if (m <? d)%Z then d else m
  | None => m
  end.

Definition latest (deals : list BuyerEvent.t) : Z := fold_left later deals 0%Z.

Definition last_inv (o : JSObject.t Group.t) : Prop :=
  forall k g, JSObject.get_own o k = Some g ->
              Group.last g = latest (Group.deals g).

Lemma add_deal_last g ev :
  Group.last g = latest (Group.deals g) ->
  Group.last (add_deal g ev) = latest (Group.deals (add_deal g ev)).
Proof.
  intros Hl; unfold latest; simpl; rewrite fold_left_app; simpl.
  fold (latest (Group.deals g)); rewrite <- Hl; reflexivity.
Qed.

Lemma group_step_last o ev o' :
  last_inv o -> group_step db buyerType o ev = Ok o' -> last_inv o'.
Proof.
  unfold group_step; intros Hinv.
  destruct (find_buyer db ev) as [b|]; [|discriminate].
  destruct (skipped buyerType b); [intros [= <-]; exact Hinv|].
  assert (Hset : forall g0, Group.last g0 = latest (Group.deals g0) ->
                            last_inv (JSObject.set o (Buyer.id b) (add_deal g0 ev))).
  { intros g0 Hg0 k g; rewrite JSObjectFacts.get_own_set.
    destruct (String.eqb (Buyer.id b) k); [|apply Hinv].
    intros [= <-]; apply add_deal_last; exact Hg0. }
  destruct (JSObject.get_own o (Buyer.id b)) as [g0|] eqn:Hg0.
  - intros [= <-]; apply Hset; eauto.
  - destruct (JSObject.inherited (Buyer.id b)); [discriminate|].
    intros [= <-]; apply Hset; reflexivity.
Qed.

Lemma grouped_last evs o : grouped db buyerType evs = Ok o -> last_inv o.
Proof.
  unfold grouped; apply for_of_invariant with (I := fun _ => last_inv).
  - intros k g; discriminate.
  - intros p x s s' Hs Hb; eapply group_step_last; eauto.
Qed.

(** The group of buyer [b] over the retained events [evs]. *)
Definition group_of (evs : list BuyerEvent.t) (b : Buyer.t) : Group.t :=
  let deals := filter (of_buyer (Buyer.id b)) evs in
  {| Group.buyer := b; Group.deals := deals; Group.last := latest deals |}.

(** The buyers that get a row: found under their id, of the requested
    type, with a retained event. *)
Definition has_row (evs : list BuyerEvent.t) (b : Buyer.t) : Prop :=
  find (fun b0 => String.eqb (Buyer.id b0) (Buyer.id b)) (buyers db) = Some b
  /\ skipped buyerType b = false
  /\ filter (of_buyer (Buyer.id b)) evs <> [].

Lemma group_characterised evs o k g :
  grouped db buyerType evs = Ok o -> In (k, g) o ->
  exists b, Buyer.id b = k /\ has_row evs b /\ g = group_of evs b.
Proof.
  intros Hg Hin.
  assert (Hinv := grouped_inv db buyerType evs o Hg).
  assert (Hlast := grouped_last evs o Hg).
  destruct (In_group_ok db buyerType evs o Hinv k g Hin) as (Hf & Hs & Hd & Hne).
  assert (Hid := group_buyer_id db buyerType evs o Hinv k g Hin).
  assert (Hdeals := group_deals db buyerType evs o Hinv k g Hin).
  assert (Hl := Hlast k g (JSObjectFacts.In_get_own o k g
                             (groups_NoDup db buyerType evs o Hinv) Hin)).
  exists (Group.buyer g); split; [exact Hid|]; split.
  - unfold has_row; rewrite Hid, <- Hdeals; auto.
  - unfold group_of; rewrite Hid, <- Hdeals, <- Hl; destruct g; reflexivity.
Qed.

Lemma has_row_group evs o b :
  grouped db buyerType evs = Ok o -> has_row evs b ->
  In (Buyer.id b, group_of evs b) o.
Proof.
  intros Hg (Hf & Hs & Hne).
  assert (Hinv := grouped_inv db buyerType evs o Hg).
  assert (Hk : In (Buyer.id b) (map fst o)).
  { destruct Hinv as [-> _]; apply first_ids_In.
    destruct (filter (of_buyer (Buyer.id b)) evs) as [|e l] eqn:He; [tauto|].
    assert (Hin : In e (filter (of_buyer (Buyer.id b)) evs))
      by (rewrite He; left; reflexivity).
    apply filter_In in Hin; destruct Hin as [Hin Hof].
    unfold of_buyer in Hof; apply String.eqb_eq in Hof.
    unfold group_ids; apply in_map_iff; exists e; split; auto.
    apply filter_In; split; auto.
    unfold qualifies, find_buyer; rewrite Hof, Hf, Hs; reflexivity. }
  apply in_map_iff in Hk; destruct Hk as ([k g] & Hk & Hin); simpl in Hk; subst k.
  destruct (group_characterised evs o _ g Hg Hin) as (b' & Hid & (Hf' & _) & ->).
  assert (b' = b) by (rewrite Hid in Hf'; congruence); subst b'; exact Hin.
Qed.

End RowFacts.

Lemma rows_characterised {H : Host} db now center radiusMiles months buyerType evs out :
  filtered db now center radiusMiles months = Ok evs ->
  computeResults db now center radiusMiles months buyerType = Ok out ->
  forall row, In row out <->
              exists b, has_row db buyerType evs b
                        /\ row = row_of (group_of evs b).
Proof.
  intros Hf Hout; apply computeResults_Ok in Hout.
  destruct Hout as (evs' & o & Hf' & Hg & ->).
  assert (evs' = evs) by congruence; subst evs'.
  intros row; rewrite Array_sort_In, in_map_iff; split.
  - intros (g & <- & Hin).
    apply JSObjectFacts.values_In in Hin; destruct Hin as [k Hin].
    destruct (group_characterised db buyerType evs o k g Hg Hin)
      as (b & _ & Hrow & ->); eauto.
  - intros (b & Hrow & ->); exists (group_of evs b); split; auto.
    apply JSObjectFacts.values_In; exists (Buyer.id b).
    apply (has_row_group db buyerType); auto.
Qed.

Lemma grouped_buyers_found {H : Host} db buyerType evs o :
  grouped db buyerType evs = Ok o ->
  forall e, In e evs -> exists b, find_buyer db e = Some b.
Proof.
  intros Hg e He.
  destruct (find_buyer db e) as [b|] eqn:Hb; [eauto|].
  unfold grouped in Hg.
  rewrite (for_of_Throw (group_step db buyerType) evs JSObject.empty e He) in Hg;
    [discriminate|].
  intros o'; unfold group_step; rewrite Hb; reflexivity.
Qed.

Lemma qualifying_all {H : Host} db evs o :
  grouped db all evs = Ok o -> qualifying db all evs = evs.
Proof.
  intros Hg; unfold qualifying.
  assert (Hall : forall e, In e evs -> qualifies db all e = true).
  { intros e He; destruct (grouped_buyers_found db all evs o Hg e He) as [b Hb].
    unfold qualifies; rewrite Hb; reflexivity. }
  clear Hg; induction evs as [|e evs IH]; simpl; auto.
  rewrite (Hall e (or_introl eq_refl)), IH; auto.
  intros; apply Hall; right; auto.
Qed.

(* ------------------------------------------------------------------ *)
(** ** Counting *)

Lemma list_sum_perm l l' : Permutation l l' -> list_sum l = list_sum l'.
Proof. induction 1; simpl; lia. Qed.

Lemma list_sum_map_add {A : Type} (f g : A -> nat) l :
  list_sum (map (fun x => f x + g x) l) = list_sum (map f l) + list_sum (map g l).
Proof. induction l; simpl; lia. Qed.

Lemma sum_indicator (x : string) keys :
  NoDup keys -> In x keys ->
  list_sum (map (fun k => if String.eqb x k then 1 else 0) keys) = 1.
Proof.
  induction 1 as [|k keys Hk Hnd IH]; simpl; [tauto|].
  destruct (String.eqb x k) eqn:He.
  - apply String.eqb_eq in He; subst k; intros _.
    assert (Hz : forall l, ~ In x l ->
                 list_sum (map (fun k => if String.eqb x k then 1 else 0) l) = 0).
    { induction l as [|y l IHl]; simpl; auto; intros Hn.
      destruct (String.eqb x y) eqn:Hy; [apply String.eqb_eq in Hy; subst; tauto|].
      apply IHl; tauto. }
    rewrite Hz; auto.
  - apply String.eqb_neq in He; intros [->|Hin]; [congruence|auto].
Qed.

(** Events split by buyer id: every event falls under one key. *)
Lemma count_by_key keys (l : list BuyerEvent.t) :
  NoDup keys -> (forall e, In e l -> In (BuyerEvent.buyer_id e) keys) ->
  list_sum (map (fun k => List.length (filter (of_buyer k) l)) keys)
  = List.length l.
Proof.
  intros Hnd; induction l as [|e l IH]; intros Hin; simpl.
  - clear; induction keys; simpl; auto.
  - rewrite <- IH by (intros; apply Hin; right; auto).
    transitivity
      (list_sum (map (fun k => if String.eqb (BuyerEvent.buyer_id e) k
                               then 1 else 0) keys)
       + list_sum (map (fun k => List.length (filter (of_buyer k) l)) keys)).
    + rewrite <- list_sum_map_add.
      f_equal; apply map_ext; intros k; unfold of_buyer at 1.
      destruct (String.eqb (BuyerEvent.buyer_id e) k); simpl; lia.
    + rewrite sum_indicator; auto.
      apply Hin; left; reflexivity.
Qed.

Lemma rows_count_sum {H : Host} db buyerType evs o :
  grouped db buyerType evs = Ok o ->
  list_sum (map ResultRow.deals_count
                (Array_sort row_gt (map row_of (JSObject.values o))))
  = List.length (qualifying db buyerType evs).
Proof.
  intros Hg; assert (Hinv := grouped_inv db buyerType evs o Hg).
  rewrite (list_sum_perm _ _ (Permutation_map _ (Array_sort_perm _ _))).
  unfold JSObject.values; rewrite !map_map.
  rewrite (list_sum_perm _ _
             (Permutation_map _ (JSObjectFacts.own_properties_perm o))).
  rewrite <- (count_by_key (map fst o)).
  - rewrite map_map; f_equal; apply map_ext_in; intros [k g] Hin; simpl.
    destruct (In_group_ok db buyerType evs o Hinv k g Hin) as (_ & _ & -> & _).
    reflexivity.
  - eapply groups_NoDup; eauto.
  - destruct Hinv as [-> _]; intros e He; apply first_ids_In.
    unfold group_ids; apply in_map; exact He.
Qed.

(* ------------------------------------------------------------------ *)
(** ** The date of the last deal *)

Section Latest.
Context {H : Host}.

Lemma later_ge m e : (m <= later m e)%Z.
Proof.
  unfold later; destruct (Date_parse (BuyerEvent.event_date e)) as [d|]; [|lia].
  destruct (Z.ltb_spec m d); lia.
Qed.

Lemma fold_later_ge l : forall m, (m <= fold_left later l m)%Z.
Proof.
  induction l as [|e l IH]; simpl; intros m; [lia|].
  specialize (IH (later m e)); assert (Hm := later_ge m e); lia.
Qed.

Lemma fold_later_In l e d :
  In e l -> Date_parse (BuyerEvent.event_date e) = Some d ->
  forall m, (d <= fold_left later l m)%Z.
Proof.
  induction l as [|x l IH]; simpl; [tauto|].
  intros [->|Hin] Hd m; [|auto].
  assert (Hm := fold_later_ge l (later m e)).
  assert (Hle : (d <= later m e)%Z)
    by (unfold later; rewrite Hd; destruct (Z.ltb_spec m d); lia).
  lia.
Qed.

Lemma fold_later_attained l :
  forall m, fold_left later l m = m
            \/ exists e, In e l
                         /\ Date_parse (BuyerEvent.event_date e)
                            = Some (fold_left later l m).
Proof.
  induction l as [|x l IH]; simpl; intros m; auto.
  destruct (IH (later m x)) as [Heq|(e & He & Hd)].
  - rewrite Heq; unfold later.
    destruct (Date_parse (BuyerEvent.event_date x)) as [d|] eqn:Hx; auto.
    destruct (Z.ltb_spec m d); auto.
    right; exists x; auto.
  - right; exists e; auto.
Qed.

End Latest.

(* ------------------------------------------------------------------ *)
(** ** Who gets a row, and what the row says *)

(** X1. The rows are the active buyers.  Every row copies the id, the name,
    the type and the contacts of a buyer of the dataset, the first one
    listed under that id, who has the requested type and a retained
    purchase; and every such buyer has a row. *)
Theorem rows_are_active_buyers {H : Host} db now center radiusMiles months buyerType evs out :
  filtered db now center radiusMiles months = Ok evs ->
  computeResults db now center radiusMiles months buyerType = Ok out ->
  (forall row, In row out ->
     exists b, has_row db buyerType evs b
               /\ ResultRow.id row = Buyer.id b
               /\ ResultRow.name row = Buyer.name b
               /\ ResultRow.buyer_type row = Buyer.buyer_type b
               /\ ResultRow.contacts row = Buyer.contacts b)
  /\ (forall b, has_row db buyerType evs b ->
        exists row, In row out /\ ResultRow.id row = Buyer.id b).
Proof.
  intros Hf Hout.
  assert (Hrows := rows_characterised db now center radiusMiles months
                     buyerType evs out Hf Hout).
  split.
  - intros row Hrow; apply Hrows in Hrow; destruct Hrow as (b & Hb & ->).
    exists b; repeat split; auto; apply Hb.
  - intros b Hb; exists (row_of (group_of evs b)); split; [|reflexivity].
    apply Hrows; eauto.
Qed.

Lemma rows_are_active_buyers_witness :
  exists row, In row demo_rows /\ ResultRow.id row = "b3"%string.
Proof.
  assert (H1 : filtered Seed.data demo_now Seed.san_antonio 10 24 = Ok demo_events)
    by (vm_compute; reflexivity).
  assert (H2 : computeResults Seed.data demo_now Seed.san_antonio 10 24 all
               = Ok demo_rows) by (vm_compute; reflexivity).
  assert (Hb : has_row Seed.data all demo_events
                 (Buyer.Build_t "b3" "River City Capital" cash
                    [Seed.tel "210-555-0199"])).
  { split; [vm_compute; reflexivity|split; [reflexivity|]].
    vm_compute; discriminate. }
  exact (proj2 (rows_are_active_buyers Seed.data demo_now Seed.san_antonio 10 24
                  all demo_events demo_rows H1 H2) _ Hb).
Defined.

(** X2. Every retained purchase is counted once.  The deal counts of the
    rows add up to the number of retained events whose buyer has the
    requested type, which for the type "all" is every retained event; and
    no row has a count of zero. *)
Theorem deals_counted_once {H : Host} db now center radiusMiles months buyerType evs out :
  filtered db now center radiusMiles months = Ok evs ->
  computeResults db now center radiusMiles months buyerType = Ok out ->
  list_sum (map ResultRow.deals_count out)
  = List.length (qualifying db buyerType evs)
  /\ (buyerType = all ->
      list_sum (map ResultRow.deals_count out) = List.length evs)
  /\ Forall (fun row => 1 <= ResultRow.deals_count row) out.
Proof.
  intros Hf Hout.
  assert (Hrows := rows_characterised db now center radiusMiles months
                     buyerType evs out Hf Hout).
  apply computeResults_Ok in Hout.
  destruct Hout as (evs' & o & Hf' & Hg & ->).
  assert (evs' = evs) by congruence; subst evs'.
  assert (Hsum := rows_count_sum db buyerType evs o Hg).
  split; [exact Hsum|split].
  - intros ->; rewrite Hsum, (qualifying_all db evs o Hg); reflexivity.
  - apply Forall_forall; intros row Hrow.
    apply Hrows in Hrow; destruct Hrow as (b & (_ & _ & Hne) & ->); simpl.
    destruct (filter (of_buyer (Buyer.id b)) evs); simpl; [tauto|lia].
Qed.

Lemma deals_counted_once_witness :
  list_sum (map ResultRow.deals_count demo_rows) = List.length demo_events.
Proof.
  assert (H1 : filtered Seed.data demo_now Seed.san_antonio 10 24 = Ok demo_events)
    by (vm_compute; reflexivity).
  assert (H2 : computeResults Seed.data demo_now Seed.san_antonio 10 24 all
               = Ok demo_rows) by (vm_compute; reflexivity).
  exact (proj1 (proj2 (deals_counted_once Seed.data demo_now Seed.san_antonio
                         10 24 all demo_events demo_rows H1 H2)) eq_refl).
Defined.

(** X3. The date of a row's last deal is the latest date among the retained
    purchases of its buyer: no such purchase is later, one of them has
    that date unless they are all before 1970 (the date the loop starts
    from), and it is never before the start of the time window. *)
Theorem last_deal_is_latest {H : Host} db now center radiusMiles months buyerType evs out :
  filtered db now center radiusMiles months = Ok evs ->
  computeResults db now center radiusMiles months buyerType = Ok out ->
  forall row, In row out ->
    let deals := filter (of_buyer (ResultRow.id row)) evs in
    (forall e d, In e deals ->
                 Date_parse (BuyerEvent.event_date e) = Some d ->
                 (d <= ResultRow.last_deal row)%Z)
    /\ (ResultRow.last_deal row = 0%Z
        \/ exists e, In e deals
                     /\ Date_parse (BuyerEvent.event_date e)
                        = Some (ResultRow.last_deal row))
    /\ (forall since, monthsAgo now months = Some since ->
                      (since <= ResultRow.last_deal row)%Z).
Proof.
  intros Hf Hout row Hrow.
  apply (rows_characterised db now center radiusMiles months buyerType evs out
           Hf Hout) in Hrow.
  destruct Hrow as (b & (_ & _ & Hne) & ->); cbv zeta; simpl.
  split; [|split].
  - intros e d He Hd; unfold latest; eapply fold_later_In; eauto.
  - apply fold_later_attained.
  - intros since Hs.
    destruct (filter (of_buyer (Buyer.id b)) evs) as [|e l] eqn:Hd; [tauto|].
    assert (He : In e evs).
    { assert (Hin : In e (filter (of_buyer (Buyer.id b)) evs))
        by (rewrite Hd; left; reflexivity).
      apply filter_In in Hin; tauto. }
    unfold filtered in Hf; apply Array_filter_Ok in Hf; destruct Hf as [-> _].
    apply filter_In in He; destruct He as [_ Hk].
    unfold keeps, retained in Hk; rewrite Hs in Hk.
    destruct (find_property db e); [|discriminate].
    destruct (is_purchase e); simpl in Hk; [|discriminate].
    destruct (Date_parse (BuyerEvent.event_date e)) as [d|] eqn:Hp;
      simpl in Hk; [|discriminate].
    destruct (Z.leb_spec since d); simpl in Hk; [|discriminate].
    assert (Hle : (d <= latest (e :: l))%Z)
      by (unfold latest; apply (fold_later_In (e :: l) e d); simpl; auto).
    lia.
Qed.

Lemma last_deal_is_latest_witness :
  exists e, In e (filter (of_buyer "b1") demo_events)
            /\ Date_parse (BuyerEvent.event_date e) = Some 1753056000000%Z.
Proof.
  assert (H1 : filtered Seed.data demo_now Seed.san_antonio 10 24 = Ok demo_events)
    by (vm_compute; reflexivity).
  assert (H2 : computeResults Seed.data demo_now Seed.san_antonio 10 24 all
               = Ok demo_rows) by (vm_compute; reflexivity).
  assert (Hrow : In (nth 0 demo_rows (row_of (new_group (Buyer.Build_t "" "" unknown []))))
                    demo_rows) by (simpl; auto).
  destruct (proj1 (proj2 (last_deal_is_latest Seed.data demo_now Seed.san_antonio
                            10 24 all demo_events demo_rows H1 H2 _ Hrow)))
    as [H0|He].
  - vm_compute in H0; discriminate.
  - exact He.
Defined.

(* ------------------------------------------------------------------ *)
(** ** Events that do not count *)

Lemma filter_filter_implied {A : Type} (p q : A -> bool) l :
  (forall x, In x l -> p x = true -> q x = true) ->
  filter p (filter q l) = filter p l.
Proof.
  induction l as [|x l IH]; simpl; intros Hpq; auto.
  assert (IH' := IH (fun y Hy => Hpq y (or_intror Hy))).
  destruct (q x) eqn:Hq; simpl.
  - rewrite IH'; reflexivity.
  - destruct (p x) eqn:Hp; auto.
    rewrite (Hpq x (or_introl eq_refl) Hp) in Hq; discriminate.
Qed.

(** The dataset without its sale events. *)
Definition without_sales (db : Dataset) : Dataset :=
  {| buyers := buyers db;
     properties := properties db;
     events := filter is_purchase (events db) |}.

(** X4. Sales do not count: a query that returns rows returns the same rows
    when the sale events are taken out of the dataset. *)
Theorem sales_do_not_count {H : Host} db now center radiusMiles months buyerType out :
  computeResults db now center radiusMiles months buyerType = Ok out ->
  computeResults (without_sales db) now center radiusMiles months buyerType
  = Ok out.
Proof.
  intros Hout; apply computeResults_Ok in Hout.
  destruct Hout as (evs & o & Hf & Hg & ->).
  unfold computeResults, filtered in *.
  change (retained (without_sales db)) with (retained db).
  change (events (without_sales db)) with (filter is_purchase (events db)).
  apply Array_filter_Ok in Hf; destruct Hf as [-> Hall].
  rewrite Array_filter_total.
  - rewrite filter_filter_implied.
    + cbn [bind].
      change (grouped (without_sales db) buyerType) with (grouped db buyerType).
      rewrite Hg; reflexivity.
    + intros e _; unfold keeps, retained.
      destruct (find_property db e); [|discriminate].
      destruct (is_purchase e); [reflexivity|discriminate].
  - rewrite Forall_forall in *; intros e He; apply filter_In in He.
    apply Hall, He.
Qed.

Lemma sales_do_not_count_witness :
  computeResults (without_sales Dangling.no_buyer) demo_now Seed.san_antonio
                 10 24 all
  = Ok demo_rows.
Proof.
  apply sales_do_not_count; vm_compute; reflexivity.
Defined.

(* ------------------------------------------------------------------ *)
(** ** Widening the filter *)

Lemma rows_ids_NoDup {H : Host} db now center radiusMiles months buyerType out :
  computeResults db now center radiusMiles months buyerType = Ok out ->
  NoDup (map ResultRow.id out).
Proof.
  intros Hout; apply computeResults_Ok in Hout.
  destruct Hout as (evs & o & _ & Hg & ->).
  apply grouped_inv in Hg.
  eapply Permutation_NoDup.
  - apply Permutation_map, Permutation_sym, Array_sort_perm.
  - rewrite (rows_ids db buyerType evs o Hg); unfold JSObject.keys.
    eapply Permutation_NoDup;
      [apply Permutation_map, Permutation_sym, JSObjectFacts.own_properties_perm|].
    eapply groups_NoDup; eauto.
Qed.

Lemma latest_incl {H : Host} l1 l2 :
  incl l1 l2 -> (latest l1 <= latest l2)%Z.
Proof.
  intros Hincl; unfold latest.
  destruct (fold_later_attained l1 0%Z) as [->|(e & He & Hd)].
  - apply fold_later_ge.
  - eapply fold_later_In; eauto.
Qed.

(** [row2] is a row of the same buyer as [row1], with at least as many
    deals and a last deal that is not earlier. *)
Definition extends (row1 row2 : ResultRow.t) : Prop :=
  ResultRow.id row2 = ResultRow.id row1
  /\ ResultRow.name row2 = ResultRow.name row1
  /\ ResultRow.deals_count row1 <= ResultRow.deals_count row2
  /\ (ResultRow.last_deal row1 <= ResultRow.last_deal row2)%Z.

Lemma filter_filter_length_mono {A : Type} (p q ob : A -> bool) l :
  (forall x, In x l -> p x = true -> q x = true) ->
  List.length (filter ob (filter p l)) <= List.length (filter ob (filter q l)).
Proof.
  induction l as [|x l IH]; simpl; intros Hpq; auto.
  assert (Hl := IH (fun y Hy => Hpq y (or_intror Hy))).
  destruct (p x) eqn:Hp.
  - rewrite (Hpq x (or_introl eq_refl) Hp); simpl.
    destruct (ob x); simpl; lia.
  - destruct (q x); simpl; [destruct (ob x); simpl|]; lia.
Qed.

(** When one call retains every event another call retains, it has a row
    for every buyer of the other, and at least as many rows. *)
Lemma rows_widen {H : Host} db buyerType
      now1 center1 r1 m1 now2 center2 r2 m2 out1 out2 :
  (forall e, In e (events db) ->
             keeps (retained db center1 r1 (monthsAgo now1 m1)) e = true ->
             keeps (retained db center2 r2 (monthsAgo now2 m2)) e = true) ->
  computeResults db now1 center1 r1 m1 buyerType = Ok out1 ->
  computeResults db now2 center2 r2 m2 buyerType = Ok out2 ->
  (forall row1, In row1 out1 -> exists row2, In row2 out2 /\ extends row1 row2)
  /\ List.length out1 <= List.length out2.
Proof.
  intros Hk Ho1 Ho2.
  destruct (computeResults_Ok db now1 center1 r1 m1 buyerType out1 Ho1)
    as (evs1 & _ & Hf1 & _).
  destruct (computeResults_Ok db now2 center2 r2 m2 buyerType out2 Ho2)
    as (evs2 & _ & Hf2 & _).
  assert (Hr1 := rows_characterised db now1 center1 r1 m1 buyerType evs1 out1 Hf1 Ho1).
  assert (Hr2 := rows_characterised db now2 center2 r2 m2 buyerType evs2 out2 Hf2 Ho2).
  unfold filtered in Hf1, Hf2; apply Array_filter_Ok in Hf1, Hf2.
  destruct Hf1 as [Hf1 _], Hf2 as [Hf2 _].
  assert (Hsub : forall k, incl (filter (of_buyer k) evs1) (filter (of_buyer k) evs2)).
  { intros k e He; subst evs1 evs2.
    apply filter_In in He; destruct He as [He Hof].
    apply filter_In in He; destruct He as [He Hk1].
    apply filter_In; split; [apply filter_In|]; auto. }
  assert (Hrows : forall row1, In row1 out1 ->
                               exists row2, In row2 out2 /\ extends row1 row2).
  { intros row1 Hrow; apply Hr1 in Hrow.
    destruct Hrow as (b & (Hfind & Hs & Hne) & ->).
    exists (row_of (group_of evs2 b)); split.
    - apply Hr2; exists b; split; auto.
      split; [exact Hfind|split; [exact Hs|]].
      intros Hnil; apply Hne.
      destruct (filter (of_buyer (Buyer.id b)) evs1) as [|e l] eqn:He; auto.
      assert (Hin : In e (filter (of_buyer (Buyer.id b)) evs2))
        by (apply Hsub; rewrite He; left; reflexivity).
      rewrite Hnil in Hin; destruct Hin.
    - unfold extends; simpl; repeat split.
      + subst evs1 evs2; apply filter_filter_length_mono; exact Hk.
      + apply latest_incl, Hsub. }
  split; [exact Hrows|].
  rewrite <- (length_map ResultRow.id out1), <- (length_map ResultRow.id out2).
  apply NoDup_incl_length; [eapply rows_ids_NoDup; eauto|].
  intros k Hin; apply in_map_iff in Hin; destruct Hin as (row1 & <- & Hrow).
  destruct (Hrows row1 Hrow) as (row2 & Hin & Hid & _).
  rewrite <- Hid; apply in_map; exact Hin.
Qed.








(* ------------------------------------------------------------------ *)
(** ** Buyer ids that name a property of [Object.prototype] *)

Lemma group_step_keys {H : Host} db buyerType o ev o' :
  Forall (fun k => JSObject.inherited k = false) (map fst o) ->
  group_step db buyerType o ev = Ok o' ->
  Forall (fun k => JSObject.inherited k = false) (map fst o').
Proof.
  unfold group_step; intros Hkeys.
  destruct (find_buyer db ev) as [b|]; [|discriminate].
  destruct (skipped buyerType b); [intros [= <-]; exact Hkeys|].
  destruct (JSObject.get_own o (Buyer.id b)) as [g|] eqn:Hg.
  - intros [= <-]; rewrite JSObjectFacts.keys_set; unfold add_key.
    destruct (existsb (String.eqb (Buyer.id b)) (map fst o)) eqn:He; auto.
    apply JSObjectFacts.get_own_In in Hg; apply (in_map fst) in Hg.
    apply (proj2 (existsb_eqb_In _ _)) in Hg; simpl in Hg; congruence.
  - destruct (JSObject.inherited (Buyer.id b)) eqn:Hi; [discriminate|].
    intros [= <-]; rewrite JSObjectFacts.keys_set; unfold add_key.
    destruct (existsb (String.eqb (Buyer.id b)) (map fst o)); auto.
    apply Forall_app; split; auto.
Qed.

Lemma grouped_keys {H : Host} db buyerType evs o :
  grouped db buyerType evs = Ok o ->
  Forall (fun k => JSObject.inherited k = false) (map fst o).
Proof.
  unfold grouped.
  apply for_of_invariant
    with (I := fun _ o => Forall (fun k => JSObject.inherited k = false) (map fst o)).
  - constructor.
  - intros p x s s' Hs Hb; eapply group_step_keys; eauto.
Qed.

(** X7. A buyer whose id names a property that every object inherits
    ([constructor], [toString], [__proto__], ...) cannot be grouped: as soon
    as one of its purchases is retained and passes the type filter, the
    query throws a [TypeError]. *)
Theorem inherited_id_throws {H : Host} db now center radiusMiles months buyerType evs e b :
  filtered db now center radiusMiles months = Ok evs ->
  In e evs ->
  find_buyer db e = Some b ->
  skipped buyerType b = false ->
  JSObject.inherited (Buyer.id b) = true ->
  computeResults db now center radiusMiles months buyerType = Throw TypeError.
Proof.
  intros Hf He Hb Hs Hi; unfold computeResults; rewrite Hf; cbn [bind].
  destruct (grouped db buyerType evs) as [o|x] eqn:Hg;
    [|cbn [bind]; apply Throw_TypeError].
  exfalso.
  assert (Hkeys := grouped_keys db buyerType evs o Hg).
  destruct (grouped_inv db buyerType evs o Hg) as [Hids _].
  assert (Hk : In (Buyer.id b) (map fst o)).
  { rewrite Hids; apply first_ids_In.
    rewrite (find_buyer_id db e b Hb).
    unfold group_ids; apply in_map, filter_In; split; auto.
    unfold qualifies; rewrite Hb, Hs; reflexivity. }
  rewrite Forall_forall in Hkeys; rewrite (Hkeys _ Hk) in Hi; discriminate.
Qed.

Module Inherited.
Local Open Scope string_scope.
Local Open Scope float_scope.

Definition purchase_of_constructor : BuyerEvent.t :=
  BuyerEvent.Build_t "e8" "constructor" "p1" purchase "2025-06-01" 200000 county.

(** The seeded data with one more buyer, whose id is [constructor], and a
    purchase of that buyer. *)
Definition data : Dataset :=
  Build_Dataset
    (Seed.buyers ++ [Buyer.Build_t "constructor" "Constructor Homes" flipper []])
    Seed.properties
    (Seed.events ++ [purchase_of_constructor]).

Definition retained_events : list BuyerEvent.t :=
  Eval vm_compute in
    match filtered data demo_now Seed.san_antonio 10 24 with
    | Ok evs => evs
    | Throw _ => []
    end.

End Inherited.

Lemma inherited_id_throws_witness :
  computeResults Inherited.data demo_now Seed.san_antonio 10 24 all
  = Throw TypeError.
Proof.
  apply (inherited_id_throws Inherited.data demo_now Seed.san_antonio 10 24 all
           Inherited.retained_events Inherited.purchase_of_constructor
           (Buyer.Build_t "constructor" "Constructor Homes" flipper [])).
  - vm_compute; reflexivity.
  - vm_compute; auto 10.
  - vm_compute; reflexivity.
  - reflexivity.
  - vm_compute; reflexivity.
Defined.

(* ------------------------------------------------------------------ *)
(** ** The type filter and the unfiltered result *)

Lemma rows_sorted {H : Host} db buyerType evs o :
  grouped db buyerType evs = Ok o ->
  StronglySorted (ranks (group_ids db buyerType evs))
                 (Array_sort row_gt (map row_of (JSObject.values o))).
Proof.
  intros Hg; apply grouped_inv in Hg.
  eapply StronglySorted_impl;
    [|apply (Array_sort_stable row_gt (fun _ => True)
               (fun a b => enum_before (group_ids db buyerType evs)
                                       (ResultRow.id a) (ResultRow.id b)))].
  - intros a b _ _ [Hab Hba]; unfold ranks.
    apply row_gt_false in Hab.
    destruct Hba as [Hba|Hba]; [apply row_gt_true in Hba; lia|].
    destruct Hab as [Hab|[Hc Hl]]; auto.
    right; split; auto.
    destruct (Z.eq_dec (ResultRow.last_deal a) (ResultRow.last_deal b)); auto.
    left; lia.
  - intros a b _ _ Hab; apply row_gt_true in Hab; apply row_gt_false; lia.
  - intros a b c _ _ _ Hab Hbc.
    apply row_gt_false in Hab, Hbc; apply row_gt_false; lia.
  - apply Forall_forall; auto.
  - apply rows_enumerated; auto.
Qed.

Lemma enum_before_asym ids a b : enum_before ids a b -> enum_before ids b a -> False.
Proof.
  unfold enum_before.
  destruct (JSObject.array_index a), (JSObject.array_index b); lia.
Qed.

Lemma ranks_asym ids a b : ranks ids a b -> ranks ids b a -> False.
Proof.
  unfold ranks; intros [H1|[H1 [H1'|[H1' He]]]] [H2|[H2 [H2'|[H2' He']]]];
    try lia.
  eapply enum_before_asym; eauto.
Qed.

(** Two arrangements of the same elements that are both sorted by an
    asymmetric relation are the same list. *)
Lemma sorted_perm_eq {A : Type} (R : A -> A -> Prop) l1 :
  (forall a b, R a b -> R b a -> False) ->
  forall l2, Permutation l1 l2 ->
             StronglySorted R l1 -> StronglySorted R l2 -> l1 = l2.
Proof.
  intros Hasym; induction l1 as [|x l1 IH]; intros l2 Hp Hs1 Hs2.
  - apply Permutation_nil in Hp; auto.
  - destruct l2 as [|y l2];
      [apply Permutation_sym, Permutation_nil in Hp; discriminate|].
    inversion Hs1 as [|? ? Hs1' Hx]; subst.
    inversion Hs2 as [|? ? Hs2' Hy]; subst.
    rewrite Forall_forall in Hx, Hy.
    assert (Hxy : x = y).
    { assert (Hin : In x (y :: l2))
        by (apply (Permutation_in _ Hp); left; reflexivity).
      destruct Hin as [Hin|Hin]; [auto|].
      assert (Hin' : In y (x :: l1))
        by (apply (Permutation_in _ (Permutation_sym Hp)); left; reflexivity).
      destruct Hin' as [Hin'|Hin']; [auto|].
      exfalso; apply (Hasym x y); auto. }
    subst y; f_equal; apply IH; auto.
    eapply Permutation_cons_inv; eauto.
Qed.

Lemma first_index_filter (P : string -> bool) a b l :
  P a = true -> P b = true ->
  first_index a (filter P l) < first_index b (filter P l) ->
  first_index a l < first_index b l.
Proof.
  intros Pa Pb; induction l as [|x l IH]; simpl; auto.
  destruct (P x) eqn:Px; simpl.
  - destruct (String.eqb x a), (String.eqb x b); lia.
  - destruct (String.eqb x a) eqn:Ea;
      [apply String.eqb_eq in Ea; congruence|].
    destruct (String.eqb x b) eqn:Eb;
      [apply String.eqb_eq in Eb; congruence|].
    lia.
Qed.

Section TypeFilter.
Context {H : Host}.
Variable db : Dataset.
Variable c : BuyerType.

(** The ids under which an event passes the type filter [c]. *)
Definition of_type (k : string) : bool :=
  match find (fun b => String.eqb (Buyer.id b) k) (buyers db) with
  | Some b => negb (skipped (only c) b)
  | None => false
  end.

Lemma group_ids_only evs o :
  grouped db all evs = Ok o ->
  group_ids db (only c) evs = filter of_type (group_ids db all evs).
Proof.
  intros Hg; unfold group_ids; rewrite (qualifying_all db evs o Hg).
  unfold qualifying; clear Hg.
  induction evs as [|e evs IH]; simpl; auto.
  change (qualifies db (only c) e) with (of_type (BuyerEvent.buyer_id e)).
  destruct (of_type (BuyerEvent.buyer_id e)); simpl; rewrite IH; reflexivity.
Qed.

Lemma has_row_only evs b :
  has_row db (only c) evs b
  <-> has_row db all evs b /\ BuyerType_eqb (Buyer.buyer_type b) c = true.
Proof.
  unfold has_row; simpl.
  destruct (BuyerType_eqb (Buyer.buyer_type b) c); simpl; intuition congruence.
Qed.

Lemma grouped_only_total evs o :
  grouped db all evs = Ok o -> exists o', grouped db (only c) evs = Ok o'.
Proof.
  intros Hg; unfold grouped; apply for_of_total; intros e o' He.
  destruct (grouped_buyers_found db all evs o Hg e He) as [b Hb].
  apply (group_step_total db (only c) o' e b Hb).
  assert (Hkeys := grouped_keys db all evs o Hg).
  destruct (grouped_inv db all evs o Hg) as [Hids _].
  rewrite Forall_forall in Hkeys; apply Hkeys.
  rewrite Hids; apply first_ids_In.
  rewrite (find_buyer_id db e b Hb).
  unfold group_ids; rewrite (qualifying_all db evs o Hg); apply in_map; exact He.
Qed.

End TypeFilter.

(** X8. Filtering by type restricts the unfiltered result.  When the query
    for every type returns rows, the query for the type [c] returns those
    of them that have the type [c], in the same order. *)
Theorem type_filter_restricts {H : Host} db now center radiusMiles months c out :
  computeResults db now center radiusMiles months all = Ok out ->
  computeResults db now center radiusMiles months (only c)
  = Ok (filter (fun row => BuyerType_eqb (ResultRow.buyer_type row) c) out).
Proof.
  intros Hout.
  destruct (computeResults_Ok db now center radiusMiles months all out Hout)
    as (evs & o & Hf & Hg & Hsort).
  destruct (grouped_only_total db c evs o Hg) as [o' Hg'].
  assert (Hout' : computeResults db now center radiusMiles months (only c)
                  = Ok (Array_sort row_gt (map row_of (JSObject.values o'))))
    by (unfold computeResults; rewrite Hf; cbn [bind]; rewrite Hg'; reflexivity).
  rewrite Hout'; f_equal; symmetry.
  assert (Hr := rows_characterised db now center radiusMiles months all evs out
                  Hf Hout).
  assert (Hr' := rows_characterised db now center radiusMiles months (only c) evs
                   _ Hf Hout').
  apply sorted_perm_eq with (R := ranks (group_ids db all evs)).
  - apply ranks_asym.
  - apply NoDup_Permutation.
    + apply NoDup_filter.
      apply (NoDup_map_inv ResultRow.id).
      eapply rows_ids_NoDup; eauto.
    + apply (NoDup_map_inv ResultRow.id).
      eapply rows_ids_NoDup; eauto.
    + intros row; rewrite filter_In, Hr, Hr'; split.
      * intros [(b & Hb & ->) Ht]; exists b; split; auto.
        apply has_row_only; auto.
      * intros (b & Hb & ->); apply has_row_only in Hb; split; [|apply Hb].
        exists b; split; [apply Hb|reflexivity].
  - apply StronglySorted_filter; subst out; apply rows_sorted; exact Hg.
  - eapply StronglySorted_impl; [|apply rows_sorted; exact Hg'].
    intros a b Ha Hb; unfold ranks.
    intros [Hc|[Hc [Hl|[Hl He]]]]; auto.
    right; split; auto; right; split; auto.
    apply Hr' in Ha, Hb.
    destruct Ha as (ba & Hba & ->), Hb as (bb & Hbb & ->); simpl in *.
    revert He; unfold enum_before.
    destruct (JSObject.array_index (Buyer.id ba)),
             (JSObject.array_index (Buyer.id bb)); auto.
    rewrite (group_ids_only db c evs o Hg).
    apply first_index_filter; unfold of_type.
    + destruct Hba as (-> & -> & _); reflexivity.
    + destruct Hbb as (-> & -> & _); reflexivity.
Qed.

Lemma type_filter_restricts_witness :
  computeResults Seed.data demo_now Seed.san_antonio 10 24 (only flipper)
  = Ok (filter (fun row => BuyerType_eqb (ResultRow.buyer_type row) flipper)
               demo_rows).
Proof.
  apply type_filter_restricts; vm_compute; reflexivity.
Defined.

(* ------------------------------------------------------------------ *)
(** ** The calendar date of [monthsAgo] *)

Module CalendarFacts.
Import JSDate JSDateFacts.
Local Open Scope Z_scope.

(** The number of days of month [m] (0 to 11) in a year whose leap-year
    flag is [l], and in the year [y]. *)
Definition month_length (m l : Z) : Z :=
  if m =? 1 then 28 + l
  else if (m =? 3) || (m =? 5) || (m =? 8) || (m =? 10) then 30
  else 31.

Definition DaysInMonth (y m : Z) : Z := month_length m (leap_of_year y).

(** [MonthFromTime] as a function of the day within the year. *)
Definition month_of (d leap : Z) : Z :=
  if d <? month_start 1 leap then 0
  else if d <? month_start 2 leap then 1
  else if d <? month_start 3 leap then 2
  else if d <? month_start 4 leap then 3
  else if d <? month_start 5 leap then 4
  else if d <? month_start 6 leap then 5
  else if d <? month_start 7 leap then 6
  else if d <? month_start 8 leap then 7
  else if d <? month_start 9 leap then 8
  else if d <? month_start 10 leap then 9
  else if d <? month_start 11 leap then 10
  else 11.

Lemma MonthFromTime_month_of t :
  MonthFromTime t = month_of (DayWithinYear t) (InLeapYear t).
Proof. reflexivity. Qed.

Ltac month_starts :=
  repeat match goal with
         | |- context [month_start ?m ?l] =>
             first [ is_var m; fail 2 | idtac ];
             let v := eval cbv [month_start Z.leb Z.eqb Z.compare Pos.compare
                                  Pos.compare_cont Pos.eqb] in (month_start m l) in
             change (month_start m l) with v
         end.

Ltac month_cases m H :=
  assert (H : m = 0 \/ m = 1 \/ m = 2 \/ m = 3 \/ m = 4 \/ m = 5 \/ m = 6
              \/ m = 7 \/ m = 8 \/ m = 9 \/ m = 10 \/ m = 11) by lia.

Ltac month_chain :=
  repeat match goal with
         | |- context [?a <? ?b] => destruct (Z.ltb_spec a b)
         end.

Lemma month_of_spec d l :
  0 <= l <= 1 -> 0 <= d < 365 + l ->
  0 <= month_of d l <= 11
  /\ month_start (month_of d l) l <= d
     < month_start (month_of d l) l + month_length (month_of d l) l.
Proof.
  intros Hl Hd; unfold month_of; month_starts; month_chain;
    month_starts; unfold month_length; cbv [Z.eqb Pos.eqb orb]; lia.
Qed.

Lemma month_of_unique d l m :
  0 <= l <= 1 -> 0 <= m <= 11 ->
  month_start m l <= d < month_start m l + month_length m l ->
  month_of d l = m.
Proof.
  intros Hl Hm; month_cases m Hc.
  repeat (destruct Hc as [->|Hc];
          [month_starts; unfold month_length; cbv [Z.eqb Pos.eqb orb];
           intros Hd; unfold month_of; month_starts; month_chain; lia|]).
  subst m; month_starts; unfold month_length; cbv [Z.eqb Pos.eqb orb];
    intros Hd; unfold month_of; month_starts; month_chain; lia.
Qed.

Lemma DayFromYear_mono y1 y2 : y1 <= y2 -> DayFromYear y1 <= DayFromYear y2.
Proof. unfold DayFromYear; intros; Z.div_mod_to_equations; lia. Qed.

Lemma YearFromTime_unique t y :
  DayFromYear y <= Day t < DayFromYear (y + 1) -> YearFromTime t = y.
Proof.
  intros Hy; assert (Hs := YearFromTime_spec t).
  destruct (Z.lt_trichotomy (YearFromTime t) y) as [Hlt|[Heq|Hgt]]; auto.
  - assert (Hm := DayFromYear_mono (YearFromTime t + 1) y); lia.
  - assert (Hm := DayFromYear_mono (y + 1) (YearFromTime t)); lia.
Qed.

Lemma InLeapYear_range t : 0 <= InLeapYear t <= 1.
Proof. apply leap_of_year_range. Qed.

Lemma DayWithinYear_range t : 0 <= DayWithinYear t < 365 + InLeapYear t.
Proof.
  unfold DayWithinYear, InLeapYear.
  assert (Hs := YearFromTime_spec t).
  rewrite DayFromYear_succ, DaysInYear_leap in Hs; lia.
Qed.

Lemma MonthFromTime_range t : 0 <= MonthFromTime t <= 11.
Proof.
  rewrite MonthFromTime_month_of.
  apply month_of_spec; [apply InLeapYear_range|apply DayWithinYear_range].
Qed.

Lemma DateFromTime_range t :
  1 <= DateFromTime t <= DaysInMonth (YearFromTime t) (MonthFromTime t).
Proof.
  unfold DateFromTime, DaysInMonth; rewrite MonthFromTime_month_of.
  fold (InLeapYear t).
  assert (Hs := month_of_spec (DayWithinYear t) (InLeapYear t)
                  (InLeapYear_range t) (DayWithinYear_range t)).
  lia.
Qed.

(** The fields of a time value give back its day number. *)
Lemma MakeDay_fields t :
  MakeDay (YearFromTime t) (MonthFromTime t) (DateFromTime t) = Day t.
Proof.
  assert (Hm := MonthFromTime_range t).
  unfold MakeDay.
  rewrite (Z.div_small (MonthFromTime t) 12), (Z.mod_small (MonthFromTime t) 12),
    Z.add_0_r by lia.
  unfold DateFromTime, DayWithinYear, InLeapYear; lia.
Qed.

Lemma MakeDate_eq day time : MakeDate day time = day * msPerDay + time.
Proof. reflexivity. Qed.

Lemma MakeDate_fields t : MakeDate (Day t) (TimeWithinDay t) = t.
Proof.
  unfold MakeDate, Day, TimeWithinDay, msPerDay.
  assert (Hd := Z.div_mod t 86400000); lia.
Qed.

Lemma TimeWithinDay_range t : 0 <= TimeWithinDay t < msPerDay.
Proof. unfold TimeWithinDay, msPerDay; apply Z.mod_pos_bound; lia. Qed.

Lemma Day_MakeDate day w : 0 <= w < msPerDay -> Day (MakeDate day w) = day.
Proof.
  unfold Day, MakeDate, msPerDay; intros Hw.
  symmetry; apply (Z.div_unique _ _ day w); lia.
Qed.

Lemma TimeWithinDay_MakeDate day w :
  0 <= w < msPerDay -> TimeWithinDay (MakeDate day w) = w.
Proof.
  unfold TimeWithinDay, MakeDate, msPerDay; intros Hw.
  symmetry; apply (Z.mod_unique _ _ day w); lia.
Qed.

(** The time value built from a year, a month, a day of that month and a
    time within the day has these fields. *)
Lemma fields_of_date y m d w :
  0 <= m <= 11 -> 1 <= d <= DaysInMonth y m -> 0 <= w < msPerDay ->
  let t := MakeDate (MakeDay y m d) w in
  YearFromTime t = y /\ MonthFromTime t = m /\ DateFromTime t = d
  /\ TimeWithinDay t = w.
Proof.
  intros Hm Hd Hw t.
  assert (Hl := leap_of_year_range y).
  assert (Hday : Day t = DayFromYear y + month_start m (leap_of_year y) + d - 1).
  { unfold t; rewrite Day_MakeDate by exact Hw.
    unfold MakeDay; rewrite (Z.div_small m 12), (Z.mod_small m 12), Z.add_0_r by lia.
    reflexivity. }
  assert (Hlen : month_start m (leap_of_year y) + month_length m (leap_of_year y)
                 <= 365 + leap_of_year y).
  { month_cases m Hc.
    repeat (destruct Hc as [->|Hc];
            [month_starts; unfold month_length; cbv [Z.eqb Pos.eqb orb]; lia|]).
    subst m; month_starts; unfold month_length; cbv [Z.eqb Pos.eqb orb]; lia. }
  assert (Hstart : 0 <= month_start m (leap_of_year y)).
  { month_cases m Hc.
    repeat (destruct Hc as [->|Hc]; [month_starts; lia|]).
    subst m; month_starts; lia. }
  unfold DaysInMonth in Hd.
  assert (Hy : YearFromTime t = y).
  { apply YearFromTime_unique.
    rewrite DayFromYear_succ, DaysInYear_leap, Hday; lia. }
  assert (Hdwy : DayWithinYear t = month_start m (leap_of_year y) + d - 1)
    by (unfold DayWithinYear; rewrite Hy, Hday; lia).
  assert (Hmonth : MonthFromTime t = m).
  { rewrite MonthFromTime_month_of; unfold InLeapYear; rewrite Hy, Hdwy.
    apply month_of_unique; lia. }
  split; [exact Hy|split; [exact Hmonth|split]].
  - unfold DateFromTime, InLeapYear; rewrite Hmonth, Hy, Hdwy; lia.
  - apply TimeWithinDay_MakeDate; exact Hw.
Qed.

(** Month [m + 1] starts when month [m] is over. *)
Lemma month_day_next year m :
  month_day year (m + 1)
  = month_day year m + DaysInMonth (year + m / 12) (m mod 12).
Proof.
  unfold month_day, DaysInMonth.
  assert (Hq : (m + 1) / 12 = m / 12 /\ (m + 1) mod 12 = m mod 12 + 1
               \/ (m + 1) / 12 = m / 12 + 1 /\ m mod 12 = 11
                  /\ (m + 1) mod 12 = 0)
    by (Z.div_mod_to_equations; lia).
  assert (Hm : 0 <= m mod 12 < 12) by (apply Z.mod_pos_bound; lia).
  assert (Hm' : 0 <= (m + 1) mod 12 < 12) by (apply Z.mod_pos_bound; lia).
  assert (Hl := leap_of_year_range (year + m / 12)).
  destruct Hq as [[Hq Hr]|[Hq [Hr Hr']]]; rewrite Hq;
    [rewrite Hr in *|rewrite Hr, Hr'].
  - generalize dependent (m mod 12); intros k _ Hk Hk'; month_cases k Hc.
    repeat (destruct Hc as [->|Hc];
            [simpl (_ + 1); month_starts; unfold month_length;
             cbv [Z.eqb Pos.eqb orb]; lia|]).
    lia.
  - replace (year + (m / 12 + 1)) with (year + m / 12 + 1) by lia.
    rewrite DayFromYear_succ, DaysInYear_leap.
    month_starts; unfold month_length; cbv [Z.eqb Pos.eqb orb]; lia.
Qed.

Lemma month_length_range m l : 0 <= l <= 1 -> 28 <= month_length m l <= 31.
Proof.
  intros Hl; unfold month_length.
  destruct (m =? 1); [lia|].
  destruct ((m =? 3) || (m =? 5) || (m =? 8) || (m =? 10)); lia.
Qed.

Lemma DaysInMonth_range y m : 28 <= DaysInMonth y m <= 31.
Proof. apply month_length_range, leap_of_year_range. Qed.

(** [MakeDay] with a month outside 0 to 11 is [MakeDay] of the month it
    denotes. *)
Lemma MakeDay_normal year month date :
  MakeDay year month date = MakeDay (year + month / 12) (month mod 12) date.
Proof.
  unfold MakeDay.
  assert (Hm : 0 <= month mod 12 < 12) by (apply Z.mod_pos_bound; lia).
  rewrite (Z.div_small (month mod 12) 12), Z.mod_mod, Z.add_0_r by lia.
  reflexivity.
Qed.

(** A day past the end of the month is a day of the next month. *)
Lemma MakeDay_rollover year m date :
  MakeDay year m date
  = MakeDay year (m + 1) (date - DaysInMonth (year + m / 12) (m mod 12)).
Proof. rewrite !MakeDay_month_day, month_day_next; lia. Qed.

Lemma leap_years_apart y : leap_of_year y + leap_of_year (y + 1) <= 1.
Proof.
  unfold leap_of_year, DaysInYear.
  destruct (Z.eqb_spec (y mod 4) 0) as [E|E]; cbn [negb].
  - destruct (Z.eqb_spec ((y + 1) mod 4) 0) as [E'|E']; cbn [negb].
    + exfalso; Z.div_mod_to_equations; lia.
    + destruct (negb (y mod 100 =? 0)); [cbn; lia|].
      destruct (negb (y mod 400 =? 0)); cbn; lia.
  - destruct (negb ((y + 1) mod 4 =? 0)); [cbn; lia|].
    destruct (negb ((y + 1) mod 100 =? 0)); [cbn; lia|].
    destruct (negb ((y + 1) mod 400 =? 0)); cbn; lia.
Qed.

Lemma month_start_leap m l :
  0 <= m <= 11 ->
  month_start m l = month_start m 0 + (if 2 <=? m then l else 0).
Proof.
  intros Hm; month_cases m Hc.
  repeat (destruct Hc as [->|Hc];
          [month_starts; cbv [Z.leb Z.compare Pos.compare Pos.compare_cont]; lia|]).
  subst m; month_starts; cbv [Z.leb Z.compare Pos.compare Pos.compare_cont]; lia.
Qed.

(** The same month [j] years earlier. *)
Lemma month_day_years_back year m j :
  0 <= m <= 11 ->
  month_day year (m - 12 * j)
  = DayFromYear (year - j) + month_start m (leap_of_year (year - j)).
Proof.
  intros Hm; unfold month_day.
  assert (Hq : (m - 12 * j) / 12 = - j /\ (m - 12 * j) mod 12 = m)
    by (Z.div_mod_to_equations; lia).
  destruct Hq as [-> ->]; reflexivity.
Qed.

(** Going back twelve months is going back 365 or 366 days, and going back
    twenty-four months 730 or 731 days. *)
Lemma MakeDay_years_back t :
  (MakeDay (YearFromTime t) (MonthFromTime t - 12) (DateFromTime t) = Day t - 365
   \/ MakeDay (YearFromTime t) (MonthFromTime t - 12) (DateFromTime t)
      = Day t - 366)
  /\ (MakeDay (YearFromTime t) (MonthFromTime t - 24) (DateFromTime t)
      = Day t - 730
      \/ MakeDay (YearFromTime t) (MonthFromTime t - 24) (DateFromTime t)
         = Day t - 731).
Proof.
  assert (Hm := MonthFromTime_range t).
  rewrite <- (MakeDay_fields t), !MakeDay_month_day.
  change (MonthFromTime t - 12) with (MonthFromTime t - 12 * 1).
  change (MonthFromTime t - 24) with (MonthFromTime t - 12 * 2).
  rewrite !month_day_years_back by exact Hm.
  unfold month_day.
  rewrite (Z.div_small (MonthFromTime t) 12), (Z.mod_small (MonthFromTime t) 12),
    Z.add_0_r by lia.
  generalize dependent (MonthFromTime t); intros m Hm.
  generalize (YearFromTime t); intros y.
  rewrite (month_start_leap m (leap_of_year y)),
    (month_start_leap m (leap_of_year (y - 1))),
    (month_start_leap m (leap_of_year (y - 2))) by exact Hm.
  assert (H1 := DayFromYear_succ (y - 1)).
  assert (H2 := DayFromYear_succ (y - 2)).
  replace (y - 1 + 1) with y in H1 by lia.
  replace (y - 2 + 1) with (y - 1) in H2 by lia.
  rewrite DaysInYear_leap in H1, H2.
  assert (L0 := leap_of_year_range y).
  assert (L1 := leap_of_year_range (y - 1)).
  assert (L2 := leap_of_year_range (y - 2)).
  assert (A1 := leap_years_apart (y - 1)).
  assert (A2 := leap_years_apart (y - 2)).
  replace (y - 1 + 1) with y in A1 by lia.
  replace (y - 2 + 1) with (y - 1) in A2 by lia.
  destruct (2 <=? m); lia.
Qed.

Section WithHost.
Context {H : Host}.

(** The local time is at a fixed offset from UTC. *)
Definition fixed_offset : Prop :=
  exists c, forall t b, LocalTZA t b = c.

Lemma LocalTime_eq t : LocalTime t = t + LocalTZA t true.
Proof. reflexivity. Qed.

Lemma getMonth_eq t : getMonth t = MonthFromTime (LocalTime t).
Proof. reflexivity. Qed.

Lemma setMonth_fixed now month s :
  fixed_offset -> setMonth now month = Some s ->
  LocalTime s
  = MakeDate (MakeDay (YearFromTime (LocalTime now)) month
                      (DateFromTime (LocalTime now)))
             (TimeWithinDay (LocalTime now)).
Proof.
  intros [c Hc]; unfold setMonth; intros Hs.
  apply TimeClip_Some in Hs; subst s.
  unfold UTC, LocalTime; rewrite !Hc; lia.
Qed.

End WithHost.

End CalendarFacts.

Lemma monthsAgo_eq {H : Host} now n :
  monthsAgo now n = JSDate.setMonth now (JSDate.getMonth now - n).
Proof. reflexivity. Qed.

(** X9. [monthsAgo(0)] is the present: setting the month of a date to its
    own month changes nothing.  (On a host whose local time has a fixed
    offset from UTC, for a clock within the range of [Date].) *)
Theorem monthsAgo_zero {H : Host} now :
  CalendarFacts.fixed_offset ->
  (Z.abs now <= JSDate.maxTime)%Z ->
  monthsAgo now 0 = Some now.
Proof.
  intros [c Hc] Hnow; rewrite monthsAgo_eq.
  unfold JSDate.setMonth, JSDate.getMonth.
  rewrite Z.sub_0_r, CalendarFacts.MakeDay_fields, CalendarFacts.MakeDate_fields.
  unfold JSDate.UTC, JSDate.LocalTime; rewrite !Hc.
  replace (now + c - c)%Z with now by lia.
  unfold JSDate.TimeClip.
  destruct (Z.leb_spec (Z.abs now) JSDate.maxTime); [reflexivity|lia].
Qed.

Lemma ref_host_fixed_offset : CalendarFacts.fixed_offset (H := ref_host).
Proof. exists 0%Z; reflexivity. Qed.

Lemma monthsAgo_zero_witness : monthsAgo demo_now 0 = Some demo_now.
Proof.
  apply (monthsAgo_zero (H := ref_host) demo_now ref_host_fixed_offset).
  unfold demo_now, JSDate.maxTime; lia.
Defined.

(** X10. The calendar date of [monthsAgo(n)].  It keeps the time of day.
    It falls on the same day of the month, [n] months before the current
    month, when that month has such a day; otherwise it rolls over into the
    month after, by as many days as the day of the month exceeds the length
    of that month.  (On a host whose local time has a fixed offset from
    UTC.) *)
Theorem monthsAgo_calendar {H : Host} now n s :
  CalendarFacts.fixed_offset ->
  monthsAgo now n = Some s ->
  let lt := JSDate.LocalTime now in
  let k := (JSDate.MonthFromTime lt - n)%Z in
  let y := (JSDate.YearFromTime lt + k / 12)%Z in
  let m := (k mod 12)%Z in
  let d := JSDate.DateFromTime lt in
  JSDate.TimeWithinDay (JSDate.LocalTime s) = JSDate.TimeWithinDay lt
  /\ ((d <= CalendarFacts.DaysInMonth y m)%Z ->
      JSDate.YearFromTime (JSDate.LocalTime s) = y
      /\ JSDate.MonthFromTime (JSDate.LocalTime s) = m
      /\ JSDate.DateFromTime (JSDate.LocalTime s) = d)
  /\ ((CalendarFacts.DaysInMonth y m < d)%Z ->
      JSDate.YearFromTime (JSDate.LocalTime s) = (y + (m + 1) / 12)%Z
      /\ JSDate.MonthFromTime (JSDate.LocalTime s) = ((m + 1) mod 12)%Z
      /\ JSDate.DateFromTime (JSDate.LocalTime s)
         = (d - CalendarFacts.DaysInMonth y m)%Z).
Proof.
  intros Hfix Hs; cbv zeta.
  rewrite monthsAgo_eq in Hs.
  rewrite (CalendarFacts.setMonth_fixed now _ s Hfix Hs).
  unfold JSDate.getMonth.
  remember (JSDate.LocalTime now) as lt eqn:Elt.
  remember (JSDate.MonthFromTime lt - n)%Z as k eqn:Ek.
  rewrite CalendarFacts.MakeDay_normal.
  remember (JSDate.YearFromTime lt + k / 12)%Z as y eqn:Ey.
  remember (k mod 12)%Z as m eqn:Em.
  assert (Hd := CalendarFacts.DateFromTime_range lt).
  assert (Hd31 := CalendarFacts.DaysInMonth_range
                    (JSDate.YearFromTime lt) (JSDate.MonthFromTime lt)).
  remember (JSDate.DateFromTime lt) as d eqn:Ed.
  assert (Hw := CalendarFacts.TimeWithinDay_range lt).
  remember (JSDate.TimeWithinDay lt) as w eqn:Ew.
  assert (Hm : (0 <= m < 12)%Z) by (subst m; apply Z.mod_pos_bound; lia).
  assert (Hlen := CalendarFacts.DaysInMonth_range y m).
  clear Elt Ek Ey Em Ed Ew Hs.
  split; [|split].
  - apply CalendarFacts.TimeWithinDay_MakeDate; exact Hw.
  - intros Hfit.
    destruct (CalendarFacts.fields_of_date y m d w) as (Hy & Hmo & Hda & _);
      auto; lia.
  - intros Hover.
    rewrite CalendarFacts.MakeDay_rollover, CalendarFacts.MakeDay_normal.
    rewrite (Z.div_small m 12), (Z.mod_small m 12), Z.add_0_r by lia.
    assert (Hm' : (0 <= (m + 1) mod 12 < 12)%Z) by (apply Z.mod_pos_bound; lia).
    assert (Hlen' := CalendarFacts.DaysInMonth_range
                       (y + (m + 1) / 12) ((m + 1) mod 12)).
    destruct (CalendarFacts.fields_of_date
                (y + (m + 1) / 12) ((m + 1) mod 12)
                (d - CalendarFacts.DaysInMonth y m) w)
      as (Hy & Hmo & Hda & _); auto; lia.
Qed.

(** Noon of 31 March 2025, UTC. *)
Definition end_of_march : Z := 1743422400000.

Lemma monthsAgo_calendar_witness :
  exists s, monthsAgo end_of_march 1 = Some s
            /\ JSDate.MonthFromTime (JSDate.LocalTime s) = 2%Z
            /\ JSDate.DateFromTime (JSDate.LocalTime s) = 3%Z.
Proof.
  assert (Hs : monthsAgo end_of_march 1 = Some 1741003200000%Z)
    by (vm_compute; reflexivity).
  assert (Hover : (CalendarFacts.DaysInMonth 2025 1 < 31)%Z)
    by (vm_compute; reflexivity).
  exists 1741003200000%Z; split; [exact Hs|].
  exact (proj2 (proj2 (proj2 (monthsAgo_calendar (H := ref_host) end_of_march 1 _
                                 ref_host_fixed_offset Hs)) Hover)).
Defined.

(** [monthsAgo] moves the clock by a whole number of days. *)
Lemma monthsAgo_days {H : Host} now n s :
  CalendarFacts.fixed_offset ->
  monthsAgo now n = Some s ->
  s = (now
       + (JSDate.MakeDay (JSDate.YearFromTime (JSDate.LocalTime now))
                         (JSDate.MonthFromTime (JSDate.LocalTime now) - n)
                         (JSDate.DateFromTime (JSDate.LocalTime now))
          - JSDate.Day (JSDate.LocalTime now)) * JSDate.msPerDay)%Z.
Proof.
  intros Hfix Hs; rewrite monthsAgo_eq in Hs.
  assert (Hs' := CalendarFacts.setMonth_fixed now _ s Hfix Hs).
  rewrite CalendarFacts.getMonth_eq, CalendarFacts.MakeDate_eq in Hs'.
  assert (Hlt := CalendarFacts.MakeDate_fields (JSDate.LocalTime now)).
  rewrite CalendarFacts.MakeDate_eq in Hlt.
  assert (Hloc : (JSDate.LocalTime s - JSDate.LocalTime now = s - now)%Z).
  { destruct Hfix as [c Hc]; rewrite !CalendarFacts.LocalTime_eq, !Hc; lia. }
  lia.
Qed.

Lemma window_start_bounds {H : Host} now :
  CalendarFacts.fixed_offset ->
  (forall s, monthsAgo now 12 = Some s ->
             (now - 366 * JSDate.msPerDay <= s)%Z)
  /\ (forall s, monthsAgo now 24 = Some s ->
                (now - 731 * JSDate.msPerDay <= s)%Z).
Proof.
  intros Hfix.
  assert (Hback := CalendarFacts.MakeDay_years_back (JSDate.LocalTime now)).
  split; intros s Hs; rewrite (monthsAgo_days now _ s Hfix Hs).
  - destruct Hback as [[->| ->] _]; unfold JSDate.msPerDay; lia.
  - destruct Hback as [_ [->| ->]]; unfold JSDate.msPerDay; lia.
Qed.

(** X11. The two time windows of the page.  [monthsAgo(12)] is 365 or 366
    days before the clock reading, and [monthsAgo(24)] is 730 or 731 days
    before it.  (On a host whose local time has a fixed offset from UTC.) *)
Theorem page_windows_in_days {H : Host} now :
  CalendarFacts.fixed_offset ->
  (forall s, monthsAgo now 12 = Some s ->
             s = (now - 365 * JSDate.msPerDay)%Z
             \/ s = (now - 366 * JSDate.msPerDay)%Z)
  /\ (forall s, monthsAgo now 24 = Some s ->
                s = (now - 730 * JSDate.msPerDay)%Z
                \/ s = (now - 731 * JSDate.msPerDay)%Z).
Proof.
  intros Hfix.
  assert (Hback := CalendarFacts.MakeDay_years_back (JSDate.LocalTime now)).
  split; intros s Hs; rewrite (monthsAgo_days now _ s Hfix Hs).
  - destruct Hback as [[Hb|Hb] _]; rewrite Hb; [left|right]; lia.
  - destruct Hback as [_ [Hb|Hb]]; rewrite Hb; [left|right]; lia.
Qed.

Lemma page_windows_in_days_witness :
  monthsAgo demo_now 12 = Some (demo_now - 365 * JSDate.msPerDay)%Z
  /\ monthsAgo demo_now 24 = Some (demo_now - 731 * JSDate.msPerDay)%Z.
Proof.
  assert (H12 : monthsAgo demo_now 12 = Some 1726401600000%Z)
    by (vm_compute; reflexivity).
  assert (H24 : monthsAgo demo_now 24 = Some 1694779200000%Z)
    by (vm_compute; reflexivity).
  destruct (page_windows_in_days (H := ref_host) demo_now ref_host_fixed_offset)
    as [W12 W24].
  destruct (W12 _ H12) as [E|E]; [|vm_compute in E; discriminate].
  destruct (W24 _ H24) as [E'|E']; [vm_compute in E'; discriminate|].
  rewrite <- E, <- E'; split; assumption.
Defined.

(* ------------------------------------------------------------------ *)
(** ** Queries that retain nothing *)

(** Every event refers to a property of the dataset. *)
Definition properties_resolve (db : Dataset) : bool :=
  forallb (fun e => match find_property db e with
                    | Some _ => true
                    | None => false
                    end)
          (events db).

Lemma nothing_retained {H : Host} db now center radiusMiles months buyerType :
  properties_resolve db = true ->
  (forall e, In e (events db) ->
             keeps (retained db center radiusMiles (monthsAgo now months)) e
             = false) ->
  computeResults db now center radiusMiles months buyerType = Ok [].
Proof.
  unfold properties_resolve; rewrite forallb_forall; intros Hp Hk.
  unfold computeResults, filtered.
  rewrite Array_filter_total.
  - assert (Hnil : filter (keeps (retained db center radiusMiles
                                     (monthsAgo now months))) (events db) = []).
    { clear Hp; induction (events db) as [|e l IH]; simpl; auto.
      rewrite (Hk e (or_introl eq_refl)); apply IH; intros; apply Hk; right; auto. }
    rewrite Hnil; reflexivity.
  - apply Forall_forall; intros e He; specialize (Hp e He).
    unfold retained; destruct (find_property db e); [eauto|discriminate].
Qed.

Lemma leb_nan (d r : float) : is_nan r = true -> (d <=? r)%float = false.
Proof.
  unfold is_nan; rewrite negb_true_iff.
  rewrite FloatAxioms.eqb_spec, FloatAxioms.leb_spec.
  destruct (Prim2SF d) as [sx|sx| |sx mx ex], (Prim2SF r) as [sy|sy| |sy my ey];
    FloatOrder.sf_order.
Qed.

(** X12. A radius that is not a number, or a window whose start is not a
    valid date, retains nothing: on a dataset whose events all refer to a
    property, the query returns no row. *)
Theorem degenerate_query_is_empty {H : Host} db now center radiusMiles months buyerType :
  properties_resolve db = true ->
  is_nan radiusMiles = true \/ monthsAgo now months = None ->
  computeResults db now center radiusMiles months buyerType = Ok [].
Proof.
  intros Hp Hdeg; apply nothing_retained; auto.
  intros e _; unfold keeps, retained.
  destruct (find_property db e) as [p|]; [|reflexivity].
  destruct Hdeg as [Hnan|Hnone].
  - rewrite (leb_nan _ _ Hnan), andb_false_r; reflexivity.
  - rewrite Hnone; unfold JSDate.Date_ge.
    destruct (Date_parse (BuyerEvent.event_date e));
      rewrite andb_false_r; reflexivity.
Qed.

Lemma degenerate_query_is_empty_witness :
  computeResults Seed.data demo_now Seed.san_antonio nan 12 all = Ok []
  /\ computeResults Seed.data demo_now Seed.san_antonio 10 4000000 all = Ok [].
Proof.
  assert (Hp : properties_resolve Seed.data = true) by (vm_compute; reflexivity).
  split.
  - apply (degenerate_query_is_empty Seed.data demo_now Seed.san_antonio nan 12
             all Hp); left; reflexivity.
  - apply (degenerate_query_is_empty Seed.data demo_now Seed.san_antonio 10
             4000000 all Hp); right; vm_compute; reflexivity.
Defined.

(** Every event with a valid date is dated before [t]. *)
Definition older_than {H : Host} (db : Dataset) (t : Z) : bool :=
  forallb (fun e => match Date_parse (BuyerEvent.event_date e) with
                    | Some d => (d <? t)%Z
                    | None => true
                    end)
          (events db).

Lemma stale_window {H : Host} db now center radiusMiles months buyerType t :
  properties_resolve db = true ->
  older_than db t = true ->
  (forall s, monthsAgo now months = Some s -> (t <= s)%Z) ->
  computeResults db now center radiusMiles months buyerType = Ok [].
Proof.
  unfold older_than; rewrite forallb_forall; intros Hp Hold Hs.
  apply nothing_retained; auto.
  intros e He; unfold keeps, retained.
  destruct (find_property db e) as [p|]; [|reflexivity].
  specialize (Hold e He); unfold JSDate.Date_ge.
  destruct (Date_parse (BuyerEvent.event_date e)) as [d|];
    [|rewrite andb_false_r; reflexivity].
  destruct (monthsAgo now months) as [s|]; [|rewrite andb_false_r; reflexivity].
  specialize (Hs s eq_refl); apply Z.ltb_lt in Hold.
  replace (s <=? d)%Z with false by (symmetry; apply Z.leb_gt; lia).
  rewrite andb_false_r; reflexivity.
Qed.

(** X13. Data that has gone stale.  When every event is dated more than 366
    days before the clock reading, the twelve-month query returns no row,
    whatever the center, the radius and the buyer type; likewise the
    twenty-four-month query when every event is more than 731 days old.
    (On a host whose local time has a fixed offset from UTC, for a dataset
    whose events all refer to a property.) *)
Theorem stale_data_gives_no_rows {H : Host} db now center radiusMiles buyerType :
  CalendarFacts.fixed_offset ->
  properties_resolve db = true ->
  (older_than db (now - 366 * JSDate.msPerDay) = true ->
   computeResults db now center radiusMiles 12 buyerType = Ok [])
  /\ (older_than db (now - 731 * JSDate.msPerDay) = true ->
      computeResults db now center radiusMiles 24 buyerType = Ok []).
Proof.
  intros Hfix Hp.
  destruct (window_start_bounds now Hfix) as [W12 W24].
  split; intros Hold;
    apply (stale_window db now center radiusMiles _ buyerType _ Hp Hold);
    intros s Hs.
  - exact (W12 s Hs).
  - exact (W24 s Hs).
Qed.

Lemma stale_data_gives_no_rows_witness :
  computeResults Seed.data demo_two_years_on Seed.san_antonio 2 12 all = Ok [].
Proof.
  assert (Hp : properties_resolve Seed.data = true) by (vm_compute; reflexivity).
  assert (Hold : older_than Seed.data
                   (demo_two_years_on - 366 * JSDate.msPerDay) = true)
    by (vm_compute; reflexivity).
  exact (proj1 (stale_data_gives_no_rows Seed.data demo_two_years_on
                  Seed.san_antonio 2 all ref_host_fixed_offset Hp) Hold).
Defined.

(* ------------------------------------------------------------------ *)
(** ** The in-page tests *)



Lemma rows_type {H : Host} db now center radiusMiles months c out :
  computeResults db now center radiusMiles months (only c) = Ok out ->
  every_type c out = true.
Proof.
  intros Hout; unfold every_type; apply forallb_forall; intros r Hr.
  apply computeResults_Ok in Hout.
  destruct Hout as (evs & o & _ & Hg & ->).
  apply grouped_inv in Hg.
  apply (proj1 (Array_sort_In _ _ _)) in Hr.
  destruct (rows_In db (only c) evs o Hg r Hr) as (g & Hin & ->).
  destruct (In_group_ok db (only c) evs o Hg _ _ Hin) as (_ & Hs & _).
  simpl in *; apply negb_false_iff in Hs; exact Hs.
Qed.

Module Crash.
Local Open Scope string_scope.
Local Open Scope float_scope.

(** A purchase by a buyer who is not in the dataset, of a property more
    than two and less than ten miles from the default center. *)
Definition purchase_of_unknown : BuyerEvent.t :=
  BuyerEvent.Build_t "e8" "b9" "p3" purchase "2025-06-01" 200000 county.

Definition data : Dataset :=
  Build_Dataset Seed.buyers Seed.properties
                (Seed.events ++ [purchase_of_unknown])%list.



End Crash.

Section TestFacts.
Local Open Scope string_scope.


Ltac run_tests :=
  unfold testResults;
  repeat match goal with
         | |- context [attempt _ (computeResults ?d ?n ?c ?r ?m ?b)] =>
             let out := fresh "r" in
             let E := fresh "E" in
             destruct (computeResults d n c r m b) as [out|] eqn:E;
             cbn [attempt app]
         end.




(** X15. The two type-filter tests cannot fail.  Whatever the dataset, the
    clock and the center, an entry of [testResults] named T2 or T5 has
    passed. *)
Theorem type_tests_cannot_fail {H : Host} db clock message center t :
  In t (testResults db clock message center) ->
  TestResult.name t = "T2: Flippers-only filter"
  \/ TestResult.name t = "T5: Landlords-only filter" ->
  TestResult.passed t = true.
Proof.
  run_tests; simpl; intros Hin Hname;
    repeat (destruct Hin as [<-|Hin]; [|]);
    try contradiction;
    simpl in Hname; destruct Hname as [Hname|Hname]; try discriminate;
    simpl; eapply rows_type; eauto.
Qed.

Lemma type_tests_cannot_fail_witness :
  TestResult.passed
    (nth 1 (testResults Seed.data (fun _ => demo_now) "" Seed.san_antonio)
         (crashed ""))
  = true.
Proof.
  apply (type_tests_cannot_fail Seed.data (fun _ => demo_now) "" Seed.san_antonio).
  - vm_compute; auto.
  - left; vm_compute; reflexivity.
Defined.

Lemma T3_passes {H : Host} db now center r3 r4 :
  computeResults db now center 0.5 12 all = Ok r3 ->
  computeResults db now center 5 12 all = Ok r4 ->
  TestResult.passed (T3 r3 r4) = true.
Proof.
  intros E3 E4; simpl; apply Nat.leb_le.
  refine (proj2 (rows_widen db all _ _ _ _ _ _ _ _ r3 r4 _ E3 E4)).
  intros ev _; apply retained_radius_mono; reflexivity.
Qed.

Lemma T4_passes {H : Host} db now center r5 r6 :
  JSDateFacts.tza_bounded ->
  monthsAgo now 24 <> None ->
  computeResults db now center 5 24 all = Ok r5 ->
  computeResults db now center 5 12 all = Ok r6 ->
  TestResult.passed (T4 r5 r6) = true.
Proof.
  intros Htz Hvalid E5 E6; simpl; apply Nat.leb_le.
  refine (proj2 (rows_widen db all _ _ _ _ _ _ _ _ r6 r5 _ E6 E5)).
  intros ev _; apply retained_since_mono; intros s Hs.
  destruct (monthsAgo now 24) as [s'|] eqn:Hs'; [|congruence].
  exists s'; split; auto.
  assert (Hlt : (12 < 24)%Z) by lia.
  assert (Hm := monthsAgo_mono now 12 24 s s' Htz Hlt Hs Hs'); lia.
Qed.

(** X16. The two monotonicity tests pass when the clock stands still.  An
    entry named T3 has passed when its two calls read the same clock; an
    entry named T4 has passed when its two calls read the same clock and
    the twenty-four-month window starts at a valid date.  (On a host whose
    local time is within a day of UTC.) *)
Theorem monotonicity_tests_pass {H : Host} db clock message center t :
  JSDateFacts.tza_bounded ->
  In t (testResults db clock message center) ->
  (TestResult.name t = "T3: 0.5mi vs 5mi reduces results" ->
   clock 2 = clock 3 ->
   TestResult.passed t = true)
  /\ (TestResult.name t = "T4: 24mo returns at least as many as 12mo" ->
      clock 4 = clock 5 ->
      monthsAgo (clock 4) 24 <> None ->
      TestResult.passed t = true).
Proof.
  intros Htz.
  run_tests; simpl; intros Hin;
    repeat (destruct Hin as [<-|Hin]; [|]);
    try contradiction;
    (split; intros Hname; try discriminate Hname).
  all: match goal with
       | |- _ -> _ -> _ =>
           intros Hclock Hvalid; rewrite <- Hclock in E4;
           exact (T4_passes db _ center _ _ Htz Hvalid E3 E4)
       | |- _ -> _ =>
           intros Hclock; rewrite Hclock in E1;
           exact (T3_passes db _ center _ _ E1 E2)
       end.
Qed.

Lemma monotonicity_tests_pass_witness :
  TestResult.passed
    (nth 2 (testResults Seed.data (fun _ => demo_now) "" Seed.san_antonio)
         (crashed ""))
  = true
  /\ TestResult.passed
       (nth 3 (testResults Seed.data (fun _ => demo_now) "" Seed.san_antonio)
            (crashed ""))
     = true.
Proof.
  assert (Hv : monthsAgo demo_now 24 <> None) by (vm_compute; discriminate).
  split.
  - refine (proj1 (monotonicity_tests_pass Seed.data (fun _ => demo_now) ""
                     Seed.san_antonio _ ref_host_tza_bounded _) _ eq_refl).
    + vm_compute; auto 6.
    + vm_compute; reflexivity.
  - refine (proj2 (monotonicity_tests_pass Seed.data (fun _ => demo_now) ""
                     Seed.san_antonio _ ref_host_tza_bounded _) _ eq_refl Hv).
    + vm_compute; auto 6.
    + vm_compute; reflexivity.
Defined.

(** X17. The default test fails on stale data.  When every event of the
    dataset is dated more than 366 days before the first clock reading,
    [testResults] starts with the entry of T1, which has not passed and
    counts no row.  (On a host whose local time has a fixed offset from UTC,
    for a dataset whose events all refer to a property.) *)
Theorem default_test_fails_on_stale_data {H : Host} db clock message center :
  CalendarFacts.fixed_offset ->
  properties_resolve db = true ->
  older_than db (clock 0 - 366 * JSDate.msPerDay) = true ->
  exists rest,
    testResults db clock message center
    = {| TestResult.name := "T1: Default (2mi/12mo) returns >= 1 row";
         TestResult.passed := false;
         TestResult.detail := "count:0" |} :: rest.
Proof.
  intros Hfix Hp Hold.
  assert (Hr1 : computeResults db (clock 0) center 2 12 all = Ok []).
  { apply (stale_window db (clock 0) center 2%float 12%Z all _ Hp Hold).
    intros s Hs; exact (proj1 (window_start_bounds (clock 0) Hfix) s Hs). }
  unfold testResults; rewrite Hr1; cbn [attempt app].
  repeat match goal with
         | |- context [attempt _ (computeResults ?d ?n ?c ?r ?m ?b)] =>
             destruct (computeResults d n c r m b); cbn [attempt app]
         end;
    eexists; reflexivity.
Qed.

Lemma default_test_fails_on_stale_data_witness :
  exists rest,
    testResults Seed.data (fun _ => demo_two_years_on) "" Seed.san_antonio
    = {| TestResult.name := "T1: Default (2mi/12mo) returns >= 1 row";
         TestResult.passed := false;
         TestResult.detail := "count:0" |} :: rest.
Proof.
  apply (default_test_fails_on_stale_data Seed.data (fun _ => demo_two_years_on)
           "" Seed.san_antonio ref_host_fixed_offset).
  - vm_compute; reflexivity.
  - vm_compute; reflexivity.
Defined.

End TestFacts.

(* ------------------------------------------------------------------ *)
(** ** The markers of the map *)

(** Every event has a valid date. *)
Definition dates_valid {H : Host} (db : Dataset) : bool :=
  forallb (fun e => match Date_parse (BuyerEvent.event_date e) with
                    | Some _ => true
                    | None => false
                    end)
          (events db).

Section Markers.
Context {H : Host}.
Variable db : Dataset.

Definition dated (e : BuyerEvent.t) : Prop :=
  Date_parse (BuyerEvent.event_date e) <> None.

Lemma date_gt_false a b ta tb :
  Date_parse (BuyerEvent.event_date a) = Some ta ->
  Date_parse (BuyerEvent.event_date b) = Some tb ->
  date_gt a b = false <-> (tb <= ta)%Z.
Proof.
  unfold date_gt; intros -> ->.
  destruct (Z.ltb_spec 0 (tb - ta)); split; intros; try lia; congruence.
Qed.

(** The first element of the sorted events is dated last. *)
Lemma sorted_by_date_head l e rest :
  Forall dated l ->
  Array_sort date_gt l = e :: rest ->
  In e l
  /\ exists d, Date_parse (BuyerEvent.event_date e) = Some d
               /\ forall e' d', In e' l ->
                                Date_parse (BuyerEvent.event_date e') = Some d' ->
                                (d' <= d)%Z.
Proof.
  intros Hl Hs.
  assert (Hin : In e l)
    by (apply (proj1 (Array_sort_In date_gt e l)); rewrite Hs; left; reflexivity).
  split; [exact Hin|].
  assert (Hde : dated e) by (rewrite Forall_forall in Hl; auto).
  unfold dated in Hde.
  destruct (Date_parse (BuyerEvent.event_date e)) as [d|] eqn:Hd; [|congruence].
  exists d; split; [reflexivity|]; intros e' d' Hin' Hd'.
  assert (Hsorted := Array_sort_stable date_gt dated (fun _ _ => True)).
  assert (Hs' : StronglySorted (precedes date_gt (fun _ _ => True))
                               (Array_sort date_gt l)).
  { apply Hsorted; auto.
    - intros a b Ha Hb; unfold dated in Ha, Hb; unfold date_gt.
      destruct (Date_parse (BuyerEvent.event_date a)) as [ta|]; [|congruence].
      destruct (Date_parse (BuyerEvent.event_date b)) as [tb|]; [|congruence].
      intros Hab; apply Z.ltb_lt in Hab; apply Z.ltb_ge; lia.
    - intros a b c Ha Hb Hc; unfold dated in Ha, Hb, Hc; unfold date_gt.
      destruct (Date_parse (BuyerEvent.event_date a)) as [ta|]; [|congruence].
      destruct (Date_parse (BuyerEvent.event_date b)) as [tb|]; [|congruence].
      destruct (Date_parse (BuyerEvent.event_date c)) as [tc|]; [|congruence].
      intros Hab Hbc; apply Z.ltb_ge in Hab, Hbc; apply Z.ltb_ge; lia.
    - clear; induction l; constructor; auto.
      apply Forall_forall; auto. }
  rewrite Hs in Hs'; inversion Hs' as [|? ? _ Hall]; subst.
  apply (proj2 (Array_sort_In date_gt e' l)) in Hin'; rewrite Hs in Hin'.
  destruct Hin' as [<-|Hin']; [assert (d' = d) by congruence; lia|].
  rewrite Forall_forall in Hall; destruct (Hall e' Hin') as [Hgt _].
  apply (proj1 (date_gt_false e e' d d' Hd Hd')); exact Hgt.
Qed.

End Markers.

(** X18. Where a buyer's marker goes.  For every row of a query, the marker
    is at the property of the most recent event of that buyer in the whole
    dataset, sales and events outside the radius and the time window
    included; when that property is not in the dataset the marker is at the
    center of the query.  The marker carries the id, the name and the type
    of the row.  (For a dataset whose event dates are all valid.) *)
Theorem marker_is_at_latest_event {H : Host} db now center radiusMiles months buyerType out :
  dates_valid db = true ->
  computeResults db now center radiusMiles months buyerType = Ok out ->
  forall row, In row out ->
    let mk := marker db center row in
    Marker.id mk = ResultRow.id row
    /\ Marker.name mk = ResultRow.name row
    /\ Marker.type mk = ResultRow.buyer_type row
    /\ exists e d,
         In e (events db)
         /\ BuyerEvent.buyer_id e = ResultRow.id row
         /\ Date_parse (BuyerEvent.event_date e) = Some d
         /\ (forall e' d', In e' (events db) ->
                           BuyerEvent.buyer_id e' = ResultRow.id row ->
                           Date_parse (BuyerEvent.event_date e') = Some d' ->
                           (d' <= d)%Z)
         /\ Marker.coordinates mk
            = match find_property db e with
              | Some p => (Property.lon p, Property.lat p)
              | None => (LatLon.lon center, LatLon.lat center)
              end.
Proof.
  intros Hvalid Hout row Hrow; cbv zeta.
  split; [reflexivity|split; [reflexivity|split; [reflexivity|]]].
  destruct (computeResults_Ok db now center radiusMiles months buyerType out Hout)
    as (evs & _ & Hf & _).
  apply (rows_characterised db now center radiusMiles months buyerType evs out
           Hf Hout) in Hrow.
  destruct Hrow as (b & (_ & _ & Hne) & ->).
  change (ResultRow.id (row_of (group_of evs b))) with (Buyer.id b).
  set (mine := filter (fun e => String.eqb (BuyerEvent.buyer_id e) (Buyer.id b))
                      (events db)).
  assert (Hdated : Forall (dated) mine).
  { unfold dates_valid in Hvalid; rewrite forallb_forall in Hvalid.
    apply Forall_forall; intros e He; apply filter_In in He.
    specialize (Hvalid e (proj1 He)); unfold dated.
    destruct (Date_parse (BuyerEvent.event_date e)); congruence. }
  assert (Hsome : mine <> []).
  { destruct (filter (of_buyer (Buyer.id b)) evs) as [|e l] eqn:He; [tauto|].
    assert (Hin : In e (filter (of_buyer (Buyer.id b)) evs))
      by (rewrite He; left; reflexivity).
    apply filter_In in Hin; destruct Hin as [Hin Hof].
    apply (filtered_incl db now center radiusMiles months evs Hf) in Hin.
    intros Hnil.
    assert (Hm : In e mine) by (apply filter_In; split; auto).
    rewrite Hnil in Hm; destruct Hm. }
  destruct (Array_sort date_gt mine) as [|e rest] eqn:Hs.
  { exfalso; apply Hsome.
    assert (Hp := Array_sort_perm date_gt mine); rewrite Hs in Hp.
    apply Permutation_nil; exact Hp. }
  destruct (sorted_by_date_head mine e rest Hdated Hs)
    as (Hin & d & Hd & Hmax).
  apply filter_In in Hin; destruct Hin as [Hin Hid]; apply String.eqb_eq in Hid.
  exists e, d; repeat split; auto.
  - intros e' d' Hin' Hid' Hd'; apply (Hmax e' d'); auto.
    apply filter_In; split; auto; apply String.eqb_eq; exact Hid'.
  - unfold marker, marker_property, lastDeal; simpl.
    fold mine; rewrite Hs; reflexivity.
Qed.

(** The rows of the page's default query at [demo_now]: two miles, twelve
    months, every type. *)
Definition demo_default_rows : list ResultRow.t :=
  Eval vm_compute in
    match computeResults Seed.data demo_now Seed.san_antonio 2 12 all with
    | Ok rows => rows
    | Throw _ => []
    end.

Lemma marker_is_at_latest_event_witness :
  exists e,
    In e (events Seed.data)
    /\ BuyerEvent.buyer_id e = "b1"%string
    /\ Marker.coordinates
         (marker Seed.data Seed.san_antonio
                 (nth 2 demo_default_rows
                      (row_of (new_group (Buyer.Build_t "" "" unknown [])))))
       = match find_property Seed.data e with
         | Some p => (Property.lon p, Property.lat p)
         | None => (LatLon.lon Seed.san_antonio, LatLon.lat Seed.san_antonio)
         end.
Proof.
  assert (Hv : dates_valid Seed.data = true) by (vm_compute; reflexivity).
  assert (Hout : computeResults Seed.data demo_now Seed.san_antonio 2 12 all
                 = Ok demo_default_rows) by (vm_compute; reflexivity).
  assert (Hrow : In (nth 2 demo_default_rows
                         (row_of (new_group (Buyer.Build_t "" "" unknown []))))
                    demo_default_rows) by (simpl; auto).
  destruct (marker_is_at_latest_event Seed.data demo_now Seed.san_antonio 2 12
              all demo_default_rows Hv Hout _ Hrow)
    as (_ & _ & _ & e & d & Hin & Hid & _ & _ & Hc).
  exists e; split; [exact Hin|split; [exact Hid|exact Hc]].
Defined.

(* ------------------------------------------------------------------ *)
(** ** The camera *)

Lemma ltb_leb (x y : float) : (x <? y)%float = true -> (x <=? y)%float = true.
Proof.
  rewrite FloatAxioms.ltb_spec, FloatAxioms.leb_spec.
  destruct (Prim2SF x) as [sx|sx| |sx mx ex], (Prim2SF y) as [sy|sy| |sy my ey];
    FloatOrder.sf_order.
Qed.

Lemma leb_refl (x : float) : is_nan x = false -> (x <=? x)%float = true.
Proof.
  intros Hx; apply FloatOrder.leb_total; auto.
  destruct (x <? x)%float eqn:E; auto.
  rewrite (FloatOrder.ltb_asym x x E) in E; discriminate.
Qed.

Lemma Math_max_spec (x y : float) :
  is_nan x = false -> is_nan y = false ->
  (x <=? Math_max x y)%float = true
  /\ (y <=? Math_max x y)%float = true
  /\ (Math_max x y = x \/ Math_max x y = y).
Proof.
  intros Hx Hy; unfold Math_max; rewrite Hx, Hy; cbn [orb].
  destruct (x <? y)%float eqn:Hxy.
  - split; [apply ltb_leb; exact Hxy|split; [apply leb_refl; exact Hy|auto]].
  - destruct (y <? x)%float eqn:Hyx.
    + split; [apply leb_refl; exact Hx|split; [apply ltb_leb; exact Hyx|auto]].
    + assert (Hle : (x <=? y)%float = true) by (apply FloatOrder.leb_total; auto).
      assert (Hge : (y <=? x)%float = true) by (apply FloatOrder.leb_total; auto).
      destruct (PrimFloat.is_zero x && get_sign x);
        auto using leb_refl.
Qed.

(** X19. Updating the map recentres it and never zooms out.  The last call
    of [updateMapData], and its only camera move, flies to the center of
    the query at a zoom that is the larger of the current zoom and 11.  The
    markers are set only when the [buyers] source exists, one per row and in
    the order of the rows. *)
Theorem map_update_recentres {H : Host} db has_source zoom results center radius :
  is_nan zoom = false ->
  exists calls z,
    updateMapData db has_source zoom results center radius
    = calls ++ [flyTo (LatLon.lon center) (LatLon.lat center) z]
    /\ (forall lon lat z', ~ In (flyTo lon lat z') calls)
    /\ (zoom <=? z)%float = true
    /\ (11 <=? z)%float = true
    /\ (z = zoom \/ z = 11%float)
    /\ (forall features, In (setData_buyers features) calls ->
                         has_source "buyers"%string = true
                         /\ map Marker.id features = map ResultRow.id results).
Proof.
  intros Hz; unfold updateMapData.
  destruct (Math_max_spec zoom 11 Hz eq_refl) as (H1 & H2 & H3).
  eexists; exists (Math_max zoom 11); split; [rewrite app_assoc; reflexivity|].
  split; [|split; [exact H1|split; [exact H2|split; [exact H3|]]]].
  - intros lon lat z' Hin; apply in_app_or in Hin.
    destruct (has_source "buyers"%string), (has_source "radius"%string);
      simpl in Hin; intuition discriminate.
  - intros features Hin; apply in_app_or in Hin.
    destruct (has_source "buyers"%string), (has_source "radius"%string);
      simpl in Hin; intuition (try discriminate).
    all: match goal with
         | E : setData_buyers _ = setData_buyers _ |- _ => injection E as <-
         end; rewrite map_map; reflexivity.
Qed.

Lemma map_update_recentres_witness :
  exists calls z,
    updateMapData Seed.data (fun _ => true) 9%float demo_default_rows
                  Seed.san_antonio 2%float
    = calls ++ [flyTo (-98.4936)%float 29.4241%float z]
    /\ (11 <=? z)%float = true.
Proof.
  destruct (map_update_recentres Seed.data (fun _ => true) 9%float
              demo_default_rows Seed.san_antonio 2%float eq_refl)
    as (calls & z & Hc & _ & _ & Hz & _).
  exists calls, z; split; [exact Hc|exact Hz].
Defined.

(* ------------------------------------------------------------------ *)
(** ** Coordinates that are not numbers *)

Module NaNFacts.
Local Open Scope float_scope.

Lemma is_nan_eq (x : float) : is_nan x = true -> x = nan.
Proof.
  unfold is_nan; rewrite negb_true_iff, FloatAxioms.eqb_spec; intros Hx.
  apply FloatAxioms.Prim2SF_inj; change (Prim2SF nan) with S754_nan.
  destruct (Prim2SF x) as [s|s| |s m e]; [| |reflexivity|];
    exfalso; revert Hx; FloatOrder.sf_order.
Qed.

Lemma sub_nan_l x : nan - x = nan.
Proof.
  apply FloatAxioms.Prim2SF_inj; rewrite FloatAxioms.sub_spec; reflexivity.
Qed.

Lemma sub_nan_r x : x - nan = nan.
Proof.
  apply FloatAxioms.Prim2SF_inj; rewrite FloatAxioms.sub_spec.
  change (Prim2SF nan) with S754_nan; destruct (Prim2SF x); reflexivity.
Qed.

Lemma mul_nan_l x : nan * x = nan.
Proof.
  apply FloatAxioms.Prim2SF_inj; rewrite FloatAxioms.mul_spec; reflexivity.
Qed.

Lemma mul_nan_r x : x * nan = nan.
Proof.
  apply FloatAxioms.Prim2SF_inj; rewrite FloatAxioms.mul_spec.
  change (Prim2SF nan) with S754_nan; destruct (Prim2SF x); reflexivity.
Qed.

Lemma div_nan_l x : nan / x = nan.
Proof.
  apply FloatAxioms.Prim2SF_inj; rewrite FloatAxioms.div_spec; reflexivity.
Qed.

Lemma add_nan_l x : nan + x = nan.
Proof.
  apply FloatAxioms.Prim2SF_inj; rewrite FloatAxioms.add_spec; reflexivity.
Qed.

Lemma add_nan_r x : x + nan = nan.
Proof.
  apply FloatAxioms.Prim2SF_inj; rewrite FloatAxioms.add_spec.
  change (Prim2SF nan) with S754_nan; destruct (Prim2SF x); reflexivity.
Qed.

End NaNFacts.

(** The host's functions give [NaN] on [NaN], as ECMAScript requires of
    [Math.sin], [Math.sqrt] and [Math.asin]. *)
Definition nan_preserving {H : Host} : Prop :=
  Math_sin nan = nan /\ Math_sqrt nan = nan /\ Math_asin nan = nan.

Lemma distance_nan {H : Host} (a b : LatLon.t) :
  nan_preserving ->
  is_nan (LatLon.lat a) = true \/ is_nan (LatLon.lon a) = true
  \/ is_nan (LatLon.lat b) = true \/ is_nan (LatLon.lon b) = true ->
  distanceMiles a b = nan.
Proof.
  intros (Hsin & Hsqrt & Hasin) Hnan; unfold distanceMiles, toRad, Num.sq.
  assert (Hh : (Math_sin ((LatLon.lat b - LatLon.lat a) * Num.PI / 180 / 2)
                * Math_sin ((LatLon.lat b - LatLon.lat a) * Num.PI / 180 / 2)
                + Math_cos (LatLon.lat a * Num.PI / 180)
                  * Math_cos (LatLon.lat b * Num.PI / 180)
                  * (Math_sin ((LatLon.lon b - LatLon.lon a) * Num.PI / 180 / 2)
                     * Math_sin ((LatLon.lon b - LatLon.lon a) * Num.PI / 180 / 2))
                = nan)%float).
  { destruct Hnan as [Hn|[Hn|[Hn|Hn]]]; apply NaNFacts.is_nan_eq in Hn; rewrite Hn.
    - rewrite NaNFacts.sub_nan_r, NaNFacts.mul_nan_l, !NaNFacts.div_nan_l, Hsin,
        NaNFacts.mul_nan_l; apply NaNFacts.add_nan_l.
    - rewrite NaNFacts.sub_nan_r, NaNFacts.mul_nan_l, !NaNFacts.div_nan_l, Hsin,
        NaNFacts.mul_nan_l, NaNFacts.mul_nan_r; apply NaNFacts.add_nan_r.
    - rewrite NaNFacts.sub_nan_l, NaNFacts.mul_nan_l, !NaNFacts.div_nan_l, Hsin,
        NaNFacts.mul_nan_l; apply NaNFacts.add_nan_l.
    - rewrite NaNFacts.sub_nan_l, NaNFacts.mul_nan_l, !NaNFacts.div_nan_l, Hsin,
        NaNFacts.mul_nan_l, NaNFacts.mul_nan_r; apply NaNFacts.add_nan_r. }
  cbv zeta; rewrite Hh, Hsqrt, Hasin; apply NaNFacts.mul_nan_r.
Qed.

Lemma nan_leb (r : float) : (nan <=? r)%float = false.
Proof.
  rewrite FloatAxioms.leb_spec; change (Prim2SF nan) with S754_nan; reflexivity.
Qed.

(** X20. A coordinate that is not a number places nothing within reach.  On
    a host whose sine, square root and arc sine give [NaN] on [NaN], no
    retained event has a property with a [NaN] latitude or longitude; and
    when the latitude or the longitude of the center is [NaN], the query
    returns no row (on a dataset whose events all refer to a property). *)
Theorem nan_coordinates_are_out_of_reach {H : Host} db now center radiusMiles months buyerType :
  nan_preserving ->
  (forall evs e p,
      filtered db now center radiusMiles months = Ok evs ->
      In e evs -> find_property db e = Some p ->
      is_nan (Property.lat p) = false /\ is_nan (Property.lon p) = false)
  /\ (properties_resolve db = true ->
      is_nan (LatLon.lat center) = true \/ is_nan (LatLon.lon center) = true ->
      computeResults db now center radiusMiles months buyerType = Ok []).
Proof.
  intros Hhost; split.
  - intros evs e p Hf He Hp.
    unfold filtered in Hf; apply Array_filter_Ok in Hf; destruct Hf as [-> _].
    apply filter_In in He; destruct He as [_ Hk].
    unfold keeps, retained in Hk; rewrite Hp in Hk.
    destruct (is_nan (Property.lat p)) eqn:Hlat;
      [|destruct (is_nan (Property.lon p)) eqn:Hlon; [|auto]];
      rewrite distance_nan, nan_leb, andb_false_r in Hk;
      simpl; auto; discriminate.
  - intros Hres Hnan; apply nothing_retained; auto.
    intros e _; unfold keeps, retained.
    destruct (find_property db e) as [p|]; [|reflexivity].
    rewrite distance_nan, nan_leb, andb_false_r by tauto; reflexivity.
Qed.

Lemma ref_host_nan_preserving : nan_preserving (H := ref_host).
Proof. repeat split; vm_compute; reflexivity. Qed.

Lemma nan_coordinates_are_out_of_reach_witness :
  computeResults Seed.data demo_now
                 {| LatLon.lat := nan; LatLon.lon := (-98.4936)%float |}
                 10 24 all
  = Ok [].
Proof.
  apply (proj2 (nan_coordinates_are_out_of_reach Seed.data demo_now
                  {| LatLon.lat := nan; LatLon.lon := (-98.4936)%float |}
                  10%float 24%Z all ref_host_nan_preserving)).
  - vm_compute; reflexivity.
  - left; reflexivity.
Defined.
